(** * File-backed entity store of the OpenPrintTag database editor

    A shallow embedding of [ui-editor/src/server/data/fs.ts]: the slug
    normaliser, the YAML codec with its degraded mode, directory resolution,
    the entity matcher, the collection reader, the record service and the
    lookup-table reader, together with the properties the specification
    states about them.

    Conventions of the embedding.
    - A JavaScript string is the list of its UTF-16 code units ([jsstring]).
    - A JavaScript value is a [value]; numbers are restricted to integers
      (fractions, NaN and infinities are not represented).
    - An object is an association list in insertion order; the rule that
      integer-like keys enumerate first is not represented (no function of
      the module observes enumeration order, apart from serialisation).
    - What the runtime supplies and the repository does not contain (the
      Unicode tables behind [normalize] and [toLowerCase], the [yaml]
      package) is a parameter: the class [Engine].
    - Asynchronous functions touching the file system are computations in a
      state-and-exception monad over a [World]. *)

From Stdlib Require Import ZArith NArith List String Ascii Decimal DecimalPos DecimalN Lia.
From stdpp Require Import base option list gmap.

Local Open Scope list_scope.

(** ** Strings *)

Abbreviation jsstring := (list N) (only parsing).

(** An ASCII literal as a JavaScript string. *)
Definition js (s : string) : jsstring :=
  List.map N_of_ascii (list_ascii_of_string s).

Definition str_eqb (a b : jsstring) : bool := bool_decide (a = b).

Definition in_range (lo hi c : N) : bool := ((lo <=? c) && (c <=? hi))%N.

(** ECMAScript WhiteSpace and LineTerminator code units: the class [\s] of a
    regular expression and the characters removed by [trim]. *)
Definition is_space (c : N) : bool :=
  in_range 9 13 c || (c =? 32)%N || (c =? 160)%N || (c =? 5760)%N
  || in_range 8192 8202 c || (c =? 8232)%N || (c =? 8233)%N
  || (c =? 8239)%N || (c =? 8287)%N || (c =? 12288)%N || (c =? 65279)%N.

(** [\u0300-\u036f] *)
Definition is_combining_mark (c : N) : bool := in_range 768 879 c.

Definition is_lower_alpha (c : N) : bool := in_range 97 122 c.
Definition is_digit (c : N) : bool := in_range 48 57 c.
Definition c_hyphen : N := 45.
Definition c_underscore : N := 95.
Definition c_newline : N := 10.

(** [a-z0-9\s-] *)
Definition is_slug_char (c : N) : bool :=
  is_lower_alpha c || is_digit c || is_space c || (c =? c_hyphen)%N.

(** [\s_] *)
Definition is_space_or_underscore (c : N) : bool :=
  is_space c || (c =? c_underscore)%N.

(** [.replace(/[class]/g, '')] *)
Definition remove_all (p : N -> bool) (s : jsstring) : jsstring :=
  List.filter (fun c => negb (p c)) s.

(** [.replace(/[class]+/g, rep)]: every maximal run becomes one [rep]. *)
Fixpoint collapse_from (p : N -> bool) (rep : N) (in_run : bool) (s : jsstring)
  : jsstring :=
  match s with
  | [] => []
  | c :: t =>
      if p c then
        if in_run then collapse_from p rep true t
        else rep :: collapse_from p rep true t
      else c :: collapse_from p rep false t
  end.

Definition collapse_runs (p : N -> bool) (rep : N) (s : jsstring) : jsstring :=
  collapse_from p rep false s.

Fixpoint drop_spaces (s : jsstring) : jsstring :=
  match s with
  | [] => []
  | c :: t => if is_space c then drop_spaces t else s
  end.

(** [String.prototype.trim] *)
Definition trim (s : jsstring) : jsstring :=
  rev (drop_spaces (rev (drop_spaces s))).

Fixpoint starts_with (pre s : jsstring) : bool :=
  match pre, s with
  | [], _ => true
  | _ :: _, [] => false
  | a :: pre', b :: s' => (a =? b)%N && starts_with pre' s'
  end.

(** [String.prototype.endsWith] *)
Definition ends_with (suf s : jsstring) : bool :=
  starts_with (rev suf) (rev s).

(** ASCII case folding, as the [i] flag does on the letters of a pattern. *)
Definition ascii_lower (c : N) : N :=
  if in_range 65 90 c then (c + 32)%N else c.

(** Decimal rendering of a natural number. *)
Fixpoint uint_digits (d : Decimal.uint) : jsstring :=
  match d with
  | Nil => []
  | D0 d => 48%N :: uint_digits d
  | D1 d => 49%N :: uint_digits d
  | D2 d => 50%N :: uint_digits d
  | D3 d => 51%N :: uint_digits d
  | D4 d => 52%N :: uint_digits d
  | D5 d => 53%N :: uint_digits d
  | D6 d => 54%N :: uint_digits d
  | D7 d => 55%N :: uint_digits d
  | D8 d => 56%N :: uint_digits d
  | D9 d => 57%N :: uint_digits d
  end.

Definition dec_N (n : N) : jsstring := uint_digits (N.to_uint n).

(** [String(n)], and the number as [JSON.stringify] writes it, for an
    integer Number [n] of magnitude up to 2^53. Beyond that JavaScript
    rounds to the nearest double and, from 10^21 on, writes an exponent;
    such numbers are outside what [VNum] is used for here. *)
Definition dec_Z (n : Z) : jsstring :=
  match n with
  | Zneg p => c_hyphen :: dec_N (Npos p)
  | _ => dec_N (Z.to_N n)
  end.

(** [String.prototype.slice(1, -1)] on a string of length two or more. *)
Definition strip_ends (s : jsstring) : jsstring := removelast (tl s).

(** [sep]-separated concatenation, as [Array.prototype.join]. *)
Fixpoint join (sep : jsstring) (parts : list jsstring) : jsstring :=
  match parts with
  | [] => []
  | [x] => x
  | x :: rest => x ++ sep ++ join sep rest
  end.

(** [String.prototype.split] on a one-character separator. *)
Fixpoint split_on (sep : N) (s : jsstring) : list jsstring :=
  match s with
  | [] => [[]]
  | c :: t =>
      if (c =? sep)%N then [] :: split_on sep t
      else match split_on sep t with
           | [] => [[c]]
           | cur :: rest => (c :: cur) :: rest
           end
  end.

(** ** Values *)

#[local] Set Warnings "-register-all".

Inductive value : Type :=
| VUndef
| VNull
| VBool (b : bool)
| VNum (n : Z)
| VStr (s : jsstring)
| VArr (items : list value)
| VObj (props : list (jsstring * value)).

(** ToBoolean *)
Definition truthy (v : value) : bool :=
  match v with
  | VUndef | VNull => false
  | VBool b => b
  | VNum n => negb (n =? 0)%Z
  | VStr s => match s with [] => false | _ => true end
  | VArr _ | VObj _ => true
  end.

Fixpoint assoc_get (k : jsstring) (props : list (jsstring * value)) : option value :=
  match props with
  | [] => None
  | (k', v) :: rest => if str_eqb k' k then Some v else assoc_get k rest
  end.

(** [o[k] = v]: an existing key keeps its place, a new key goes last. *)
Fixpoint obj_set (k : jsstring) (v : value) (props : list (jsstring * value))
  : list (jsstring * value) :=
  match props with
  | [] => [(k, v)]
  | (k', v') :: rest =>
      if str_eqb k' k then (k', v) :: rest else (k', v') :: obj_set k v rest
  end.

Definition obj_remove (k : jsstring) (props : list (jsstring * value))
  : list (jsstring * value) :=
  List.filter (fun kv => negb (str_eqb (fst kv) k)) props.

(** [v.k] for the keys this module reads ([slug], [name], [uuid], [__file],
    [error]), none of which lives on a built-in prototype; only applied to
    truthy values, so the access itself never throws. *)
Definition get_prop (v : value) (k : jsstring) : value :=
  match v with
  | VObj props => default VUndef (assoc_get k props)
  | _ => VUndef
  end.

Definition indexed (vs : list value) : list (jsstring * value) :=
  List.map (fun iv => (dec_N (N.of_nat (fst iv)), snd iv))
           (List.combine (seq 0 (length vs)) vs).

(** Own enumerable properties copied by a spread [...v]. *)
Definition spread_props (v : value) : list (jsstring * value) :=
  match v with
  | VObj props => props
  | VArr items => indexed items
  | VStr s => indexed (List.map (fun c => VStr [c]) s)
  | _ => []
  end.

Definition assign_all (src dst : list (jsstring * value)) : list (jsstring * value) :=
  fold_left (fun acc kv => obj_set (fst kv) (snd kv) acc) src dst.

(** ** Completions *)

Inductive errno : Type := ENOENT | EISDIR | ENOTDIR | EACCES | EEXIST.

Inductive exn : Type :=
| TypeError
| FsError (code : errno)
| LibraryError.

Inductive completion (A : Type) : Type :=
| Return (a : A)
| Throw (e : exn).
Arguments Return {A} a.
Arguments Throw {A} e.

Definition cbind {A B} (c : completion A) (k : A -> completion B) : completion B :=
  match c with
  | Return a => k a
  | Throw e => Throw e
  end.

Definition ccatch {A} (c : completion A) (h : exn -> completion A) : completion A :=
  match c with
  | Return a => Return a
  | Throw e => h e
  end.

(** ** The runtime *)

Record YamlModule : Type := {
  yaml_parse : option (jsstring -> completion value);
  yaml_stringify : option (value -> completion value)
}.

(** What the JavaScript runtime provides.
    - [str_normalize_NFKD]: [String.prototype.normalize] applied with
      ['NFKD'], [None] when the runtime has no such method (the call then
      raises a TypeError);
    - [str_toLowerCase]: [String.prototype.toLowerCase];
    - [yaml_import]: the outcome of [import('yaml').catch(() => null)]. *)
Class Engine : Type := {
  str_normalize_NFKD : option (jsstring -> jsstring);
  str_toLowerCase : jsstring -> jsstring;
  yaml_import : option YamlModule
}.

Section Slug.
Context {E : Engine}.

(** The body of the [try] block of [slugifyName]. *)
Definition slug_primary (input : value) : completion jsstring :=
  match input with
  | VStr s =>
      match str_normalize_NFKD with
      | Some nfkd =>
          let withNoDiacritics := remove_all is_combining_mark (nfkd s) in
          Return
            (collapse_runs (fun c => (c =? c_hyphen)%N) c_hyphen
               (collapse_runs is_space_or_underscore c_hyphen
                  (remove_all (fun c => negb (is_slug_char c))
                     (trim (str_toLowerCase withNoDiacritics)))))
      | None => Throw TypeError
      end
  | _ => Throw TypeError
  end.

(** The body of the [catch] block of [slugifyName]. *)
Definition slug_fallback (input : value) : completion jsstring :=
  match input with
  | VStr s =>
      Return
        (collapse_runs (fun c => (c =? c_hyphen)%N) c_hyphen
           (collapse_runs is_space_or_underscore c_hyphen (str_toLowerCase s)))
  | _ => Throw TypeError
  end.

Definition slugifyName (input : value) : completion value :=
  if negb (truthy input) then Return VNull
  else
    cbind (ccatch (slug_primary input) (fun _ => slug_fallback input))
          (fun s => Return (VStr s)).

End Slug.

(** ** String coercion *)

(** [String(v)]. An array is joined with commas, [null] and [undefined]
    elements rendering as the empty string. A plain object renders as
    [[object Object]], unless an own data property shadows [toString]: the
    conversion then finds no callable method that yields a primitive and
    raises a TypeError. *)
Fixpoint to_String (v : value) : completion jsstring :=
  match v with
  | VUndef => Return (js "undefined")
  | VNull => Return (js "null")
  | VBool b => Return (if b then js "true" else js "false")
  | VNum n => Return (dec_Z n)
  | VStr s => Return s
  | VArr items =>
      (fix join_items (l : list value) (first : bool) : completion jsstring :=
         match l with
         | [] => Return []
         | x :: rest =>
             cbind (match x with
                    | VUndef | VNull => Return []
                    | _ => to_String x
                    end)
               (fun sx =>
                  cbind (join_items rest false)
                    (fun sr => Return ((if first then [] else js ",") ++ sx ++ sr)))
         end) items true
  | VObj props =>
      match assoc_get (js "toString") props with
      | Some _ => Throw TypeError
      | None => Return (js "[object Object]")
      end
  end.

(** [a === id] for a string [id]: only a string of the same code units. *)
Definition strict_eq_str (a : value) (id : jsstring) : bool :=
  match a with
  | VStr s => str_eqb s id
  | _ => false
  end.

(** ** Document codec *)

(** [content.split(/\r?\n/)] *)
Definition drop_trailing_cr (line : jsstring) : jsstring :=
  match rev line with
  | 13%N :: r => rev r
  | _ => line
  end.

Definition split_lines (content : jsstring) : list jsstring :=
  let parts := split_on c_newline content in
  match rev parts with
  | [] => []
  | lastp :: before => rev (lastp :: List.map drop_trailing_cr before)
  end.

(** [String.prototype.indexOf(':')], as the prefix before the first colon
    and the suffix after it. *)
Fixpoint cut_at_colon (s : jsstring) : option (jsstring * jsstring) :=
  match s with
  | [] => None
  | c :: t =>
      if (c =? 58)%N then Some ([], t)
      else match cut_at_colon t with
           | Some (k, v) => Some (c :: k, v)
           | None => None
           end
  end.

Definition is_quote (c : N) : bool := (c =? 39)%N || (c =? 34)%N.

Definition is_line_terminator (c : N) : bool :=
  (c =? 10)%N || (c =? 13)%N || (c =? 8232)%N || (c =? 8233)%N.

(** [/^['"].*['"]$/.test(value)] *)
Definition is_quoted (s : jsstring) : bool :=
  match s with
  | q1 :: t =>
      match rev t with
      | q2 :: mid =>
          is_quote q1 && is_quote q2 && forallb (fun c => negb (is_line_terminator c)) mid
      | [] => false
      end
  | [] => false
  end.

(** [obj[key] = value] on the object the degraded parser builds, which
    starts as [{}]. The state is the object's own properties together with
    a flag telling that its prototype has been set to [null]. While the
    prototype is [Object.prototype], assigning to [__proto__] reaches the
    inherited setter: [null] replaces the prototype, a string is ignored,
    and no own property arises. Once the prototype is [null] no setter is
    inherited and [__proto__] is assigned like any other key. *)
Definition assign_key (key : jsstring) (val : value)
  (st : bool * list (jsstring * value)) : bool * list (jsstring * value) :=
  let '(bare, obj) := st in
  if str_eqb key (js "__proto__") && negb bare then
    match val with
    | VNull => (true, obj)
    | _ => (bare, obj)
    end
  else (bare, obj_set key val obj).

(** One iteration of the loop of the degraded parser. *)
Definition parse_line (st : bool * list (jsstring * value)) (rawLine : jsstring)
  : bool * list (jsstring * value) :=
  let line := trim rawLine in
  match line with
  | [] => st
  | _ =>
      if starts_with (js "#") line then st
      else match cut_at_colon line with
           | None => st
           | Some (k, v) =>
               let key := trim k in
               let raw := trim v in
               let val :=
                 if str_eqb raw (js "null") || str_eqb raw (js "~") then VNull
                 else if is_quoted raw then VStr (strip_ends raw)
                 else VStr raw in
               assign_key key val st
           end
  end.

(** The state of the loop after the last line. *)
Definition parse_state (content : jsstring) : bool * list (jsstring * value) :=
  fold_left parse_line (split_lines content) (false, []).

(** The naive line parser used when the library is unavailable or fails.
    [value] does not record prototypes: the object returned has the
    prototype [null] when the first component of [parse_state] is [true]. *)
Definition parseYaml_fallback (content : jsstring) : value :=
  VObj (snd (parse_state content)).

Section Codec.
Context {E : Engine}.

(** The [try] block of [parseYaml]: [None] when control falls through
    without returning. *)
Definition parseYaml_library (content : jsstring) : option (completion value) :=
  match yaml_import with
  | Some lib =>
      match yaml_parse lib with
      | Some parse => Some (parse content)
      | None => None
      end
  | None => None
  end.

Definition parseYaml (content : jsstring) : value :=
  match parseYaml_library content with
  | Some (Return v) => v
  | Some (Throw _) | None => parseYaml_fallback content
  end.

End Codec.

(** ** JSON rendering, used by the degraded serialiser *)

Definition hex_digit (n : N) : N :=
  if (n <? 10)%N then (48 + n)%N else (87 + n)%N.

(** [\uXXXX] with lower-case hexadecimal digits. *)
Definition unicode_escape (c : N) : jsstring :=
  js "\u" ++ [hex_digit (c / 4096 mod 16); hex_digit (c / 256 mod 16);
              hex_digit (c / 16 mod 16); hex_digit (c mod 16)]%N.

Definition is_high_surrogate (c : N) : bool := in_range 55296 56319 c.
Definition is_low_surrogate (c : N) : bool := in_range 56320 57343 c.

Definition json_escape_unit (c : N) : jsstring :=
  if (c =? 8)%N then js "\b"
  else if (c =? 9)%N then js "\t"
  else if (c =? 10)%N then js "\n"
  else if (c =? 12)%N then js "\f"
  else if (c =? 13)%N then js "\r"
  else if (c =? 34)%N then [92; 34]%N
  else if (c =? 92)%N then [92; 92]%N
  else if (c <? 32)%N then unicode_escape c
  else if is_high_surrogate c || is_low_surrogate c then unicode_escape c
  else [c].

(** The characters between the quotes of QuoteJSONString: a well-formed
    surrogate pair is copied, a lone surrogate is escaped. *)
Fixpoint json_quote_units (s : jsstring) : jsstring :=
  match s with
  | [] => []
  | c :: t =>
      match t with
      | d :: t' =>
          if is_high_surrogate c && is_low_surrogate d
          then c :: d :: json_quote_units t'
          else json_escape_unit c ++ json_quote_units t
      | [] => json_escape_unit c
      end
  end.

Definition json_quote (s : jsstring) : jsstring :=
  [34%N] ++ json_quote_units s ++ [34%N].

Definition json_gap : jsstring := js "  ".

(** The separator between the members of a non-empty array or object. *)
Definition json_sep (indent : jsstring) : jsstring :=
  js "," ++ [c_newline] ++ indent.

Definition json_block (opening closing : N) (stepback : jsstring)
  (partial : list jsstring) : jsstring :=
  match partial with
  | [] => [opening; closing]
  | _ =>
      let indent := stepback ++ json_gap in
      [opening; c_newline] ++ indent ++ join (json_sep indent) partial
        ++ [c_newline] ++ stepback ++ [closing]
  end.

(** SerializeJSONProperty with a gap of two spaces; [None] is [undefined]. *)
Fixpoint json_ser (stepback : jsstring) (v : value) : option jsstring :=
  match v with
  | VUndef => None
  | VNull => Some (js "null")
  | VBool b => Some (if b then js "true" else js "false")
  | VNum n => Some (dec_Z n)
  | VStr s => Some (json_quote s)
  | VArr items =>
      Some (json_block 91 93 stepback
              (List.map (fun x => default (js "null") (json_ser (stepback ++ json_gap) x))
                        items))
  | VObj props =>
      Some (json_block 123 125 stepback
              ((fix members (l : list (jsstring * value)) : list jsstring :=
                  match l with
                  | [] => []
                  | (k, x) :: rest =>
                      match json_ser (stepback ++ json_gap) x with
                      | Some sx => (json_quote k ++ js ": " ++ sx) :: members rest
                      | None => members rest
                      end
                  end) props))
  end.

(** [JSON.stringify(obj, null, 2)] *)
Definition JSON_stringify (obj : value) : option jsstring := json_ser [] obj.

Definition fallback_header : jsstring :=
  js "# NOTE: YAML library unavailable at runtime, writing JSON-like content as a fallback."
  ++ [c_newline].

(** [header + JSON.stringify(obj, null, 2)]: concatenation renders an
    [undefined] result as the word [undefined]. *)
Definition json_fallback (obj : value) : jsstring :=
  fallback_header ++ default (js "undefined") (JSON_stringify obj).

Section Serialiser.
Context {E : Engine}.

(** The value assigned to [result] by the [try]/[catch] of [stringifyYaml]. *)
Definition stringify_result (obj : value) : completion value :=
  ccatch
    (match yaml_import with
     | Some lib =>
         match yaml_stringify lib with
         | Some stringify => stringify obj
         | None => Return (VStr (json_fallback obj))
         end
     | None => Return (VStr (json_fallback obj))
     end)
    (fun _ => Return (VStr (json_fallback obj))).

(** [result.endsWith] exists on strings only. *)
Definition stringifyYaml (obj : value) : completion jsstring :=
  cbind (stringify_result obj)
    (fun result =>
       match result with
       | VStr s =>
           if negb (ends_with [c_newline] s) then Return (s ++ [c_newline])
           else Return s
       | _ => Throw TypeError
       end).

End Serialiser.

(** ** Paths (POSIX) *)

(** An absolute, normalised path: its components below the root. *)
Abbreviation path := (list (list N)) (only parsing).

Definition norm_push (p : path) (seg : jsstring) : path :=
  if str_eqb seg [] || str_eqb seg (js ".") then p
  else if str_eqb seg (js "..") then removelast p
  else p ++ [seg].

(** [path.join(dir, rel)] for an absolute, normalised [dir]. *)
Definition path_join (dir : path) (rel : jsstring) : path :=
  fold_left norm_push (split_on 47 rel) dir.

(** [path.resolve(base, ...segs)] for an absolute [base]: a segment that
    starts with a slash restarts from the root. *)
Definition path_resolve (base : path) (segs : list jsstring) : path :=
  fold_left
    (fun p seg => path_join (if starts_with (js "/") seg then [] else p) seg)
    segs base.

(** The string form of a path, for messages. *)
Definition path_to_string (p : path) : jsstring :=
  js "/" ++ join (js "/") p.

(** ** The world: file system, working directory, console *)

Inductive node : Type :=
| File (readable writable : bool) (content : jsstring)
| Dir (writable : bool) (entries : list jsstring).

Record World : Type := {
  w_fs : gmap (list (list N)) node;
  w_cwd : list (list N);
  w_console : list (list N)
}.

Definition with_fs (f : gmap (list (list N)) node) (w : World) : World :=
  {| w_fs := f; w_cwd := w_cwd w; w_console := w_console w |}.

(** Computations: a result or an exception, and the world afterwards. *)
Definition M (A : Type) : Type := World -> completion A * World.

Definition ret {A} (a : A) : M A := fun w => (Return a, w).
Definition throw {A} (e : exn) : M A := fun w => (Throw e, w).
Definition lift {A} (c : completion A) : M A := fun w => (c, w).

Definition bind {A B} (m : M A) (k : A -> M B) : M B :=
  fun w =>
    match m w with
    | (Return a, w') => k a w'
    | (Throw e, w') => (Throw e, w')
    end.

Definition try_catch {A} (m : M A) (handler : exn -> M A) : M A :=
  fun w =>
    match m w with
    | (Return a, w') => (Return a, w')
    | (Throw e, w') => handler e w'
    end.

Declare Scope m_scope.
Delimit Scope m_scope with M.
Notation "x <- m ;; k" := (bind m (fun x => k))
  (at level 100, m at next level, right associativity) : m_scope.
Notation "m ;;; k" := (bind m (fun _ => k))
  (at level 100, right associativity) : m_scope.
Local Open Scope m_scope.

Definition process_cwd : M (list (list N)) := fun w => (Return (w_cwd w), w).

Definition console_warn (msg : jsstring) : M unit :=
  fun w => (Return tt,
            {| w_fs := w_fs w; w_cwd := w_cwd w; w_console := w_console w ++ [msg] |}).

Definition fs_node (p : path) : M node :=
  fun w =>
    match w_fs w !! p with
    | Some n => (Return n, w)
    | None => (Throw (FsError ENOENT), w)
    end.

(** [(await fs.stat(p)).isDirectory()] *)
Definition fs_stat_isDirectory (p : path) : M bool :=
  n <- fs_node p ;;
  ret (match n with Dir _ _ => true | File _ _ _ => false end).

(** [fs.access(p)] *)
Definition fs_access (p : path) : M unit :=
  fs_node p ;;; ret tt.

(** [fs.readFile(p, 'utf8')] *)
Definition fs_readFile (p : path) : M jsstring :=
  n <- fs_node p ;;
  match n with
  | File true _ content => ret content
  | File false _ _ => throw (FsError EACCES)
  | Dir _ _ => throw (FsError EISDIR)
  end.

(** [fs.readdir(p)] *)
Definition fs_readdir (p : path) : M (list jsstring) :=
  n <- fs_node p ;;
  match n with
  | Dir _ entries => ret entries
  | File _ _ _ => throw (FsError ENOTDIR)
  end.

Definition parent (p : path) : path := removelast p.
Definition basename (p : path) : jsstring := List.last p [].

Definition remove_entry (name : jsstring) (n : node) : node :=
  match n with
  | Dir wr entries => Dir wr (List.filter (fun e => negb (str_eqb e name)) entries)
  | File _ _ _ => n
  end.

Definition add_entry (name : jsstring) (n : node) : node :=
  match n with
  | Dir wr entries => Dir wr (entries ++ [name])
  | File _ _ _ => n
  end.

(** [fs.unlink(p)]: removing a name needs a writable parent directory. *)
Definition fs_unlink (p : path) : M unit :=
  fun w =>
    match w_fs w !! p with
    | None => (Throw (FsError ENOENT), w)
    | Some (Dir _ _) => (Throw (FsError EISDIR), w)
    | Some (File _ _ _) =>
        match w_fs w !! parent p with
        | Some (Dir true _) =>
            (Return tt,
             with_fs (alter (remove_entry (basename p)) (parent p) (delete p (w_fs w))) w)
        | _ => (Throw (FsError EACCES), w)
        end
    end.

(** [fs.writeFile(p, content, 'utf8')]: overwrites a writable file, or
    creates the file in an existing, writable parent directory. *)
Definition fs_writeFile (p : path) (content : jsstring) : M unit :=
  fun w =>
    match w_fs w !! p with
    | Some (File rd true _) =>
        (Return tt, with_fs (<[p := File rd true content]> (w_fs w)) w)
    | Some (File _ false _) => (Throw (FsError EACCES), w)
    | Some (Dir _ _) => (Throw (FsError EISDIR), w)
    | None =>
        match w_fs w !! parent p with
        | Some (Dir true _) =>
            (Return tt,
             with_fs (<[p := File true true content]>
                        (alter (add_entry (basename p)) (parent p) (w_fs w))) w)
        | Some (Dir false _) => (Throw (FsError EACCES), w)
        | Some (File _ _ _) => (Throw (FsError ENOTDIR), w)
        | None => (Throw (FsError ENOENT), w)
        end
    end.

(** One level of [fs.mkdir(p, { recursive: true })]. *)
Definition mkdir_one (p : path) : M unit :=
  fun w =>
    match w_fs w !! p with
    | Some (Dir _ _) => (Return tt, w)
    | Some (File _ _ _) => (Throw (FsError EEXIST), w)
    | None =>
        match p, w_fs w !! parent p with
        | [], _ => (Return tt, with_fs (<[p := Dir true []]> (w_fs w)) w)
        | _, Some (Dir true _) =>
            (Return tt,
             with_fs (<[p := Dir true []]>
                        (alter (add_entry (basename p)) (parent p) (w_fs w))) w)
        | _, Some (Dir false _) => (Throw (FsError EACCES), w)
        | _, Some (File _ _ _) => (Throw (FsError ENOTDIR), w)
        | _, None => (Throw (FsError ENOENT), w)
        end
    end.

(** The prefixes of a path, shortest first, the path itself last. *)
Fixpoint prefixes (p : path) : list (list (list N)) :=
  match p with
  | [] => [[]]
  | seg :: rest => [] :: List.map (cons seg) (prefixes rest)
  end.

(** [fs.mkdir(p, { recursive: true })] *)
Definition fs_mkdir_recursive (p : path) : M unit :=
  fold_right (fun q k => mkdir_one q ;;; k) (ret tt) (prefixes p).

(** ** File names *)

(** [/\.ya?ml$/i.test(f)] *)
Definition has_yaml_ext (f : jsstring) : bool :=
  let lf := List.map ascii_lower f in
  ends_with (js ".yaml") lf || ends_with (js ".yml") lf.

(** [f.replace(/\.(ya?ml)$/i, '')] *)
Definition strip_yaml_ext (f : jsstring) : jsstring :=
  let lf := List.map ascii_lower f in
  if ends_with (js ".yaml") lf then firstn (length f - 5) f
  else if ends_with (js ".yml") lf then firstn (length f - 4) f
  else f.

(** ** Result descriptors *)

(** [{ error: msg, status: code }] *)
Definition api_error (msg : jsstring) (code : Z) : value :=
  VObj [(js "error", VStr msg); (js "status", VNum code)].

(** [{ ok: true }] *)
Definition api_ok : value := VObj [(js "ok", VBool true)].

(** [{ __file: file, ...parsed }] *)
Definition with_source_file (file : jsstring) (parsed : value) : value :=
  VObj (assign_all (spread_props parsed) [(js "__file", VStr file)]).

(** [const { __file, ...rest } = m] *)
Definition without_source_file (m : value) : value :=
  VObj (obj_remove (js "__file") (spread_props m)).

(** [{ ...f, brand: { slug: brandId } }] *)
Definition with_brand (brandId : jsstring) (f : value) : value :=
  VObj (obj_set (js "brand") (VObj [(js "slug", VStr brandId)]) (spread_props f)).

(** [path.join(dir, v)] for an untyped [v]: anything but a string is
    rejected with a TypeError. *)
Definition path_join_value (dir : path) (v : value) : completion (list (list N)) :=
  match v with
  | VStr s => Return (path_join dir s)
  | _ => Throw TypeError
  end.

(** [entity.slice(0, -1)] *)
Definition drop_last_char (s : jsstring) : jsstring := removelast s.

Record ReadOptions : Type := {
  fileFilter : option (list N -> bool);
  validate : option (value -> bool)
}.

Definition no_options : ReadOptions := {| fileFilter := None; validate := None |}.

Definition NEW_ENUMS : list (list N) :=
  [js "material_certifications"; js "material_tags"; js "material_types";
   js "material_tag_categories"; js "material_photo_types";
   js "brand_link_pattern_types"; js "countries"].

(** ** The module's functions *)

Section Store.
Context {E : Engine}.

(** The probing loop shared by [findDataDir] and [findEntityDir]. *)
Fixpoint first_directory (candidates : list (list (list N))) : M (option (list (list N))) :=
  match candidates with
  | [] => ret None
  | p :: rest =>
      hit <- try_catch (isDir <- fs_stat_isDirectory p ;; ret isDir)
                       (fun _ => ret false) ;;
      if hit then ret (Some p) else first_directory rest
  end.

Definition findDataDir : M (option (list (list N))) :=
  cwd <- process_cwd ;;
  first_directory [path_resolve cwd [js "data"]; path_resolve cwd [js ".."; js "data"]].

Definition findEntityDir (entity : jsstring) (createIfMissing : bool)
  : M (option (list (list N))) :=
  cwd <- process_cwd ;;
  found <- first_directory
             [path_resolve cwd [js "data"; entity];
              path_resolve cwd [js ".."; js "data"; entity];
              path_resolve cwd [js "openprinttag"; entity];
              path_resolve cwd [js ".."; js "openprinttag"; entity]] ;;
  match found with
  | Some p => ret (Some p)
  | None =>
      if createIfMissing then
        dataDir <- findDataDir ;;
        match dataDir with
        | Some d =>
            let newDir := path_join d entity in
            fs_mkdir_recursive newDir ;;; ret (Some newDir)
        | None => ret None
        end
      else ret None
  end.

(** The body of the [for] loop of [getEntityFiles], over the files that
    passed the name filter. *)
Fixpoint load_files (dir : path) (opts : ReadOptions) (files : list (list N))
  (results : list value) : M (list value) :=
  match files with
  | [] => ret results
  | file :: rest =>
      results' <-
        try_catch
          (content <- fs_readFile (path_join dir file) ;;
           let parsed := parseYaml content in
           match validate opts with
           | Some ok => if negb (ok parsed) then ret results
                        else ret (results ++ [with_source_file file parsed])
           | None => ret (results ++ [with_source_file file parsed])
           end)
          (fun _ =>
             console_warn (js "Failed to parse file " ++ file ++ js " in "
                             ++ path_to_string dir ++ js ":") ;;;
             ret results) ;;
      load_files dir opts rest results'
  end.

Definition getEntityFiles (dir : path) (opts : ReadOptions) : M (list value) :=
  try_catch
    (fileNames <- fs_readdir dir ;;
     let yamlFiles :=
       List.filter
         (fun f => has_yaml_ext f
                   && match fileFilter opts with Some keep => keep f | None => true end)
         fileNames in
     load_files dir opts yamlFiles [])
    (fun _ => ret []).

(** [id] is [None] for a [null] or [undefined] identifier, which the guard
    of the function admits although its signature says [string]. *)
Definition matchesId (entity : value) (id : option (list N)) : completion bool :=
  match id with
  | None | Some [] => Return false
  | Some id =>
      if negb (truthy entity) then Return false
      else
        let fileStem :=
          match get_prop entity (js "__file") with
          | VStr f => VStr (strip_yaml_ext f)
          | _ => VUndef
          end in
        cbind (slugifyName (get_prop entity (js "name")))
          (fun nameSlug =>
             if strict_eq_str (get_prop entity (js "slug")) id then Return true
             else if strict_eq_str fileStem id then Return true
             else if strict_eq_str nameSlug id then Return true
             else cbind (to_String (get_prop entity (js "uuid")))
                    (fun u => Return (str_eqb u id)))
  end.

(** [docs.find((e) => matchesId(e, id))] *)
Fixpoint find_match (docs : list value) (id : jsstring) : completion (option value) :=
  match docs with
  | [] => Return None
  | d :: rest =>
      cbind (matchesId d (Some id))
        (fun hit => if hit then Return (Some d) else find_match rest id)
  end.

Definition findEntityFile (dir : path) (id : jsstring)
  : M (option (list (list N) * list N)) :=
  (fix probe (exts : list (list N)) : M (option (list (list N) * list N)) :=
     match exts with
     | [] => ret None
     | ext :: rest =>
         let fullPath := path_join dir (id ++ ext) in
         found <- try_catch (fs_access fullPath ;;; ret true) (fun _ => ret false) ;;
         if found then ret (Some (fullPath, ext)) else probe rest
     end) [js ".yaml"; js ".yml"].

Definition readAllEntities (entity : jsstring) (opts : ReadOptions) : M value :=
  dir <- findEntityDir entity false ;;
  match dir with
  | None => ret (api_error (entity ++ js " directory not found") 500)
  | Some dir => files <- getEntityFiles dir opts ;; ret (VArr files)
  end.

(** The direct-file attempt shared by the two single-record readers:
    [None] when there is no such file or reading it raised. *)
Definition read_direct (dir : path) (id : jsstring) : M (option value) :=
  file <- findEntityFile dir id ;;
  match file with
  | Some (fp, _) =>
      try_catch (content <- fs_readFile fp ;; ret (Some (parseYaml content)))
                (fun _ => ret None)
  | None => ret None
  end.

Definition readSingleEntity (entity : jsstring) (id : jsstring) : M value :=
  dir <- findEntityDir entity false ;;
  match dir with
  | None => ret (api_error (entity ++ js " directory not found") 500)
  | Some dir =>
      direct <- read_direct dir id ;;
      match direct with
      | Some parsed => ret parsed
      | None =>
          all <- getEntityFiles dir no_options ;;
          found <- lift (find_match all id) ;;
          match found with
          | None => ret (api_error (drop_last_char entity ++ js " not found") 404)
          | Some m => ret (without_source_file m)
          end
      end
  end.

(** ['error' in brand]: the operator rejects a primitive right operand. *)
Definition has_error_key (brand : value) : completion bool :=
  match brand with
  | VObj props => Return (bool_decide (is_Some (assoc_get (js "error") props)))
  | VArr _ => Return false
  | _ => Throw TypeError
  end.

Definition findBrandDir (brandId : jsstring) (entityDirName : jsstring)
  (createIfMissing : bool) : M (option (list (list N))) :=
  root <- findEntityDir entityDirName createIfMissing ;;
  match root with
  | None => ret None
  | Some root =>
      let p := path_join root brandId in
      direct <- try_catch (fs_stat_isDirectory p) (fun _ => ret false) ;;
      if direct then ret (Some p)
      else
        brand <- readSingleEntity (js "brands") brandId ;;
        usable <- (if truthy brand
                   then isErr <- lift (has_error_key brand) ;; ret (negb isErr)
                   else ret false) ;;
        viaSlug <-
          (if usable then
             slug <- (if truthy (get_prop brand (js "slug"))
                      then ret (get_prop brand (js "slug"))
                      else lift (slugifyName (get_prop brand (js "name")))) ;;
             if truthy slug then
               slugPath <- lift (path_join_value root slug) ;;
               hit <- try_catch (fs_stat_isDirectory slugPath) (fun _ => ret false) ;;
               if hit then ret (Some slugPath)
               else if createIfMissing
                    then fs_mkdir_recursive slugPath ;;; ret (Some slugPath)
                    else ret None
             else ret None
           else ret None) ;;
        match viaSlug with
        | Some d => ret (Some d)
        | None =>
            if createIfMissing then fs_mkdir_recursive p ;;; ret (Some p)
            else ret None
        end
  end.

Definition findBrandDirForNestedEntity (entityDirName brandId : jsstring)
  (createIfMissing : bool) : M (option (list (list N))) :=
  findBrandDir brandId entityDirName createIfMissing.

Definition brand_not_found (entityDirName brandId : jsstring) : value :=
  api_error (entityDirName ++ js " for brand '" ++ brandId ++ js "' not found") 404.

Definition readNestedEntitiesByBrand (entityDirName brandId : jsstring)
  (opts : ReadOptions) : M value :=
  dir <- findBrandDirForNestedEntity entityDirName brandId false ;;
  match dir with
  | None => ret (brand_not_found entityDirName brandId)
  | Some dir =>
      files <- getEntityFiles dir opts ;;
      ret (VArr (List.map (with_brand brandId) files))
  end.

(** The loop of [readAllNestedAcrossBrands] over the entries of the root. *)
Fixpoint read_brand_dirs (root : path) (opts : ReadOptions) (entries : list (list N))
  (results : list value) : M (list value) :=
  match entries with
  | [] => ret results
  | entry :: rest =>
      let dir := path_join root entry in
      isDir <- try_catch (fs_stat_isDirectory dir) (fun _ => ret false) ;;
      if isDir then
        items <- getEntityFiles dir opts ;;
        read_brand_dirs root opts rest (results ++ List.map (with_brand entry) items)
      else read_brand_dirs root opts rest results
  end.

Definition readAllNestedAcrossBrands (entityDirName : jsstring) (opts : ReadOptions)
  : M value :=
  root <- findEntityDir entityDirName false ;;
  match root with
  | None => ret (api_error (entityDirName ++ js " directory not found") 500)
  | Some root =>
      try_catch
        (entries <- fs_readdir root ;;
         results <- read_brand_dirs root opts entries [] ;;
         ret (VArr results))
        (fun _ => ret (api_error (js "Failed to read " ++ entityDirName) 500))
  end.

Definition readMaterialsByBrand (brandId : jsstring) (opts : ReadOptions) : M value :=
  readNestedEntitiesByBrand (js "materials") brandId opts.

Definition readAllMaterialsAcrossBrands (opts : ReadOptions) : M value :=
  readAllNestedAcrossBrands (js "materials") opts.

Definition readSingleNestedByBrand (entityDirName brandId id : jsstring) : M value :=
  dir <- findBrandDirForNestedEntity entityDirName brandId false ;;
  match dir with
  | None => ret (brand_not_found entityDirName brandId)
  | Some dir =>
      direct <- read_direct dir id ;;
      match direct with
      | Some parsed => ret (with_brand brandId parsed)
      | None =>
          all <- getEntityFiles dir no_options ;;
          found <- lift (find_match all id) ;;
          match found with
          | None => ret (api_error (js "entity not found") 404)
          | Some m => ret (with_brand brandId (without_source_file m))
          end
      end
  end.

(** The body of both [try] blocks of [updateEntityFile]. *)
Definition apply_update (target : path) (newValue : value) : M unit :=
  match newValue with
  | VNull => fs_unlink target
  | _ => yamlStr <- lift (stringifyYaml newValue) ;; fs_writeFile target yamlStr
  end.

Definition updateEntityFile (dir : path) (id : jsstring) (newValue : value) : M value :=
  file <- findEntityFile dir id ;;
  done_directly <-
    match file with
    | Some (fp, _) =>
        try_catch (apply_update fp newValue ;;; ret true) (fun _ => ret false)
    | None => ret false
    end ;;
  if done_directly then ret api_ok
  else
    files <- getEntityFiles dir no_options ;;
    found <- lift (find_match files id) ;;
    match found with
    | None => ret (api_error (js "item not found") 404)
    | Some m =>
        fullPath <- lift (path_join_value dir (get_prop m (js "__file"))) ;;
        try_catch (apply_update fullPath newValue ;;; ret api_ok)
                  (fun _ => ret (api_error (js "Failed to update file") 500))
    end.

Definition writeSingleEntity (entityDirName id : jsstring) (newValue : value) : M value :=
  dir <- findEntityDir entityDirName false ;;
  match dir with
  | None => ret (api_error (entityDirName ++ js " directory not found") 500)
  | Some dir => updateEntityFile dir id newValue
  end.

Definition deleteSingleEntity (entityDirName id : jsstring) : M value :=
  dir <- findEntityDir entityDirName false ;;
  match dir with
  | None => ret (api_error (entityDirName ++ js " directory not found") 500)
  | Some dir => updateEntityFile dir id VNull
  end.

Definition writeNestedByBrand (entityDirName brandId id : jsstring) (newValue : value)
  : M value :=
  dir <- findBrandDirForNestedEntity entityDirName brandId false ;;
  match dir with
  | None => ret (api_error (entityDirName ++ js " brand directory not found") 500)
  | Some dir => updateEntityFile dir id newValue
  end.

Definition deleteNestedByBrand (entityDirName brandId id : jsstring) : M value :=
  dir <- findBrandDirForNestedEntity entityDirName brandId false ;;
  match dir with
  | None => ret (api_error (entityDirName ++ js " brand directory not found") 500)
  | Some dir => updateEntityFile dir id VNull
  end.

(** The [try] block shared by the two counters. *)
Definition count_yaml_files (dir : path) : M nat :=
  try_catch
    (files <- fs_readdir dir ;;
     ret (length (List.filter has_yaml_ext files)))
    (fun _ => ret 0).

Definition countEntities (entity : jsstring) : M nat :=
  dir <- findEntityDir entity false ;;
  match dir with
  | None => ret 0
  | Some dir => count_yaml_files dir
  end.

Definition countNestedEntitiesByBrand (entityDirName brandId : jsstring) : M nat :=
  dir <- findBrandDirForNestedEntity entityDirName brandId false ;;
  match dir with
  | None => ret 0
  | Some dir => count_yaml_files dir
  end.

Definition lookup_not_found : value := api_error (js "Lookup table not found") 404.

Definition lookup_invalid : value :=
  api_error (js "Invalid lookup table file (expected array)") 500.

(** [{ items: data, meta: { key: 'items' } }] *)
Definition lookup_items (data : value) : value :=
  VObj [(js "items", data); (js "meta", VObj [(js "key", VStr (js "items"))])].

Definition lookup_path (cwd : path) (tableName : jsstring) : path :=
  path_join (path_join cwd (js "../openprinttag/data")) (tableName ++ js ".yaml").

Definition readLookupTable (tableName : jsstring) : M value :=
  if bool_decide (tableName ∈ NEW_ENUMS) then
    cwd <- process_cwd ;;
    try_catch
      (content <- fs_readFile (lookup_path cwd tableName) ;;
       let data := parseYaml content in
       match data with
       | VArr _ => ret (lookup_items data)
       | _ => ret lookup_invalid
       end)
      (fun _ => ret lookup_not_found)
  else ret lookup_not_found.

End Store.

(** ** The material-creation route

    From the handler of [POST /api/brands/$brandId/materials/new]: the
    inline brand lookup and the choice of a slug no existing material
    uses. *)

(** SameValueZero, the equality of [Set.prototype.has]. Objects and arrays
    are compared by identity; a value parsed from one document is never the
    object held by another, so they compare unequal. *)
Definition same_value_zero (a b : value) : bool :=
  match a, b with
  | VUndef, VUndef | VNull, VNull => true
  | VBool x, VBool y => Bool.eqb x y
  | VNum x, VNum y => (x =? y)%Z
  | VStr x, VStr y => str_eqb x y
  | _, _ => false
  end.

(** [existingSlugs.has(v)], the set being given by its elements. *)
Definition set_has (elements : list value) (v : value) : bool :=
  existsb (same_value_zero v) elements.

(** The elements of [existingSlugs]: the truthy [slug] of every material,
    when the read returned an array. *)
Definition collect_slugs (allMaterials : value) : list value :=
  match allMaterials with
  | VArr materials =>
      List.filter truthy (List.map (fun m => get_prop m (js "slug")) materials)
  | _ => []
  end.

(** [`${baseSlug}-${counter}`] *)
Definition numbered_slug (base : jsstring) (counter : N) : list N :=
  base ++ js "-" ++ dec_N counter.

(** The [while] loop; [None] when the fuel runs out. The template literal
    converts [baseSlug] to a string, which may raise. *)
Fixpoint unique_slug_loop (fuel : nat) (existing : list value) (baseSlug slug : value)
  (counter : N) : option (completion value) :=
  match fuel with
  | O => None
  | S fuel' =>
      if set_has existing slug then
        match to_String baseSlug with
        | Return base =>
            unique_slug_loop fuel' existing baseSlug
              (VStr (numbered_slug base counter)) (counter + 1)
        | Throw e => Some (Throw e)
        end
      else Some (Return slug)
  end.

(** [let slug = baseSlug; let counter = 2; while (...) {...}] *)
Definition unique_slug (existing : list value) (baseSlug : value)
  : option (completion value) :=
  unique_slug_loop (length existing + 2) existing baseSlug baseSlug 2.

Section MaterialRoute.
Context {E : Engine}.

(** The predicate given to [brands.find]. *)
Definition route_brand_matches (b : value) (brandId : jsstring) : completion bool :=
  let fileStem :=
    match get_prop b (js "__file") with
    | VStr f => VStr (strip_yaml_ext f)
    | _ => VUndef
    end in
  cbind (slugifyName (get_prop b (js "name")))
    (fun nameSlug =>
       Return (strict_eq_str (get_prop b (js "uuid")) brandId
               || strict_eq_str (get_prop b (js "slug")) brandId
               || strict_eq_str fileStem brandId
               || strict_eq_str nameSlug brandId)).

End MaterialRoute.

(** ** Sample runtimes and worlds, for the examples *)

Module Sample.

(** Decompositions of the Latin-1 Supplement (U+00A0 to U+00FF), from the
    Unicode character database. *)
Definition latin1_decompositions : list (N * list N) :=
  [(160, [32]); (168, [32; 776]); (170, [97]); (175, [32; 772]); (178, [50]);
   (179, [51]); (180, [32; 769]); (181, [956]); (184, [32; 807]); (185, [49]);
   (186, [111]); (188, [49; 8260; 52]); (189, [49; 8260; 50]); (190, [51; 8260; 52]);
   (192, [65; 768]); (193, [65; 769]); (194, [65; 770]); (195, [65; 771]);
   (196, [65; 776]); (197, [65; 778]); (199, [67; 807]); (200, [69; 768]);
   (201, [69; 769]); (202, [69; 770]); (203, [69; 776]); (204, [73; 768]);
   (205, [73; 769]); (206, [73; 770]); (207, [73; 776]); (209, [78; 771]);
   (210, [79; 768]); (211, [79; 769]); (212, [79; 770]); (213, [79; 771]);
   (214, [79; 776]); (217, [85; 768]); (218, [85; 769]); (219, [85; 770]);
   (220, [85; 776]); (221, [89; 769]); (224, [97; 768]); (225, [97; 769]);
   (226, [97; 770]); (227, [97; 771]); (228, [97; 776]); (229, [97; 778]);
   (231, [99; 807]); (232, [101; 768]); (233, [101; 769]); (234, [101; 770]);
   (235, [101; 776]); (236, [105; 768]); (237, [105; 769]); (238, [105; 770]);
   (239, [105; 776]); (241, [110; 771]); (242, [111; 768]); (243, [111; 769]);
   (244, [111; 770]); (245, [111; 771]); (246, [111; 776]); (249, [117; 768]);
   (250, [117; 769]); (251, [117; 770]); (252, [117; 776]); (253, [121; 769]);
   (255, [121; 776])]%N.

Definition decompose_unit (c : N) : list N :=
  match List.find (fun e => (fst e =? c)%N) latin1_decompositions with
  | Some e => snd e
  | None => [c]
  end.

(** NFKD for strings of code units below U+0100 (each unit decomposes on its
    own and no reordering arises there). Other code units are left alone,
    which is not Unicode's answer in general: this runtime is for examples
    over Latin-1 text only. *)
Definition nfkd_latin1 (s : jsstring) : jsstring := flat_map decompose_unit s.

(** Lower-casing of Basic Latin and the Latin-1 Supplement. *)
Definition lower_latin1_unit (c : N) : N :=
  if in_range 65 90 c then (c + 32)%N
  else if in_range 192 222 c && negb (c =? 215)%N then (c + 32)%N
  else c.

Definition lower_latin1 (s : jsstring) : jsstring := List.map lower_latin1_unit s.

(** A runtime without the [yaml] package: the degraded codec is in use. *)
Definition degraded : Engine := {|
  str_normalize_NFKD := Some nfkd_latin1;
  str_toLowerCase := lower_latin1;
  yaml_import := None
|}.

(** A runtime without [String.prototype.normalize]. *)
Definition legacy : Engine := {|
  str_normalize_NFKD := None;
  str_toLowerCase := lower_latin1;
  yaml_import := None
|}.

Definition nl : list N := [c_newline].

(** The documents the sample library knows, with the values the [yaml]
    package gives them under its core schema. *)
Definition known_documents : list (list N * value) :=
  [(js "name: 123" ++ nl, VObj [(js "name", VNum 123)]);
   (js "- DE" ++ nl ++ js "- CZ" ++ nl, VArr [VStr (js "DE"); VStr (js "CZ")]);
   (js "name: Prusa" ++ nl ++ js "slug: prusa" ++ nl ++ js "uuid: u-1" ++ nl,
    VObj [(js "name", VStr (js "Prusa")); (js "slug", VStr (js "prusa"));
          (js "uuid", VStr (js "u-1"))]);
   (js "name: PLA" ++ nl, VObj [(js "name", VStr (js "PLA"))])].

(** A stand-in for the [yaml] package. It parses the documents above and
    rejects any other text. It renders [undefined] as [undefined], as the
    package does, and a mapping with one key and one line of plain text:
    text without a final line feed as [key: text], text with one final line
    feed as a literal block scalar [key: |], and text with more final line
    feeds as a block scalar that keeps them, [key: |+], whose rendering ends
    in as many line feeds as the text. Any other value is rejected. *)
Definition sample_yaml : YamlModule := {|
  yaml_parse := Some (fun content =>
    match List.find (fun e => str_eqb (fst e) content) known_documents with
    | Some e => Return (snd e)
    | None => Throw LibraryError
    end);
  yaml_stringify := Some (fun obj =>
    match obj with
    | VUndef => Return VUndef
    | VObj [(k, VStr v)] =>
        if ends_with (nl ++ nl) v
        then Return (VStr (k ++ js ": |+" ++ nl ++ js "  " ++ v))
        else if ends_with nl v
        then Return (VStr (k ++ js ": |" ++ nl ++ js "  " ++ v))
        else Return (VStr (k ++ js ": " ++ v ++ nl))
    | _ => Throw LibraryError
    end)
|}.

Definition full : Engine := {|
  str_normalize_NFKD := Some nfkd_latin1;
  str_toLowerCase := lower_latin1;
  yaml_import := Some sample_yaml
|}.

(** [/srv/ui-editor] is the working directory; the data lives in
    [/srv/data] and the lookup tables in [/srv/openprinttag/data]. *)
Definition srv (rest : list (list N)) : list (list N) := js "srv" :: rest.

Definition tree : list (list (list N) * node) :=
  [([], Dir true [js "srv"]);
   (srv [], Dir true [js "ui-editor"; js "data"; js "openprinttag"]);
   (srv [js "ui-editor"], Dir true []);
   (srv [js "data"], Dir true [js "brands"; js "materials"]);
   (srv [js "data"; js "brands"],
    Dir true [js "prusa.yaml"; js "odd.yaml"; js "locked.yml"; js "real.yaml"]);
   (srv [js "data"; js "brands"; js "prusa.yaml"],
    File true true (js "name: Prusa" ++ nl ++ js "slug: prusa" ++ nl
                      ++ js "uuid: u-1" ++ nl));
   (srv [js "data"; js "brands"; js "odd.yaml"],
    File true true (js "name: Other Name" ++ nl ++ js "slug: not-odd" ++ nl
                      ++ js "uuid: 42" ++ nl));
   (srv [js "data"; js "brands"; js "locked.yml"],
    File false true (js "name: Locked" ++ nl));
   (srv [js "data"; js "brands"; js "real.yaml"],
    File true true (js "__file: ghost.yaml" ++ nl));
   (srv [js "data"; js "materials"], Dir true [js "prusa"; js "stale-dir"; js "README.md"]);
   (srv [js "data"; js "materials"; js "README.md"], File true true (js "notes"));
   (srv [js "data"; js "materials"; js "prusa"], Dir true [js "pla.yaml"]);
   (srv [js "data"; js "materials"; js "prusa"; js "pla.yaml"],
    File true true (js "name: PLA" ++ nl));
   (srv [js "data"; js "materials"; js "stale-dir"], Dir true [js "petg.yml"]);
   (srv [js "data"; js "materials"; js "stale-dir"; js "petg.yml"],
    File true true (js "name: PETG" ++ nl ++ js "brand: someone" ++ nl));
   (srv [js "openprinttag"], Dir true [js "data"]);
   (srv [js "openprinttag"; js "data"], Dir true [js "countries.yaml"; js "material_tags.yaml"]);
   (srv [js "openprinttag"; js "data"; js "countries.yaml"],
    File true true (js "- DE" ++ nl ++ js "- CZ" ++ nl));
   (srv [js "openprinttag"; js "data"; js "material_tags.yaml"],
    File true true (js "name: PLA" ++ nl))].

Definition world : World := {|
  w_fs := list_to_map tree;
  w_cwd := srv [js "ui-editor"];
  w_console := []
|}.

(** The same tree with a brand whose name is written as a number. *)
Definition numbered_tree : list (list (list N) * node) :=
  [([], Dir true [js "srv"]);
   (srv [], Dir true [js "ui-editor"; js "data"]);
   (srv [js "ui-editor"], Dir true []);
   (srv [js "data"], Dir true [js "brands"]);
   (srv [js "data"; js "brands"], Dir true [js "n123.yaml"; js "gone.yaml"]);
   (srv [js "data"; js "brands"; js "n123.yaml"], File true true (js "name: 123" ++ nl));
   (srv [js "data"; js "brands"; js "gone.yaml"], File false true (js "name: Gone" ++ nl))].

Definition numbered_world : World := {|
  w_fs := list_to_map numbered_tree;
  w_cwd := srv [js "ui-editor"];
  w_console := []
|}.

End Sample.

(** ** What the readers compute, as functions of the file system *)

(** The content [fs.readFile] delivers, when it delivers one. *)
Definition read_ok (fs : gmap (list (list N)) node) (p : path) : option (list N) :=
  match fs !! p with
  | Some (File true _ content) => Some content
  | _ => None
  end.

Definition is_dir (fs : gmap (list (list N)) node) (p : path) : bool :=
  match fs !! p with
  | Some (Dir _ _) => true
  | _ => false
  end.

Definition listing (fs : gmap (list (list N)) node) (p : path) : list (list N) :=
  match fs !! p with
  | Some (Dir _ entries) => entries
  | _ => []
  end.

(** Appending console lines leaves the file system alone. *)
Definition log (msgs : list (list N)) (w : World) : World :=
  {| w_fs := w_fs w; w_cwd := w_cwd w; w_console := w_console w ++ msgs |}.

Definition entity_candidates (cwd : path) (entity : jsstring) : list (list (list N)) :=
  [path_resolve cwd [js "data"; entity];
   path_resolve cwd [js ".."; js "data"; entity];
   path_resolve cwd [js "openprinttag"; entity];
   path_resolve cwd [js ".."; js "openprinttag"; entity]].

(** The directory [findEntityDir] settles on when nothing is created. *)
Definition entity_dir (w : World) (entity : jsstring) : option (list (list N)) :=
  List.find (is_dir (w_fs w)) (entity_candidates (w_cwd w) entity).

(** The file [findEntityFile] settles on. *)
Definition probe (fs : gmap (list (list N)) node) (dir : path) (id : jsstring)
  : option (list (list N) * list N) :=
  match fs !! path_join dir (id ++ js ".yaml") with
  | Some _ => Some (path_join dir (id ++ js ".yaml"), js ".yaml")
  | None =>
      match fs !! path_join dir (id ++ js ".yml") with
      | Some _ => Some (path_join dir (id ++ js ".yml"), js ".yml")
      | None => None
      end
  end.

Section Scan.
Context {E : Engine}.

Definition yaml_files (fs : gmap (list (list N)) node) (dir : path) (opts : ReadOptions)
  : list (list N) :=
  List.filter
    (fun f => has_yaml_ext f
              && match fileFilter opts with Some keep => keep f | None => true end)
    (listing fs dir).

(** The document a file contributes to a scan, if any. *)
Definition scan_file (fs : gmap (list (list N)) node) (dir : path) (opts : ReadOptions)
  (file : jsstring) : option value :=
  match read_ok fs (path_join dir file) with
  | Some content =>
      let parsed := parseYaml content in
      match validate opts with
      | Some ok => if ok parsed then Some (with_source_file file parsed) else None
      | None => Some (with_source_file file parsed)
      end
  | None => None
  end.

Definition scan (fs : gmap (list (list N)) node) (dir : path) (opts : ReadOptions)
  : list value :=
  omap (scan_file fs dir opts) (yaml_files fs dir opts).

Definition warning (dir : path) (file : jsstring) : list N :=
  js "Failed to parse file " ++ file ++ js " in " ++ path_to_string dir ++ js ":".

(** The warnings a scan prints: one for each candidate file that cannot be
    read. *)
Definition scan_warnings (fs : gmap (list (list N)) node) (dir : path)
  (files : list (list N)) : list (list N) :=
  List.map (warning dir)
    (List.filter (fun f => bool_decide (read_ok fs (path_join dir f) = None)) files).

End Scan.

(** * Properties *)

(** ** The monad *)

Lemma log_nil w : log [] w = w.
Proof. destruct w; unfold log; simpl; by rewrite app_nil_r. Qed.

Lemma log_log a b w : log b (log a w) = log (a ++ b) w.
Proof. unfold log; simpl; by rewrite app_assoc. Qed.

Lemma bind_run {A B} (m : M A) (k : A -> M B) w a w' :
  m w = (Return a, w') -> bind m k w = k a w'.
Proof. intros H; unfold bind; by rewrite H. Qed.

Lemma bind_throw {A B} (m : M A) (k : A -> M B) w e w' :
  m w = (Throw e, w') -> bind m k w = (Throw e, w').
Proof. intros H; unfold bind; by rewrite H. Qed.

Lemma try_catch_run {A} (m : M A) h w a w' :
  m w = (Return a, w') -> try_catch m h w = (Return a, w').
Proof. intros H; unfold try_catch; by rewrite H. Qed.

(** ** File-system primitives *)

Lemma fs_stat_guarded p w :
  try_catch (fs_stat_isDirectory p) (fun _ => ret false) w = (Return (is_dir (w_fs w) p), w).
Proof.
  unfold try_catch, fs_stat_isDirectory, bind, fs_node, is_dir, ret.
  destruct (w_fs w !! p) as [[? ? ?|? ?]|]; reflexivity.
Qed.

Lemma fs_stat_guarded_eta p w :
  try_catch (isDir <- fs_stat_isDirectory p ;; ret isDir) (fun _ => ret false) w
  = (Return (is_dir (w_fs w) p), w).
Proof.
  unfold try_catch, fs_stat_isDirectory, bind, fs_node, is_dir, ret.
  destruct (w_fs w !! p) as [[? ? ?|? ?]|]; reflexivity.
Qed.

Lemma fs_access_guarded p w :
  try_catch (fs_access p ;;; ret true) (fun _ => ret false) w
  = (Return (bool_decide (is_Some (w_fs w !! p))), w).
Proof.
  unfold try_catch, fs_access, bind, fs_node, ret.
  destruct (w_fs w !! p) as [n|]; reflexivity.
Qed.

Lemma fs_readFile_run p w :
  exists r, fs_readFile p w = (r, w)
            /\ match read_ok (w_fs w) p with
               | Some c => r = Return c
               | None => exists e, r = Throw e
               end.
Proof.
  unfold fs_readFile, bind, fs_node, read_ok, ret, throw.
  destruct (w_fs w !! p) as [[[] ? ?|? ?]|]; eauto.
Qed.

Lemma fs_readdir_run p w :
  exists r, fs_readdir p w = (r, w)
            /\ match w_fs w !! p with
               | Some (Dir _ es) => r = Return es
               | _ => exists e, r = Throw e
               end.
Proof.
  unfold fs_readdir, bind, fs_node, ret, throw.
  destruct (w_fs w !! p) as [[? ? ?|? ?]|]; eauto.
Qed.

(** ** Directory and file resolution *)

Section Resolution.
Context {E : Engine}.

Lemma first_directory_run cands w :
  first_directory cands w = (Return (List.find (is_dir (w_fs w)) cands), w).
Proof.
  induction cands as [|p rest IH]; [reflexivity|].
  cbn [first_directory List.find].
  rewrite (bind_run _ _ _ _ _ (fs_stat_guarded_eta p w)).
  destruct (is_dir (w_fs w) p); [reflexivity | apply IH].
Qed.

(** Without [createIfMissing], resolving a directory only looks. *)
Lemma findEntityDir_run entity w :
  findEntityDir entity false w = (Return (entity_dir w entity), w).
Proof.
  unfold findEntityDir, entity_dir, entity_candidates.
  unfold bind at 1. unfold process_cwd at 1.
  rewrite (bind_run _ _ _ _ _ (first_directory_run _ w)).
  destruct (List.find _ _); reflexivity.
Qed.

Lemma findEntityFile_run dir id w :
  findEntityFile dir id w = (Return (probe (w_fs w) dir id), w).
Proof.
  unfold findEntityFile, probe.
  rewrite (bind_run _ _ _ _ _ (fs_access_guarded _ w)).
  destruct (w_fs w !! path_join dir (id ++ js ".yaml")) as [n|] eqn:Hy.
  - rewrite bool_decide_eq_true_2; [reflexivity | by eexists].
  - rewrite bool_decide_eq_false_2; [| by intros [? ?]].
    rewrite (bind_run _ _ _ _ _ (fs_access_guarded _ w)).
    destruct (w_fs w !! path_join dir (id ++ js ".yml")) as [n|] eqn:Hm.
    + rewrite bool_decide_eq_true_2; [reflexivity | by eexists].
    + rewrite bool_decide_eq_false_2; [reflexivity | by intros [? ?]].
Qed.

(** The parsed content the direct attempt delivers. *)
Definition direct_content (fs : gmap (list (list N)) node) (dir : path) (id : jsstring)
  : option value :=
  match probe fs dir id with
  | Some (fp, _) => parseYaml <$> read_ok fs fp
  | None => None
  end.

Lemma read_direct_run dir id w :
  read_direct dir id w = (Return (direct_content (w_fs w) dir id), w).
Proof.
  unfold read_direct, direct_content.
  rewrite (bind_run _ _ _ _ _ (findEntityFile_run dir id w)).
  destruct (probe (w_fs w) dir id) as [[fp ext]|]; [|reflexivity].
  destruct (fs_readFile_run fp w) as (r & Hr & Hc).
  unfold try_catch, bind. rewrite Hr.
  destruct (read_ok (w_fs w) fp) as [c|].
  - subst r. reflexivity.
  - destruct Hc as [e ->]. reflexivity.
Qed.

Lemma load_files_run dir opts files results w :
  load_files dir opts files results w
  = (Return (results ++ omap (scan_file (w_fs w) dir opts) files),
     log (scan_warnings (w_fs w) dir files) w).
Proof.
  revert results w.
  induction files as [|file rest IH]; intros results w.
  - cbn. by rewrite app_nil_r, log_nil.
  - cbn [load_files].
    destruct (fs_readFile_run (path_join dir file) w) as (r & Hr & Hc).
    unfold bind at 1. unfold try_catch at 1. unfold bind at 1. rewrite Hr.
    unfold scan_warnings. cbn [List.filter omap list_omap].
    unfold scan_file at 1.
    destruct (read_ok (w_fs w) (path_join dir file)) as [c|] eqn:Hok.
    + subst r. rewrite bool_decide_eq_false_2 by done.
      destruct (validate opts) as [ok|].
      * destruct (ok (parseYaml c)); cbn [negb].
        -- unfold ret at 1. rewrite IH.
           fold (scan_warnings (w_fs w) dir rest).
           cbn. by rewrite <- app_assoc.
        -- unfold ret at 1. rewrite IH. reflexivity.
      * unfold ret at 1. rewrite IH.
        fold (scan_warnings (w_fs w) dir rest). cbn. by rewrite <- app_assoc.
    + destruct Hc as [e ->]. rewrite bool_decide_eq_true_2 by done.
      unfold bind at 1. unfold console_warn at 1. unfold ret at 1.
      rewrite IH. cbn [w_fs List.map].
      fold (warning dir file).
      f_equal. unfold log; cbn. by rewrite <- app_assoc.
Qed.

(** A scan always returns; it changes nothing but the console. *)
Lemma getEntityFiles_run dir opts w :
  getEntityFiles dir opts w
  = (Return (scan (w_fs w) dir opts),
     log (scan_warnings (w_fs w) dir (yaml_files (w_fs w) dir opts)) w).
Proof.
  unfold getEntityFiles, scan, yaml_files, listing.
  destruct (fs_readdir_run dir w) as (r & Hr & Hc).
  unfold try_catch, bind. rewrite Hr.
  destruct (w_fs w !! dir) as [[? ? ?|wr es]|].
  - destruct Hc as [e ->]. cbn. by rewrite log_nil.
  - subst r. rewrite load_files_run. reflexivity.
  - destruct Hc as [e ->]. cbn. by rewrite log_nil.
Qed.

End Resolution.

(** ** Slug normaliser *)

(** "Café   Noir_Brand", with U+00E9 for the accented letter. *)
Definition cafe_noir_brand : list N := js "Caf" ++ [233%N] ++ js "   Noir_Brand".

(** Its compatibility decomposition: "e" followed by U+0301. *)
Definition cafe_noir_brand_nfkd : list N := js "Cafe" ++ [769%N] ++ js "   Noir_Brand".

Section SlugFacts.
Context {E : Engine}.

Lemma slugifyName_falsy input :
  truthy input = false -> slugifyName input = Return VNull.
Proof. intros H. unfold slugifyName. by rewrite H. Qed.

(** On a non-empty string the normaliser returns a string, whichever path
    it takes. *)
Lemma slugifyName_string s :
  s <> [] -> exists r, slugifyName (VStr s) = Return (VStr r).
Proof.
  intros Hs. unfold slugifyName, slug_primary, slug_fallback.
  destruct s as [|c t]; [done|]. cbn [truthy negb].
  destruct str_normalize_NFKD; cbn; eauto.
Qed.

(** A truthy input that is not a string has neither [normalize] nor
    [toLowerCase]: the call made in the [catch] block raises in turn. *)
Lemma slugifyName_not_a_string input :
  truthy input = true -> (forall s, input <> VStr s) ->
  slugifyName input = Throw TypeError.
Proof.
  intros Ht Hs. unfold slugifyName. rewrite Ht. cbn [negb].
  destruct input; try reflexivity. by destruct (Hs s).
Qed.

(** C7 (the code at the failing input). On the Unicode-decomposition path
    the underscore of "Café   Noir_Brand" is deleted by the
    punctuation filter before the step that turns underscores into hyphens
    runs: the result is "cafe-noirbrand", not "cafe-noir-brand". *)
Theorem slugifyName_deletes_underscore (nfkd : list N -> list N) :
  str_normalize_NFKD = Some nfkd ->
  nfkd cafe_noir_brand = cafe_noir_brand_nfkd ->
  str_toLowerCase (js "Cafe   Noir_Brand") = js "cafe   noir_brand" ->
  slugifyName (VStr cafe_noir_brand) = Return (VStr (js "cafe-noirbrand"))
  /\ slugifyName (VStr cafe_noir_brand) <> Return (VStr (js "cafe-noir-brand")).
Proof.
  intros Hn Hd Hl.
  assert (Hr : slugifyName (VStr cafe_noir_brand) = Return (VStr (js "cafe-noirbrand"))).
  { unfold slugifyName, slug_primary. cbn [cafe_noir_brand truthy negb js app].
    rewrite Hn. fold cafe_noir_brand. rewrite Hd.
    replace (remove_all is_combining_mark cafe_noir_brand_nfkd)
      with (js "Cafe   Noir_Brand") by reflexivity.
    rewrite Hl. reflexivity. }
  split; [exact Hr|]. rewrite Hr. intros H. discriminate H.
Qed.

(** C10. On the Unicode-decomposition path the non-empty string "!!!"
    normalises to the empty string, not to [null]; so a result need not be
    [null] or a non-empty slug, and normalising that result again gives
    [null], which differs from it. *)
Theorem slugifyName_can_return_empty_string (nfkd : list N -> list N) :
  str_normalize_NFKD = Some nfkd ->
  nfkd (js "!!!") = js "!!!" ->
  str_toLowerCase (js "!!!") = js "!!!" ->
  js "!!!" <> []
  /\ slugifyName (VStr (js "!!!")) = Return (VStr [])
  /\ ~ (forall x : list N,
          slugifyName (VStr x) = Return VNull
          \/ exists s, s <> [] /\ slugifyName (VStr x) = Return (VStr s))
  /\ cbind (slugifyName (VStr (js "!!!"))) slugifyName = Return VNull
  /\ cbind (slugifyName (VStr (js "!!!"))) slugifyName <> slugifyName (VStr (js "!!!")).
Proof.
  intros Hn Hd Hl.
  assert (Hr : slugifyName (VStr (js "!!!")) = Return (VStr [])).
  { unfold slugifyName, slug_primary. cbn [truthy negb js].
    rewrite Hn. cbn [ccatch cbind].
    change (List.map N_of_ascii (list_ascii_of_string "!!!")) with (js "!!!").
    rewrite Hd.
    replace (remove_all is_combining_mark (js "!!!")) with (js "!!!") by reflexivity.
    rewrite Hl. reflexivity. }
  split; [discriminate|]. split; [exact Hr|]. split.
  - intros Hall. destruct (Hall (js "!!!")) as [H|(s & Hs & H)];
      rewrite Hr in H; [discriminate H|]. injection H as <-. by apply Hs.
  - rewrite Hr. cbn [cbind]. split; [reflexivity | discriminate].
Qed.

End SlugFacts.

(** The hypotheses of the two theorems hold of the sample runtime. *)
Lemma slugifyName_deletes_underscore_witness :
  @slugifyName Sample.degraded (VStr cafe_noir_brand) = Return (VStr (js "cafe-noirbrand"))
  /\ @slugifyName Sample.degraded (VStr cafe_noir_brand)
     <> Return (VStr (js "cafe-noir-brand")).
Proof.
  apply (@slugifyName_deletes_underscore Sample.degraded Sample.nfkd_latin1);
    reflexivity.
Defined.

Lemma slugifyName_can_return_empty_string_witness :
  @slugifyName Sample.degraded (VStr (js "!!!")) = Return (VStr [])
  /\ cbind (@slugifyName Sample.degraded (VStr (js "!!!"))) (@slugifyName Sample.degraded)
     = Return VNull.
Proof.
  destruct (@slugifyName_can_return_empty_string Sample.degraded Sample.nfkd_latin1)
    as (_ & H1 & _ & H2 & _); [reflexivity .. |].
  exact (conj H1 H2).
Defined.

(** What the claim about the normaliser gets right: [null], [undefined] and
    the empty string give [null], and a name without punctuation is
    lower-cased and hyphenated. *)
Example slugifyName_null_and_plain :
  @slugifyName Sample.degraded VNull = Return VNull
  /\ @slugifyName Sample.degraded VUndef = Return VNull
  /\ @slugifyName Sample.degraded (VStr []) = Return VNull
  /\ @slugifyName Sample.degraded (VStr (js "Prusament PLA Galaxy Black"))
     = Return (VStr (js "prusament-pla-galaxy-black")).
Proof. repeat split; reflexivity. Qed.

(** Without [normalize] the [catch] block runs: there the underscore does
    become a hyphen, and the accent stays. *)
Example slugifyName_fallback_keeps_underscore_rule :
  @slugifyName Sample.legacy (VStr cafe_noir_brand)
  = Return (VStr (js "caf" ++ [233%N] ++ js "-noir-brand")).
Proof. reflexivity. Qed.

(** ** Entity matcher *)

Lemma str_eqb_eq a b : str_eqb a b = true <-> a = b.
Proof. unfold str_eqb. apply bool_decide_eq_true. Qed.

Lemma strict_eq_str_true a id : strict_eq_str a id = true <-> a = VStr id.
Proof.
  destruct a; cbn; try (split; [discriminate | intros H; discriminate H]).
  rewrite str_eqb_eq. split; [by intros -> | by intros [= ->]].
Qed.

Section Matcher.
Context {E : Engine}.

(** The four ways a document can answer to an identifier. *)
Definition matches_any (d : value) (id : list N) : Prop :=
  get_prop d (js "slug") = VStr id
  \/ (exists f, get_prop d (js "__file") = VStr f /\ strip_yaml_ext f = id)
  \/ slugifyName (get_prop d (js "name")) = Return (VStr id)
  \/ to_String (get_prop d (js "uuid")) = Return id.

(** The [name] of the document is absent, [null], empty, or a string. *)
Definition name_is_text (d : value) : Prop :=
  truthy (get_prop d (js "name")) = false
  \/ exists s, get_prop d (js "name") = VStr s.

(** Matching the document raises no exception. *)
Definition safe_to_match (d : value) : Prop :=
  name_is_text d /\ exists u, to_String (get_prop d (js "uuid")) = Return u.

Lemma slugifyName_text d :
  name_is_text d ->
  exists v, slugifyName (get_prop d (js "name")) = Return v.
Proof.
  intros [Hf|[s Hs]].
  - exists VNull. by apply slugifyName_falsy.
  - rewrite Hs. destruct s as [|c t].
    + exists VNull. reflexivity.
    + destruct (slugifyName_string (c :: t)) as [r Hr]; [done|]. eauto.
Qed.

Lemma matchesId_no_identifier d : matchesId d None = Return false.
Proof. reflexivity. Qed.

Lemma matchesId_empty_identifier d : matchesId d (Some []) = Return false.
Proof. reflexivity. Qed.

Lemma matchesId_falsy_document d id :
  truthy d = false -> matchesId d id = Return false.
Proof.
  intros H. unfold matchesId. destruct id as [[|c t]|]; try reflexivity.
  by rewrite H.
Qed.

Lemma matchesId_unfold d id nameSlug :
  id <> [] -> truthy d = true ->
  slugifyName (get_prop d (js "name")) = Return nameSlug ->
  matchesId d (Some id)
  = if strict_eq_str (get_prop d (js "slug")) id then Return true
    else if strict_eq_str
              (match get_prop d (js "__file") with
               | VStr f => VStr (strip_yaml_ext f)
               | _ => VUndef
               end) id then Return true
    else if strict_eq_str nameSlug id then Return true
    else cbind (to_String (get_prop d (js "uuid"))) (fun u => Return (str_eqb u id)).
Proof.
  intros Hid Ht Hn. unfold matchesId. destruct id as [|c t]; [done|].
  rewrite Ht, Hn. reflexivity.
Qed.

Lemma stem_matches d id :
  strict_eq_str
    (match get_prop d (js "__file") with
     | VStr f => VStr (strip_yaml_ext f)
     | _ => VUndef
     end) id = true
  <-> exists f, get_prop d (js "__file") = VStr f /\ strip_yaml_ext f = id.
Proof.
  rewrite strict_eq_str_true. split.
  - destruct (get_prop d (js "__file")); try discriminate.
    intros [= <-]. eauto.
  - intros (f & -> & <-). reflexivity.
Qed.

(** A document whose [name] is a number, a boolean, an array or an object
    makes the matcher raise, whatever its other fields are. *)
Lemma matchesId_raises d id :
  id <> [] -> truthy d = true ->
  truthy (get_prop d (js "name")) = true ->
  (forall s, get_prop d (js "name") <> VStr s) ->
  matchesId d (Some id) = Throw TypeError.
Proof.
  intros Hid Ht Hn Hs. unfold matchesId. destruct id as [|c t]; [done|].
  rewrite Ht. cbn [negb]. by rewrite (slugifyName_not_a_string _ Hn Hs).
Qed.

(** The matcher answers true exactly on the four-way disjunction. *)
Lemma matchesId_true_iff d id :
  name_is_text d -> truthy d = true -> id <> [] ->
  (matchesId d (Some id) = Return true <-> matches_any d id).
Proof.
  intros Hname Ht Hid.
  destruct (slugifyName_text d Hname) as [ns Hns].
  rewrite (matchesId_unfold d id ns Hid Ht Hns).
  unfold matches_any. rewrite Hns.
  destruct (strict_eq_str (get_prop d (js "slug")) id) eqn:H1.
  { apply strict_eq_str_true in H1. split; auto. }
  destruct (strict_eq_str _ id) eqn:H2 in |- *.
  { apply stem_matches in H2. split; auto. }
  destruct (strict_eq_str ns id) eqn:H3.
  { apply strict_eq_str_true in H3. subst ns. split; auto. }
  assert (N1 : get_prop d (js "slug") <> VStr id).
  { intros H. apply strict_eq_str_true in H. congruence. }
  assert (N2 : ~ exists f, get_prop d (js "__file") = VStr f /\ strip_yaml_ext f = id).
  { intros H. apply stem_matches in H. congruence. }
  assert (N3 : Return ns <> Return (VStr id)).
  { intros [= H]. apply strict_eq_str_true in H. congruence. }
  destruct (to_String (get_prop d (js "uuid"))) as [u|e]; cbn [cbind].
  - split.
    + intros [= H]. apply str_eqb_eq in H. subst u. auto.
    + intros [H|[H|[H|H]]]; try done.
      injection H as ->. f_equal. by apply str_eqb_eq.
  - split; [discriminate|]. intros [H|[H|[H|H]]]; done.
Qed.


(** When nothing can raise, the matcher returns the disjunction itself. *)
Lemma matchesId_false d id :
  safe_to_match d -> ~ matches_any d id -> matchesId d (Some id) = Return false.
Proof.
  intros [Hname [u Hu]] Hno.
  destruct id as [|c t]; [reflexivity|].
  destruct (truthy d) eqn:Ht; [|by apply matchesId_falsy_document].
  pose proof (matchesId_true_iff d (c :: t) Hname Ht ltac:(discriminate)) as Hiff.
  destruct (slugifyName_text d Hname) as [ns Hns].
  rewrite (matchesId_unfold d (c :: t) ns ltac:(discriminate) Ht Hns) in *.
  rewrite Hu in *. cbn [cbind] in *.
  repeat match goal with
         | |- context [if ?b then _ else _] =>
             destruct b; [exfalso; apply Hno, Hiff; reflexivity|]
         end.
  destruct (str_eqb u (c :: t)); [exfalso; apply Hno, Hiff; reflexivity | reflexivity].
Qed.

Lemma find_match_first before m after id :
  Forall (fun d => matchesId d (Some id) = Return false) before ->
  matchesId m (Some id) = Return true ->
  find_match (before ++ m :: after) id = Return (Some m).
Proof.
  induction 1 as [|d rest Hd _ IH]; intros Hm; cbn [find_match app].
  - by rewrite Hm.
  - rewrite Hd. cbn [cbind]. by apply IH.
Qed.

End Matcher.

(** A document that answers to its uuid, and one whose name is a number. *)
Definition uuid_doc : value :=
  VObj [(js "__file", VStr (js "prusa.yaml")); (js "name", VStr (js "Prusa"));
        (js "uuid", VNum 42)].




(** ** Record service: reading one record *)

Section RecordService.
Context {E : Engine}.

Lemma find_match_none docs id :
  Forall (fun d => matchesId d (Some id) = Return false) docs ->
  find_match docs id = Return None.
Proof.
  induction 1 as [|d rest Hd _ IH]; [reflexivity|].
  cbn [find_match]. rewrite Hd. exact IH.
Qed.

Lemma find_match_none_safe docs id :
  Forall (fun d => safe_to_match d /\ ~ matches_any d id) docs ->
  find_match docs id = Return None.
Proof.
  intros H. apply find_match_none.
  eapply Forall_impl; [exact H|]. intros d [Hs Hn]. by apply matchesId_false.
Qed.

(** What [readSingleEntity] does once the directory is known. *)
Lemma readSingleEntity_run entity id w dir :
  findEntityDir entity false w = (Return (Some dir), w) ->
  readSingleEntity entity id w
  = match direct_content (w_fs w) dir id with
    | Some parsed => (Return parsed, w)
    | None =>
        let w1 := log (scan_warnings (w_fs w) dir (yaml_files (w_fs w) dir no_options)) w in
        match find_match (scan (w_fs w) dir no_options) id with
        | Return None => (Return (api_error (drop_last_char entity ++ js " not found") 404), w1)
        | Return (Some m) => (Return (without_source_file m), w1)
        | Throw e => (Throw e, w1)
        end
    end.
Proof.
  intros Hdir. unfold readSingleEntity.
  rewrite (bind_run _ _ _ _ _ Hdir).
  rewrite (bind_run _ _ _ _ _ (read_direct_run dir id w)).
  destruct (direct_content (w_fs w) dir id) as [parsed|]; [reflexivity|].
  rewrite (bind_run _ _ _ _ _ (getEntityFiles_run dir no_options w)).
  unfold bind, lift.
  destruct (find_match _ id) as [[m|]|e]; reflexivity.
Qed.

(** C1. When the entity directory resolves and [{id}.yaml] is a readable
    file, or [{id}.yaml] does not exist and [{id}.yml] is a readable file,
    [readSingleEntity] returns the parsed content of that file at once: the
    content's [slug], [name] and [uuid] play no part, and [.yaml] is tried
    before [.yml]. *)
Theorem readSingleEntity_direct_file (w : World) (entity id : list N)
  (dir : list (list N)) (content : list N) :
  findEntityDir entity false w = (Return (Some dir), w) ->
  ((exists wr, w_fs w !! path_join dir (id ++ js ".yaml") = Some (File true wr content))
   \/ (w_fs w !! path_join dir (id ++ js ".yaml") = None
       /\ exists wr, w_fs w !! path_join dir (id ++ js ".yml")
                     = Some (File true wr content))) ->
  readSingleEntity entity id w = (Return (parseYaml content), w).
Proof.
  intros Hdir Hfile. rewrite (readSingleEntity_run entity id w dir Hdir).
  unfold direct_content, probe, read_ok.
  destruct Hfile as [[wr Hy]|[Hy [wr Hm]]].
  - rewrite Hy. cbv beta iota. rewrite Hy. reflexivity.
  - rewrite Hy, Hm. cbv beta iota. rewrite Hm. reflexivity.
Qed.

(** C9 (as amended). When the file found for [id] cannot be read, the
    error is not passed on: the directory is scanned, the scan prints a
    warning for that file if it lists it, and when no scanned document
    answers to [id] (and matching none of them raises) the result is the
    404 descriptor. The file system is left as it was. *)
Theorem readSingleEntity_unreadable_direct_file (w w1 : World) (entity id : list N)
  (dir fp : list (list N)) (ext : list N) (e : exn) (docs : list value) :
  findEntityDir entity false w = (Return (Some dir), w) ->
  findEntityFile dir id w = (Return (Some (fp, ext)), w) ->
  fs_readFile fp w = (Throw e, w) ->
  getEntityFiles dir no_options w = (Return docs, w1) ->
  Forall (fun d => safe_to_match d /\ ~ matches_any d id) docs ->
  readSingleEntity entity id w
  = (Return (api_error (drop_last_char entity ++ js " not found") 404), w1)
  /\ w_fs w1 = w_fs w
  /\ (forall file, In file (listing (w_fs w) dir) -> has_yaml_ext file = true ->
                   path_join dir file = fp -> In (warning dir file) (w_console w1)).
Proof.
  intros Hdir Hfile Hread Hscan Hnone.
  rewrite getEntityFiles_run in Hscan. injection Hscan as <- <-.
  rewrite findEntityFile_run in Hfile. injection Hfile as Hprobe.
  assert (Hno : read_ok (w_fs w) fp = None).
  { destruct (fs_readFile_run fp w) as (r & Hr & Hc). rewrite Hread in Hr.
    injection Hr as <-. destruct (read_ok (w_fs w) fp); [discriminate Hc | reflexivity]. }
  split; [|split].
  - rewrite (readSingleEntity_run entity id w dir Hdir).
    unfold direct_content. rewrite Hprobe, Hno. cbn [fmap option_fmap option_map].
    by rewrite (find_match_none_safe _ _ Hnone).
  - reflexivity.
  - intros file Hin Hext <-. cbn [log w_console]. apply in_or_app. right.
    unfold scan_warnings. apply in_map. apply filter_In. split.
    + unfold yaml_files. apply filter_In. split; [exact Hin|].
      rewrite Hext. reflexivity.
    + by apply bool_decide_eq_true.
Qed.

End RecordService.

(** ** Record service: writing and deleting *)

Section Updates.
Context {E : Engine}.

Lemma updateEntityFile_not_found dir id newValue w :
  w_fs w !! path_join dir (id ++ js ".yaml") = None ->
  w_fs w !! path_join dir (id ++ js ".yml") = None ->
  find_match (scan (w_fs w) dir no_options) id = Return None ->
  updateEntityFile dir id newValue w
  = (Return (api_error (js "item not found") 404),
     log (scan_warnings (w_fs w) dir (yaml_files (w_fs w) dir no_options)) w).
Proof.
  intros Hy Hm Hnone. unfold updateEntityFile.
  rewrite (bind_run _ _ _ _ _ (findEntityFile_run dir id w)).
  unfold probe. rewrite Hy, Hm.
  unfold bind at 1. unfold ret at 1.
  rewrite (bind_run _ _ _ _ _ (getEntityFiles_run dir no_options w)).
  unfold bind, lift. cbn [w_fs log]. rewrite Hnone. reflexivity.
Qed.

(** C3 (as amended). When the entity directory resolves, neither
    [{id}.yaml] nor [{id}.yml] exists in it, and no document of the
    directory answers to [id] (matching none of them raising), both
    [writeSingleEntity] and [deleteSingleEntity] return the 404 descriptor
    "item not found", and the file system afterwards is the one before: no
    file is created, changed or removed. *)
Theorem write_and_delete_unknown_id (w w1 : World) (entity id : list N)
  (newValue : value) (dir : list (list N)) (docs : list value) :
  findEntityDir entity false w = (Return (Some dir), w) ->
  w_fs w !! path_join dir (id ++ js ".yaml") = None ->
  w_fs w !! path_join dir (id ++ js ".yml") = None ->
  getEntityFiles dir no_options w = (Return docs, w1) ->
  Forall (fun d => safe_to_match d /\ ~ matches_any d id) docs ->
  writeSingleEntity entity id newValue w
  = (Return (api_error (js "item not found") 404), w1)
  /\ deleteSingleEntity entity id w
     = (Return (api_error (js "item not found") 404), w1)
  /\ w_fs w1 = w_fs w.
Proof.
  intros Hdir Hy Hm Hscan Hnone.
  rewrite getEntityFiles_run in Hscan. injection Hscan as <- <-.
  pose proof (find_match_none_safe _ _ Hnone) as Hfind.
  unfold writeSingleEntity, deleteSingleEntity.
  rewrite !(bind_run _ _ _ _ _ Hdir).
  rewrite !(updateEntityFile_not_found dir id _ w Hy Hm Hfind).
  repeat split.
Qed.

End Updates.

(** ** The record service on the sample worlds *)

Definition brands_dir : list (list N) := Sample.srv [js "data"; js "brands"].

(** Evaluation on a concrete world goes through the pure characterisations,
    so that the file system itself is never normalised. *)
Lemma findEntityDir_eval entity w r :
  entity_dir w entity = r -> findEntityDir entity false w = (Return r, w).
Proof. intros <-. apply findEntityDir_run. Qed.

Lemma findEntityFile_eval dir id w r :
  probe (w_fs w) dir id = r -> findEntityFile dir id w = (Return r, w).
Proof. intros <-. apply findEntityFile_run. Qed.

Lemma fs_readFile_denied p w wr content :
  w_fs w !! p = Some (File false wr content) ->
  fs_readFile p w = (Throw (FsError EACCES), w).
Proof. intros H. unfold fs_readFile, bind, fs_node. by rewrite H. Qed.

Lemma pair_from_fst {A B} (p : A * B) (a : A) : fst p = a -> p = (a, snd p).
Proof. intros <-. by destruct p. Qed.

Ltac by_evaluation := vm_compute; reflexivity.

Ltac evaluate_scan :=
  match goal with
  | |- context [@scan ?E ?fs ?dir ?opts] =>
      let docs := eval vm_compute in (@scan E fs dir opts) in
      replace (@scan E fs dir opts) with docs by by_evaluation
  end.

Ltac refute_match :=
  let H := fresh "H" in
  intros [H|[(? & H & ?)|[H|H]]];
  vm_compute in H; try discriminate H;
  injection H as <-; discriminate.

Ltac safe_and_unmatched :=
  split; [split; [first [left; reflexivity | right; eexists; reflexivity]
                 | eexists; reflexivity]
         | refute_match].

(** In the sample world the brand file [odd.yaml] carries a slug, a name
    and a uuid that all differ from "odd"; it is returned for "odd". *)
Lemma readSingleEntity_direct_file_witness :
  @readSingleEntity Sample.degraded (js "brands") (js "odd") Sample.world
  = (Return (VObj [(js "name", VStr (js "Other Name")); (js "slug", VStr (js "not-odd"));
                   (js "uuid", VStr (js "42"))]),
     Sample.world).
Proof.
  apply (@readSingleEntity_direct_file Sample.degraded Sample.world (js "brands")
           (js "odd") brands_dir
           (js "name: Other Name" ++ Sample.nl ++ js "slug: not-odd" ++ Sample.nl
              ++ js "uuid: 42" ++ Sample.nl)).
  - apply findEntityDir_eval. by_evaluation.
  - left. exists true. by_evaluation.
Defined.

Lemma write_and_delete_unknown_id_witness :
  fst (@writeSingleEntity Sample.degraded (js "brands") (js "zzz")
         (VObj [(js "name", VStr (js "Zzz"))]) Sample.world)
  = Return (api_error (js "item not found") 404)
  /\ w_fs (snd (@writeSingleEntity Sample.degraded (js "brands") (js "zzz")
                  (VObj [(js "name", VStr (js "Zzz"))]) Sample.world))
     = w_fs Sample.world.
Proof.
  destruct (@write_and_delete_unknown_id Sample.degraded Sample.world
              (log (@scan_warnings (w_fs Sample.world) brands_dir
                      (yaml_files (w_fs Sample.world) brands_dir no_options))
                   Sample.world)
              (js "brands") (js "zzz") (VObj [(js "name", VStr (js "Zzz"))])
              brands_dir (@scan Sample.degraded (w_fs Sample.world) brands_dir no_options))
    as (Hw & _ & Hfs).
  - apply findEntityDir_eval. by_evaluation.
  - by_evaluation.
  - by_evaluation.
  - apply getEntityFiles_run.
  - evaluate_scan. repeat (apply List.Forall_cons; [safe_and_unmatched|]). apply List.Forall_nil.
  - rewrite Hw. split; [reflexivity | exact Hfs].
Defined.

(** [locked.yml] exists but cannot be read, and no brand answers to
    "locked": the reader reports that the brand is not found. *)
Lemma readSingleEntity_unreadable_direct_file_witness :
  fst (@readSingleEntity Sample.degraded (js "brands") (js "locked") Sample.world)
  = Return (api_error (js "brand not found") 404).
Proof.
  destruct (@readSingleEntity_unreadable_direct_file Sample.degraded Sample.world
              (log (@scan_warnings (w_fs Sample.world) brands_dir
                      (yaml_files (w_fs Sample.world) brands_dir no_options))
                   Sample.world)
              (js "brands") (js "locked") brands_dir
              (brands_dir ++ [js "locked.yml"]) (js ".yml") (FsError EACCES)
              (@scan Sample.degraded (w_fs Sample.world) brands_dir no_options))
    as (Hr & _ & _).
  - apply findEntityDir_eval. by_evaluation.
  - apply findEntityFile_eval. by_evaluation.
  - apply (fs_readFile_denied _ _ true (js "name: Locked" ++ Sample.nl)). by_evaluation.
  - apply getEntityFiles_run.
  - evaluate_scan. repeat (apply List.Forall_cons; [safe_and_unmatched|]). apply List.Forall_nil.
  - rewrite Hr. reflexivity.
Defined.

(** C3 (counterexample). In this world the brands directory holds
    [n123.yaml], whose content [name: 123] the library reads as a number.
    Neither [zzz.yaml] nor [zzz.yml] exists and no document answers to
    "zzz" in any of the four ways, yet the write raises a TypeError where
    the claim promises the 404 descriptor. *)
Lemma write_unknown_id_counterexample :
  findEntityDir (js "brands") false Sample.numbered_world
  = (Return (Some brands_dir), Sample.numbered_world)
  /\ w_fs Sample.numbered_world !! path_join brands_dir (js "zzz" ++ js ".yaml") = None
  /\ w_fs Sample.numbered_world !! path_join brands_dir (js "zzz" ++ js ".yml") = None
  /\ Forall (fun d => ~ @matches_any Sample.full d (js "zzz"))
       (@scan Sample.full (w_fs Sample.numbered_world) brands_dir no_options)
  /\ fst (@writeSingleEntity Sample.full (js "brands") (js "zzz")
            (VObj [(js "name", VStr (js "Zzz"))]) Sample.numbered_world)
     = Throw TypeError
  /\ fst (@deleteSingleEntity Sample.full (js "brands") (js "zzz") Sample.numbered_world)
     = Throw TypeError.
Proof.
  split; [apply findEntityDir_eval; by_evaluation|].
  split; [by_evaluation|].
  split; [by_evaluation|].
  split; [evaluate_scan; repeat (apply List.Forall_cons; [refute_match|]); apply List.Forall_nil|].
  split; by_evaluation.
Qed.

(** C9 (counterexample). [gone.yaml] exists but cannot be read, and no
    other document answers to "gone"; the scan meets [n123.yaml], whose
    name is a number, and the call raises a TypeError where the claim
    promises the 404 descriptor. *)
Lemma read_unreadable_counterexample :
  findEntityDir (js "brands") false Sample.numbered_world
  = (Return (Some brands_dir), Sample.numbered_world)
  /\ findEntityFile brands_dir (js "gone") Sample.numbered_world
     = (Return (Some (brands_dir ++ [js "gone.yaml"], js ".yaml")), Sample.numbered_world)
  /\ fs_readFile (brands_dir ++ [js "gone.yaml"]) Sample.numbered_world
     = (Throw (FsError EACCES), Sample.numbered_world)
  /\ Forall (fun d => ~ @matches_any Sample.full d (js "gone"))
       (@scan Sample.full (w_fs Sample.numbered_world) brands_dir no_options)
  /\ fst (@readSingleEntity Sample.full (js "brands") (js "gone") Sample.numbered_world)
     = Throw TypeError.
Proof.
  split; [apply findEntityDir_eval; by_evaluation|].
  split; [apply findEntityFile_eval; by_evaluation|].
  split; [apply (fs_readFile_denied _ _ true (js "name: Gone" ++ Sample.nl)); by_evaluation|].
  split; [evaluate_scan; repeat (apply List.Forall_cons; [refute_match|]); apply List.Forall_nil|].
  by_evaluation.
Qed.

(** ** Serialiser *)

Definition exactly_one_trailing_newline (s : list N) : Prop :=
  ends_with [c_newline] s = true /\ ends_with [c_newline; c_newline] s = false.

Lemma ends_with_last a t x : ends_with [a] (t ++ [x]) = (a =? x)%N.
Proof.
  unfold ends_with. rewrite rev_app_distr. cbn. by rewrite andb_true_r.
Qed.

Lemma ends_with_newline_appended s : ends_with [c_newline] (s ++ [c_newline]) = true.
Proof. by rewrite ends_with_last. Qed.

Lemma ends_with_two_newlines_appended s :
  ends_with [c_newline; c_newline] (s ++ [c_newline]) = ends_with [c_newline] s.
Proof. unfold ends_with. rewrite rev_app_distr. reflexivity. Qed.

Lemma newline_appended_once s :
  ends_with [c_newline] s = false -> exactly_one_trailing_newline (s ++ [c_newline]).
Proof.
  intros H. split; [apply ends_with_newline_appended|].
  by rewrite ends_with_two_newlines_appended.
Qed.

(** A string ends in [x]. *)
Definition ends_in (s : list N) (x : N) : Prop := exists t, s = t ++ [x].

Lemma ends_in_app s1 s2 x : ends_in s2 x -> ends_in (s1 ++ s2) x.
Proof. intros [t ->]. exists (s1 ++ t). by rewrite app_assoc. Qed.

Lemma ends_in_no_newline s x :
  ends_in s x -> x <> c_newline -> ends_with [c_newline] s = false.
Proof.
  intros [t ->] Hx. rewrite ends_with_last. apply N.eqb_neq. congruence.
Qed.

Lemma uint_digits_last d :
  d <> Nil -> exists x, ends_in (uint_digits d) x /\ is_digit x = true.
Proof.
  assert (Hdec : forall u : Decimal.uint, u = Nil \/ u <> Nil)
    by (intros u; destruct u; [by left | by right ..]).
  induction d; intros Hd; try done;
    (destruct (Hdec d) as [->|Hne];
     [eexists; split; [by exists [] | reflexivity]
     | destruct (IHd Hne) as (x & Hx & Hdig); exists x; split; [|exact Hdig];
       cbn [uint_digits]; by apply (ends_in_app [_])]).
Qed.

Lemma dec_N_last n : exists x, ends_in (dec_N n) x /\ is_digit x = true.
Proof.
  unfold dec_N. apply uint_digits_last. destruct n as [|p]; [discriminate|].
  apply DecimalPos.Unsigned.to_uint_nonnil.
Qed.

Lemma dec_Z_last n : exists x, ends_in (dec_Z n) x /\ is_digit x = true.
Proof.
  destruct n as [|p|p]; cbn [dec_Z]; try apply dec_N_last.
  destruct (dec_N_last (N.pos p)) as (x & Hx & Hd). exists x. split; [|exact Hd].
  by apply (ends_in_app [_]).
Qed.

Lemma is_digit_not_newline x : is_digit x = true -> x <> c_newline.
Proof. intros H ->. discriminate H. Qed.

Lemma json_block_last o c stepback partial : ends_in (json_block o c stepback partial) c.
Proof.
  unfold json_block. destruct partial as [|p ps].
  - by exists [o].
  - rewrite !app_assoc. by eexists.
Qed.

(** A JSON rendering never ends in a line feed. *)
Lemma JSON_stringify_last obj s :
  JSON_stringify obj = Some s -> exists x, ends_in s x /\ x <> c_newline.
Proof.
  unfold JSON_stringify. destruct obj; cbn [json_ser]; intros [= <-].
  - exists 108%N. split; [by exists (js "nul") | discriminate].
  - exists 101%N. split; [|discriminate].
    destruct b; [by exists (js "tru") | by exists (js "fals")].
  - destruct (dec_Z_last n) as (x & Hx & Hd). exists x.
    split; [exact Hx | by apply is_digit_not_newline].
  - exists 34%N. split; [|discriminate]. unfold json_quote.
    rewrite app_assoc. by eexists.
  - exists 93%N. split; [apply json_block_last | discriminate].
  - exists 125%N. split; [apply json_block_last | discriminate].
Qed.

Lemma json_fallback_no_trailing_newline obj :
  ends_with [c_newline] (json_fallback obj) = false.
Proof.
  unfold json_fallback.
  destruct (JSON_stringify obj) as [s|] eqn:Hs; cbn [default].
  - destruct (JSON_stringify_last obj s Hs) as (x & Hx & Hne).
    apply (ends_in_no_newline _ x); [by apply ends_in_app | exact Hne].
  - apply (ends_in_no_newline _ 100%N); [|discriminate].
    apply ends_in_app. by exists (js "undefine").
Qed.

Section SerialiserFacts.
Context {E : Engine}.

(** What the [try] block obtains from the package: [None] when the package
    or its [stringify] function is missing. *)
Definition library_stringify (obj : value) : option (completion value) :=
  match yaml_import with
  | Some lib =>
      match yaml_stringify lib with
      | Some stringify => Some (stringify obj)
      | None => None
      end
  | None => None
  end.

Lemma stringify_result_library obj :
  stringify_result obj
  = match library_stringify obj with
    | Some (Return v) => Return v
    | Some (Throw _) | None => Return (VStr (json_fallback obj))
    end.
Proof.
  unfold stringify_result, library_stringify.
  destruct yaml_import as [lib|]; [|reflexivity].
  destruct (yaml_stringify lib) as [stringify|]; [|reflexivity].
  destruct (stringify obj); reflexivity.
Qed.

(** The degraded path: the marked JSON rendering and one line feed. *)
Lemma stringifyYaml_degraded obj :
  stringify_result obj = Return (VStr (json_fallback obj)) ->
  stringifyYaml obj = Return (json_fallback obj ++ [c_newline])
  /\ exactly_one_trailing_newline (json_fallback obj ++ [c_newline]).
Proof.
  intros H. unfold stringifyYaml. rewrite H. cbn [cbind].
  rewrite json_fallback_no_trailing_newline. cbn [negb].
  split; [reflexivity|]. apply newline_appended_once, json_fallback_no_trailing_newline.
Qed.

(** What the function itself ensures: a line feed is appended when the
    text lacks one, and text that has one is returned as it is. *)
Lemma stringifyYaml_appends_only obj s :
  stringify_result obj = Return (VStr s) ->
  stringifyYaml obj = Return (if ends_with [c_newline] s then s else s ++ [c_newline]).
Proof.
  intros H. unfold stringifyYaml. rewrite H. cbn [cbind].
  destruct (ends_with [c_newline] s); reflexivity.
Qed.

Lemma ends_with_two_ends_with_one s :
  ends_with [c_newline; c_newline] s = true -> ends_with [c_newline] s = true.
Proof.
  unfold ends_with. cbn [rev app]. destruct (rev s) as [|c r]; [discriminate|].
  cbn [starts_with]. intros H. apply andb_true_iff in H as [-> _]. reflexivity.
Qed.

(** C4 (as amended). Whatever the serialiser returns ends in a line feed.
    On the degraded path (no package, no [stringify] function, or a
    [stringify] that raises) the result is the marked JSON rendering
    followed by exactly one line feed. On the library path the function
    appends a line feed to text that lacks one and returns any other text
    untouched, so the result ends in exactly one line feed if and only if
    the text of the package does not end in two; and when the package
    returns something that is no string, the call raises a TypeError. *)
Theorem stringifyYaml_trailing_newline (obj : value) :
  (forall text, stringifyYaml obj = Return text -> ends_with [c_newline] text = true)
  /\ (library_stringify obj = None \/ (exists e, library_stringify obj = Some (Throw e)) ->
      stringifyYaml obj = Return (json_fallback obj ++ [c_newline])
      /\ exactly_one_trailing_newline (json_fallback obj ++ [c_newline]))
  /\ (forall s, library_stringify obj = Some (Return (VStr s)) ->
      stringifyYaml obj = Return (if ends_with [c_newline] s then s else s ++ [c_newline])
      /\ (exactly_one_trailing_newline (if ends_with [c_newline] s then s else s ++ [c_newline])
          <-> ends_with [c_newline; c_newline] s = false))
  /\ (forall v, library_stringify obj = Some (Return v) -> (forall s, v <> VStr s) ->
      stringifyYaml obj = Throw TypeError).
Proof.
  pose proof (stringify_result_library obj) as Hres.
  split; [|split; [|split]].
  - intros text. unfold stringifyYaml.
    destruct (stringify_result obj) as [[| | | |s| |]|e]; cbn [cbind]; try discriminate.
    destruct (ends_with [c_newline] s) eqn:Hend; cbn [negb]; intros [= <-].
    + exact Hend.
    + apply ends_with_newline_appended.
  - intros Hlib. apply stringifyYaml_degraded. rewrite Hres.
    by destruct Hlib as [->|[e ->]].
  - intros s Hlib. rewrite Hlib in Hres.
    split; [by apply stringifyYaml_appends_only|].
    destruct (ends_with [c_newline] s) eqn:Hend.
    + unfold exactly_one_trailing_newline. rewrite Hend. tauto.
    + split.
      * intros _. destruct (ends_with [c_newline; c_newline] s) eqn:H2; [|reflexivity].
        apply ends_with_two_ends_with_one in H2. congruence.
      * intros _. by apply newline_appended_once.
  - intros v Hlib Hv. rewrite Hlib in Hres. unfold stringifyYaml. rewrite Hres.
    destruct v; try reflexivity. by destruct (Hv s).
Qed.

End SerialiserFacts.

Lemma ends_with_app_nonempty a s1 s2 :
  s2 <> [] -> ends_with [a] (s1 ++ s2) = ends_with [a] s2.
Proof.
  intros Hne. unfold ends_with. rewrite rev_app_distr.
  destruct (rev s2) as [|c r] eqn:Hr.
  - apply (f_equal (@rev N)) in Hr. rewrite rev_involutive in Hr. done.
  - cbn. by rewrite !andb_true_r.
Qed.

(** The theorem at a runtime with the sample library: on a value it
    renders with one final line feed, on one it rejects and on
    [undefined]; and at a runtime without the package. *)
Lemma stringifyYaml_trailing_newline_witness :
  @stringifyYaml Sample.full (VObj [(js "name", VStr (js "PLA"))])
  = Return (js "name: PLA" ++ Sample.nl)
  /\ exactly_one_trailing_newline (js "name: PLA" ++ Sample.nl)
  /\ @stringifyYaml Sample.full (VArr [VNum 1; VNull])
     = Return (json_fallback (VArr [VNum 1; VNull]) ++ [c_newline])
  /\ exactly_one_trailing_newline (json_fallback (VArr [VNum 1; VNull]) ++ [c_newline])
  /\ @stringifyYaml Sample.degraded (VArr [VNum 1; VNull])
     = Return (json_fallback (VArr [VNum 1; VNull]) ++ [c_newline])
  /\ @stringifyYaml Sample.full VUndef = Throw TypeError.
Proof.
  destruct (@stringifyYaml_trailing_newline Sample.full (VObj [(js "name", VStr (js "PLA"))]))
    as (_ & _ & Htext & _).
  destruct (Htext (js "name: PLA" ++ Sample.nl) eq_refl) as [Hrun Hone].
  destruct (@stringifyYaml_trailing_newline Sample.full (VArr [VNum 1; VNull]))
    as (_ & Hrejected & _ & _).
  destruct (Hrejected (or_intror (ex_intro _ LibraryError eq_refl))) as [Hfallback Hfallback_one].
  destruct (@stringifyYaml_trailing_newline Sample.degraded (VArr [VNum 1; VNull]))
    as (_ & Habsent & _ & _).
  destruct (Habsent (or_introl eq_refl)) as [Hdegraded _].
  destruct (@stringifyYaml_trailing_newline Sample.full VUndef) as (_ & _ & _ & Hother).
  split; [exact Hrun|].
  split; [apply Hone; reflexivity|].
  split; [exact Hfallback|].
  split; [exact Hfallback_one|].
  split; [exact Hdegraded|].
  apply (Hother VUndef eq_refl). discriminate.
Defined.

(** The claim as the specification states it fails on the library path.
    For [{ note: "a\n\n" }] the package writes a block scalar that keeps
    both line feeds; the serialiser returns that text as it is, ending in
    two line feeds. *)
Lemma stringifyYaml_two_newlines_counterexample :
  @stringifyYaml Sample.full (VObj [(js "note", VStr (js "a" ++ Sample.nl ++ Sample.nl))])
  = Return (js "note: |+" ++ Sample.nl ++ js "  a" ++ Sample.nl ++ Sample.nl)
  /\ ~ exactly_one_trailing_newline
         (js "note: |+" ++ Sample.nl ++ js "  a" ++ Sample.nl ++ Sample.nl).
Proof.
  split; [reflexivity|]. intros [_ H]. discriminate H.
Qed.

(** ** Objects *)

Lemma assoc_get_obj_set k k' v props :
  assoc_get k (obj_set k' v props) = if str_eqb k' k then Some v else assoc_get k props.
Proof.
  induction props as [|[k0 v0] rest IH]; cbn [obj_set assoc_get].
  - destruct (str_eqb k' k); reflexivity.
  - destruct (str_eqb k0 k') eqn:H0; cbn [assoc_get].
    + apply str_eqb_eq in H0. subst k0. destruct (str_eqb k' k); reflexivity.
    + destruct (str_eqb k0 k) eqn:H1; [|exact IH].
      apply str_eqb_eq in H1. subst k0.
      destruct (str_eqb k' k) eqn:H2; [|reflexivity].
      apply str_eqb_eq in H2. subst k'. unfold str_eqb in H0.
      by rewrite bool_decide_eq_true_2 in H0.
Qed.

Lemma assoc_get_in k v props : assoc_get k props = Some v -> In (k, v) props.
Proof.
  induction props as [|[k0 v0] rest IH]; cbn [assoc_get]; [discriminate|].
  destruct (str_eqb k0 k) eqn:H0.
  - apply str_eqb_eq in H0. intros [= ->]. subst. by left.
  - intros H. right. by apply IH.
Qed.

(** A key the source lacks keeps the value it had in the target. *)
Lemma assign_all_absent k src dst :
  assoc_get k src = None -> assoc_get k (assign_all src dst) = assoc_get k dst.
Proof.
  unfold assign_all. revert dst.
  induction src as [|[k0 v0] rest IH]; intros dst; cbn [fold_left assoc_get fst snd];
    [reflexivity|].
  destruct (str_eqb k0 k) eqn:H0; [discriminate|].
  intros H. rewrite (IH _ H), assoc_get_obj_set. by rewrite H0.
Qed.



(** ** Collection reader: the provenance field *)

Section Provenance.
Context {E : Engine}.

Lemma scan_documents fs dir opts d :
  In d (scan fs dir opts) ->
  exists file content,
    In file (listing fs dir) /\ has_yaml_ext file = true
    /\ read_ok fs (path_join dir file) = Some content
    /\ d = with_source_file file (parseYaml content).
Proof.
  unfold scan. rewrite <- list_elem_of_In, list_elem_of_omap.
  intros (file & Hfile & Hd). exists file.
  apply list_elem_of_In in Hfile. unfold yaml_files in Hfile.
  apply filter_In in Hfile as [Hin Hext]. apply andb_true_iff in Hext as [Hext _].
  unfold scan_file in Hd.
  destruct (read_ok fs (path_join dir file)) as [content|]; [|discriminate].
  exists content. repeat split; try done.
  destruct (validate opts) as [ok|]; [destruct (ok _)|]; congruence.
Qed.



End Provenance.

(** In the sample world [real.yaml] holds the line [__file: ghost.yaml]:
    the scanned document answers to "ghost" and not to "real", and a
    request for "ghost" is served from [real.yaml]. *)
Example shadowed_source_file :
  @scan Sample.degraded (w_fs Sample.world) brands_dir
     {| fileFilter := Some (fun f => str_eqb f (js "real.yaml")); validate := None |}
  = [VObj [(js "__file", VStr (js "ghost.yaml"))]]
  /\ @matchesId Sample.degraded (VObj [(js "__file", VStr (js "ghost.yaml"))])
       (Some (js "ghost")) = Return true
  /\ @matchesId Sample.degraded (VObj [(js "__file", VStr (js "ghost.yaml"))])
       (Some (js "real")) = Return false
  /\ fst (@readSingleEntity Sample.degraded (js "brands") (js "ghost") Sample.world)
     = Return (VObj []).
Proof. repeat split; vm_compute; reflexivity. Qed.


(** ** Nested readers: the parent back-reference *)

(** [{ slug: s }] *)
Definition brand_ref (s : list N) : value := VObj [(js "slug", VStr s)].

Lemma with_brand_ref brandId f : get_prop (with_brand brandId f) (js "brand") = brand_ref brandId.
Proof.
  unfold with_brand, get_prop. rewrite assoc_get_obj_set.
  unfold str_eqb. by rewrite bool_decide_eq_true_2.
Qed.

Section NestedReaders.
Context {E : Engine}.

(** The documents of the sub-directory [entry] of [root], tagged with the
    name of that sub-directory; nothing for an entry that is no directory. *)
Definition tagged_documents (fs : gmap (list (list N)) node) (root : path)
  (opts : ReadOptions) (entry : list N) : list value :=
  if is_dir fs (path_join root entry)
  then List.map (with_brand entry) (scan fs (path_join root entry) opts)
  else [].

Definition nested_warnings (fs : gmap (list (list N)) node) (root : path)
  (opts : ReadOptions) (entry : list N) : list (list N) :=
  if is_dir fs (path_join root entry)
  then scan_warnings fs (path_join root entry) (yaml_files fs (path_join root entry) opts)
  else [].

Lemma read_brand_dirs_run root opts entries results w :
  read_brand_dirs root opts entries results w
  = (Return (results ++ flat_map (tagged_documents (w_fs w) root opts) entries),
     log (flat_map (nested_warnings (w_fs w) root opts) entries) w).
Proof.
  revert results w. induction entries as [|entry rest IH]; intros results w.
  - cbn. by rewrite app_nil_r, log_nil.
  - cbn [read_brand_dirs flat_map].
    rewrite (bind_run _ _ _ _ _ (fs_stat_guarded _ w)).
    unfold tagged_documents at 1, nested_warnings at 1.
    destruct (is_dir (w_fs w) (path_join root entry)).
    + rewrite (bind_run _ _ _ _ _ (getEntityFiles_run _ opts w)).
      rewrite IH. cbn [w_fs log]. rewrite log_log. by rewrite <- app_assoc.
    + rewrite IH. reflexivity.
Qed.

Lemma readNestedEntitiesByBrand_run entityDirName brandId opts w r w0 :
  findBrandDirForNestedEntity entityDirName brandId false w = (r, w0) ->
  readNestedEntitiesByBrand entityDirName brandId opts w
  = match r with
    | Return (Some dir) =>
        (Return (VArr (List.map (with_brand brandId) (scan (w_fs w0) dir opts))),
         log (scan_warnings (w_fs w0) dir (yaml_files (w_fs w0) dir opts)) w0)
    | Return None => (Return (brand_not_found entityDirName brandId), w0)
    | Throw e => (Throw e, w0)
    end.
Proof.
  intros Hdir. unfold readNestedEntitiesByBrand, bind at 1. rewrite Hdir.
  destruct r as [[dir|]|e]; try reflexivity.
  by rewrite (bind_run _ _ _ _ _ (getEntityFiles_run dir opts w0)).
Qed.

Lemma readSingleNestedByBrand_run entityDirName brandId id w r w0 :
  findBrandDirForNestedEntity entityDirName brandId false w = (r, w0) ->
  exists w1,
    readSingleNestedByBrand entityDirName brandId id w
    = match r with
      | Return (Some dir) =>
          match direct_content (w_fs w0) dir id with
          | Some parsed => (Return (with_brand brandId parsed), w1)
          | None =>
              match find_match (scan (w_fs w0) dir no_options) id with
              | Return None => (Return (api_error (js "entity not found") 404), w1)
              | Return (Some m) =>
                  (Return (with_brand brandId (without_source_file m)), w1)
              | Throw e => (Throw e, w1)
              end
          end
      | Return None => (Return (brand_not_found entityDirName brandId), w1)
      | Throw e => (Throw e, w1)
      end.
Proof.
  intros Hdir. unfold readSingleNestedByBrand, bind at 1. rewrite Hdir.
  destruct r as [[dir|]|e]; try (eexists; reflexivity).
  rewrite (bind_run _ _ _ _ _ (read_direct_run dir id w0)).
  destruct (direct_content (w_fs w0) dir id) as [parsed|]; [eexists; reflexivity|].
  rewrite (bind_run _ _ _ _ _ (getEntityFiles_run dir no_options w0)).
  unfold bind, lift. eexists.
  destruct (find_match _ id) as [[m|]|e]; reflexivity.
Qed.

(** C5. Every document in the array returned by
    [readNestedEntitiesByBrand] carries [brand: { slug: brandId }] with the
    identifier exactly as the caller gave it. When the directory of the
    brand resolves, [readSingleNestedByBrand] returns the parsed content of
    the direct file, or else the first scanned document that answers to the
    identifier without its [__file] field, in both cases with
    [brand: { slug: brandId }] added; and whatever it returns is one of its
    two 404 descriptors or carries that reference. The array returned by
    [readAllNestedAcrossBrands] is, entry by entry of the root in listing
    order, the documents of each entry that is a directory, each carrying
    [brand: { slug: entry }] with the literal name of that directory. *)
Theorem nested_reads_carry_parent_reference :
  (forall w w' entityDirName brandId opts docs,
      readNestedEntitiesByBrand entityDirName brandId opts w = (Return (VArr docs), w') ->
      Forall (fun d => get_prop d (js "brand") = brand_ref brandId) docs)
  /\ (forall w w0 entityDirName brandId id dir,
        findBrandDirForNestedEntity entityDirName brandId false w = (Return (Some dir), w0) ->
        (forall fp ext content,
            findEntityFile dir id w0 = (Return (Some (fp, ext)), w0) ->
            read_ok (w_fs w0) fp = Some content ->
            readSingleNestedByBrand entityDirName brandId id w
            = (Return (with_brand brandId (parseYaml content)), w0)
            /\ get_prop (with_brand brandId (parseYaml content)) (js "brand")
               = brand_ref brandId)
        /\ (forall w1 before m after,
              findEntityFile dir id w0 = (Return None, w0) ->
              getEntityFiles dir no_options w0 = (Return (before ++ m :: after), w1) ->
              Forall (fun d => matchesId d (Some id) = Return false) before ->
              matchesId m (Some id) = Return true ->
              readSingleNestedByBrand entityDirName brandId id w
              = (Return (with_brand brandId (without_source_file m)), w1)
              /\ get_prop (with_brand brandId (without_source_file m)) (js "brand")
                 = brand_ref brandId))
  /\ (forall w w' entityDirName brandId id v,
        readSingleNestedByBrand entityDirName brandId id w = (Return v, w') ->
        v = brand_not_found entityDirName brandId
        \/ v = api_error (js "entity not found") 404
        \/ get_prop v (js "brand") = brand_ref brandId)
  /\ (forall w w' entityDirName opts docs root,
        findEntityDir entityDirName false w = (Return (Some root), w) ->
        readAllNestedAcrossBrands entityDirName opts w = (Return (VArr docs), w') ->
        docs = flat_map (tagged_documents (w_fs w) root opts) (listing (w_fs w) root)
        /\ Forall (fun d => exists entry,
                       In entry (listing (w_fs w) root)
                       /\ is_dir (w_fs w) (path_join root entry) = true
                       /\ get_prop d (js "brand") = brand_ref entry) docs).
Proof.
  split; [|split; [|split]].
  - intros w w' entityDirName brandId opts docs H.
    destruct (findBrandDirForNestedEntity entityDirName brandId false w) as [r w0] eqn:Hdir.
    rewrite (readNestedEntitiesByBrand_run _ _ opts _ _ _ Hdir) in H.
    destruct r as [[dir|]|e]; try discriminate H.
    injection H as <- _. apply List.Forall_forall. intros d Hd.
    apply in_map_iff in Hd as (f & <- & _). apply with_brand_ref.
  - intros w w0 entityDirName brandId id dir Hdir. split.
    + intros fp ext content Hfile Hread. split; [|apply with_brand_ref].
      rewrite findEntityFile_run in Hfile. injection Hfile as Hprobe.
      unfold readSingleNestedByBrand. rewrite (bind_run _ _ _ _ _ Hdir).
      rewrite (bind_run _ _ _ _ _ (read_direct_run dir id w0)).
      unfold direct_content. rewrite Hprobe, Hread. reflexivity.
    + intros w1 before m after Hfile Hscan Hbefore Hm. split; [|apply with_brand_ref].
      rewrite findEntityFile_run in Hfile. injection Hfile as Hprobe.
      unfold readSingleNestedByBrand. rewrite (bind_run _ _ _ _ _ Hdir).
      rewrite (bind_run _ _ _ _ _ (read_direct_run dir id w0)).
      unfold direct_content. rewrite Hprobe.
      rewrite (bind_run _ _ _ _ _ Hscan).
      unfold bind, lift. by rewrite (find_match_first before m after id Hbefore Hm).
  - intros w w' entityDirName brandId id v H.
    destruct (findBrandDirForNestedEntity entityDirName brandId false w) as [r w0] eqn:Hdir.
    destruct (readSingleNestedByBrand_run _ _ id _ _ _ Hdir) as [w1 Hrun].
    rewrite Hrun in H. clear Hrun.
    destruct r as [[dir|]|e]; try discriminate H.
    + destruct (direct_content (w_fs w0) dir id) as [parsed|].
      * injection H as <- _. right; right. apply with_brand_ref.
      * destruct (find_match _ id) as [[m|]|e]; try discriminate H;
          injection H as <- _; [right; right; apply with_brand_ref | right; by left].
    + injection H as <- _. by left.
  - intros w w' entityDirName opts docs root Hroot H.
    unfold readAllNestedAcrossBrands in H.
    rewrite (bind_run _ _ _ _ _ Hroot) in H.
    assert (Hd : is_dir (w_fs w) root = true).
    { rewrite findEntityDir_run in Hroot. injection Hroot as Hroot.
      unfold entity_dir in Hroot. by apply find_some in Hroot as [_ ?]. }
    destruct (fs_readdir_run root w) as (r & Hr & Hc).
    unfold is_dir in Hd. unfold listing.
    destruct (w_fs w !! root) as [[? ? ?|wr es]|] eqn:Hnode; try discriminate Hd.
    subst r. unfold try_catch in H.
    rewrite (bind_run _ _ _ _ _ Hr) in H.
    rewrite (bind_run _ _ _ _ _ (read_brand_dirs_run root opts es [] w)) in H.
    injection H as <- _. split; [reflexivity|].
    apply List.Forall_forall. intros d Hin. cbn [app] in Hin.
    apply in_flat_map in Hin as (entry & Hentry & Hin).
    exists entry. unfold tagged_documents in Hin.
    destruct (is_dir (w_fs w) (path_join root entry)) eqn:Hdir; [|done].
    apply in_map_iff in Hin as (f & <- & _).
    repeat split; [exact Hentry | apply with_brand_ref].
Qed.

End NestedReaders.

(** The brand is asked for by its uuid "u-1"; its directory is found under
    its slug "prusa"; the documents are tagged "u-1". Across brands, the
    document of the directory [stale-dir] is tagged "stale-dir", overriding
    the [brand] its own content declares. *)
Definition pla_of (brand : list N) : value :=
  VObj [(js "__file", VStr (js "pla.yaml")); (js "name", VStr (js "PLA"));
        (js "brand", brand_ref brand)].

Definition petg_of (brand : list N) : value :=
  VObj [(js "__file", VStr (js "petg.yml")); (js "name", VStr (js "PETG"));
        (js "brand", brand_ref brand)].

(** A second tree, where the materials of the brand have uuids. *)
Definition shelf_tree : list (list (list N) * node) :=
  [([], Dir true [js "srv"]);
   (Sample.srv [], Dir true [js "ui-editor"; js "data"]);
   (Sample.srv [js "ui-editor"], Dir true []);
   (Sample.srv [js "data"], Dir true [js "brands"; js "materials"]);
   (Sample.srv [js "data"; js "brands"], Dir true [js "prusa.yaml"]);
   (Sample.srv [js "data"; js "brands"; js "prusa.yaml"],
    File true true (js "name: Prusa" ++ Sample.nl ++ js "slug: prusa" ++ Sample.nl
                      ++ js "uuid: u-1" ++ Sample.nl));
   (Sample.srv [js "data"; js "materials"], Dir true [js "prusa"]);
   (Sample.srv [js "data"; js "materials"; js "prusa"],
    Dir true [js "pla.yaml"; js "petg.yaml"]);
   (Sample.srv [js "data"; js "materials"; js "prusa"; js "pla.yaml"],
    File true true (js "name: PLA" ++ Sample.nl ++ js "uuid: m-1" ++ Sample.nl));
   (Sample.srv [js "data"; js "materials"; js "prusa"; js "petg.yaml"],
    File true true (js "name: PETG" ++ Sample.nl ++ js "uuid: m-2" ++ Sample.nl))].

Definition shelf_world : World := {|
  w_fs := list_to_map shelf_tree;
  w_cwd := Sample.srv [js "ui-editor"];
  w_console := []
|}.

Definition prusa_materials : list (list N) :=
  Sample.srv [js "data"; js "materials"; js "prusa"].

(** In the sample world: the list of the brand "u-1", the lists across
    brands, and the record "pla" of the brand "u-1", served by its direct
    file. In the second tree: the record "m-2" of the brand "u-1", found by
    the scan as the second document. Both records carry the "u-1" the
    caller gave, not the slug "prusa" of the directory. *)
Lemma nested_reads_carry_parent_reference_witness :
  fst (@readNestedEntitiesByBrand Sample.degraded (js "materials") (js "u-1") no_options
         Sample.world)
  = Return (VArr [pla_of (js "u-1")])
  /\ Forall (fun d => get_prop d (js "brand") = brand_ref (js "u-1")) [pla_of (js "u-1")]
  /\ fst (@readAllNestedAcrossBrands Sample.degraded (js "materials") no_options Sample.world)
     = Return (VArr [pla_of (js "prusa"); petg_of (js "stale-dir")])
  /\ fst (@readSingleNestedByBrand Sample.degraded (js "materials") (js "u-1") (js "pla")
            Sample.world)
     = Return (VObj [(js "name", VStr (js "PLA")); (js "brand", brand_ref (js "u-1"))])
  /\ fst (@readSingleNestedByBrand Sample.degraded (js "materials") (js "u-1") (js "m-2")
            shelf_world)
     = Return (VObj [(js "name", VStr (js "PETG")); (js "uuid", VStr (js "m-2"));
                     (js "brand", brand_ref (js "u-1"))]).
Proof.
  destruct (@nested_reads_carry_parent_reference Sample.degraded)
    as (Hall & Hone & _ & Hacross).
  split; [by_evaluation|]. split; [|split; [by_evaluation|split]].
  - apply (Hall Sample.world
             (snd (@readNestedEntitiesByBrand Sample.degraded (js "materials") (js "u-1")
                     no_options Sample.world))
             (js "materials") (js "u-1") no_options).
    apply pair_from_fst. by_evaluation.
  - destruct (Hone Sample.world
                (snd (@findBrandDirForNestedEntity Sample.degraded (js "materials") (js "u-1")
                        false Sample.world))
                (js "materials") (js "u-1") (js "pla") prusa_materials) as [Hdirect _];
      [apply pair_from_fst; by_evaluation|].
    destruct (Hdirect (prusa_materials ++ [js "pla.yaml"]) (js ".yaml")
                (js "name: PLA" ++ Sample.nl)) as [Hrun _];
      [apply findEntityFile_eval; by_evaluation | by_evaluation|].
    rewrite Hrun. reflexivity.
  - destruct (Hone shelf_world
                (snd (@findBrandDirForNestedEntity Sample.degraded (js "materials") (js "u-1")
                        false shelf_world))
                (js "materials") (js "u-1") (js "m-2") prusa_materials) as [_ Hscan];
      [apply pair_from_fst; by_evaluation|].
    destruct (Hscan
                (snd (@getEntityFiles Sample.degraded prusa_materials no_options
                        (snd (@findBrandDirForNestedEntity Sample.degraded (js "materials")
                                (js "u-1") false shelf_world))))
                [VObj [(js "__file", VStr (js "pla.yaml")); (js "name", VStr (js "PLA"));
                       (js "uuid", VStr (js "m-1"))]]
                (VObj [(js "__file", VStr (js "petg.yaml")); (js "name", VStr (js "PETG"));
                       (js "uuid", VStr (js "m-2"))])
                []) as [Hrun _].
    + apply findEntityFile_eval. by_evaluation.
    + apply pair_from_fst. by_evaluation.
    + apply List.Forall_cons; [reflexivity | apply List.Forall_nil].
    + reflexivity.
    + rewrite Hrun. reflexivity.
Defined.

(** ** Lookup tables *)

Section LookupTables.
Context {E : Engine}.

Lemma readLookupTable_run w tableName content :
  In tableName NEW_ENUMS ->
  read_ok (w_fs w) (lookup_path (w_cwd w) tableName) = Some content ->
  readLookupTable tableName w
  = (Return (match parseYaml content with
             | VArr _ => lookup_items (parseYaml content)
             | _ => lookup_invalid
             end), w).
Proof.
  intros Hin Hread. unfold readLookupTable.
  rewrite bool_decide_eq_true_2 by by rewrite list_elem_of_In.
  destruct (fs_readFile_run (lookup_path (w_cwd w) tableName) w) as (r & Hr & Hc).
  rewrite Hread in Hc. subst r.
  unfold bind at 1, process_cwd. unfold try_catch, bind. rewrite Hr.
  destruct (parseYaml content); reflexivity.
Qed.


(** An allow-listed table whose file cannot be read is reported as not
    found. *)
Lemma readLookupTable_unreadable w tableName :
  read_ok (w_fs w) (lookup_path (w_cwd w) tableName) = None ->
  readLookupTable tableName w = (Return lookup_not_found, w).
Proof.
  intros Hread. unfold readLookupTable.
  destruct (bool_decide _); [|reflexivity].
  destruct (fs_readFile_run (lookup_path (w_cwd w) tableName) w) as (r & Hr & Hc).
  rewrite Hread in Hc. destruct Hc as [e ->].
  unfold bind at 1, process_cwd. unfold try_catch, bind. by rewrite Hr.
Qed.

(** Without the library every document parses to an object, so every
    lookup table that can be read is reported as invalid. *)
Lemma parseYaml_degraded_is_object content :
  yaml_import = None -> exists props, parseYaml content = VObj props.
Proof.
  intros H. unfold parseYaml, parseYaml_library. rewrite H.
  unfold parseYaml_fallback. eauto.
Qed.

End LookupTables.


(** * Further properties of the module *)

(** ** Slug normaliser: outcomes and shape of the result *)

(** No two adjacent hyphens. *)
Fixpoint no_double_hyphen (s : list N) : bool :=
  match s with
  | a :: t =>
      match t with
      | b :: _ => negb ((a =? c_hyphen)%N && (b =? c_hyphen)%N) && no_double_hyphen t
      | [] => true
      end
  | [] => true
  end.

(** [a-z0-9-] *)
Definition is_slug_unit (c : N) : bool :=
  is_lower_alpha c || is_digit c || (c =? c_hyphen)%N.

Definition is_hyphen (c : N) : bool := (c =? c_hyphen)%N.

Lemma is_space_cases c :
  is_space c = true -> (9 <= c <= 13 \/ c = 32 \/ 160 <= c)%N.
Proof.
  unfold is_space, in_range.
  rewrite !orb_true_iff, !andb_true_iff, !N.leb_le, !N.eqb_eq. lia.
Qed.

Lemma slug_unit_cases c :
  is_slug_unit c = true -> (97 <= c <= 122 \/ 48 <= c <= 57 \/ c = 45)%N.
Proof.
  unfold is_slug_unit, is_lower_alpha, is_digit, in_range, c_hyphen.
  rewrite !orb_true_iff, !andb_true_iff, !N.leb_le, !N.eqb_eq. lia.
Qed.

Lemma slug_unit_not_space c : is_slug_unit c = true -> is_space c = false.
Proof.
  intros H. apply slug_unit_cases in H.
  destruct (is_space c) eqn:Hs; [|reflexivity]. apply is_space_cases in Hs. lia.
Qed.

Lemma slug_unit_not_separator c :
  is_slug_unit c = true -> is_space_or_underscore c = false.
Proof.
  intros H. unfold is_space_or_underscore. rewrite (slug_unit_not_space c H).
  apply slug_unit_cases in H. cbn [orb]. apply N.eqb_neq. unfold c_underscore. lia.
Qed.

Lemma slug_unit_not_mark c : is_slug_unit c = true -> is_combining_mark c = false.
Proof.
  intros H. apply slug_unit_cases in H. unfold is_combining_mark, in_range.
  apply andb_false_iff. left. apply N.leb_gt. lia.
Qed.

Lemma slug_unit_is_slug_char c : is_slug_unit c = true -> is_slug_char c = true.
Proof.
  unfold is_slug_unit, is_slug_char. rewrite !orb_true_iff. tauto.
Qed.

Lemma slug_char_not_separator c :
  is_slug_char c = true -> is_space_or_underscore c = false -> is_slug_unit c = true.
Proof.
  unfold is_slug_char, is_slug_unit, is_space_or_underscore.
  rewrite !orb_true_iff, orb_false_iff. intros [[[H|H]|H]|H] [Hs _]; auto.
  congruence.
Qed.

Lemma remove_all_forall p s : Forall (fun c => p c = false) (remove_all p s).
Proof.
  apply List.Forall_forall. intros c Hc. unfold remove_all in Hc.
  apply filter_In in Hc as [_ Hc]. by apply negb_true_iff.
Qed.

Lemma remove_all_id p s : Forall (fun c => p c = false) s -> remove_all p s = s.
Proof.
  unfold remove_all. induction 1 as [|c t Hc _ IH]; [reflexivity|].
  cbn [List.filter]. rewrite Hc. cbn [negb]. by rewrite IH.
Qed.

(** Collapsing runs leaves the replacement and the units outside the class. *)
Lemma collapse_from_units p rep b s (Q : N -> Prop) :
  Q rep -> Forall (fun c => p c = false -> Q c) s ->
  Forall Q (collapse_from p rep b s).
Proof.
  intros Hrep H. revert b. induction H as [|c t Hc _ IH]; intros b; cbn [collapse_from].
  - constructor.
  - destruct (p c) eqn:Hp.
    + destruct b; [apply IH | constructor; [exact Hrep | apply IH]].
    + constructor; [by apply Hc | apply IH].
Qed.

Lemma collapse_from_id p rep s :
  Forall (fun c => p c = false) s -> forall b, collapse_from p rep b s = s.
Proof.
  induction 1 as [|c t Hc _ IH]; intros b; cbn [collapse_from]; [reflexivity|].
  rewrite Hc. by rewrite IH.
Qed.

(** After hyphen runs are collapsed no two hyphens are adjacent; inside a
    run the result does not begin with a hyphen. *)
Lemma collapse_hyphens_shape s b :
  no_double_hyphen (collapse_from is_hyphen c_hyphen b s) = true
  /\ (b = true -> forall t, collapse_from is_hyphen c_hyphen b s <> c_hyphen :: t).
Proof.
  revert b. induction s as [|c t IH]; intros b; cbn [collapse_from].
  - split; [reflexivity | intros _ ? H; discriminate H].
  - destruct (is_hyphen c) eqn:Hc.
    + destruct b.
      * apply IH.
      * destruct (IH true) as [Hn Hh]. split; [|discriminate].
        cbn [no_double_hyphen].
        destruct (collapse_from is_hyphen c_hyphen true t) as [|x r] eqn:Heq;
          [reflexivity|].
        rewrite Hn, andb_true_r. apply negb_true_iff, andb_false_iff. right.
        apply N.eqb_neq. intros ->. by apply (Hh eq_refl r).
    + destruct (IH false) as [Hn _]. split.
      * cbn [no_double_hyphen].
        destruct (collapse_from is_hyphen c_hyphen false t) as [|x r] eqn:Heq;
          [reflexivity|].
        rewrite Hn, andb_true_r. apply negb_true_iff, andb_false_iff. left. exact Hc.
      * intros _ r [= -> _]. unfold is_hyphen in Hc. by rewrite N.eqb_refl in Hc.
Qed.

Lemma collapse_hyphens_id s :
  no_double_hyphen s = true ->
  collapse_from is_hyphen c_hyphen false s = s
  /\ ((forall t, s <> c_hyphen :: t) -> collapse_from is_hyphen c_hyphen true s = s).
Proof.
  induction s as [|c t IH]; intros Hn; cbn [collapse_from]; [by split|].
  assert (Ht : no_double_hyphen t = true).
  { cbn [no_double_hyphen] in Hn. destruct t; [reflexivity|].
    by apply andb_true_iff in Hn as [_ ?]. }
  destruct (IH Ht) as [IH0 IH1].
  destruct (is_hyphen c) eqn:Hc.
  - unfold is_hyphen in Hc. apply N.eqb_eq in Hc. subst c. split.
    + f_equal. apply IH1. intros r ->. cbn [no_double_hyphen] in Hn.
      unfold c_hyphen in Hn. by rewrite N.eqb_refl in Hn.
    + intros Hh. by destruct (Hh t).
  - split; [by rewrite IH0 | intros _; by rewrite IH0].
Qed.

Lemma drop_spaces_id s : Forall (fun c => is_space c = false) s -> drop_spaces s = s.
Proof. destruct 1 as [|c t Hc _]; [reflexivity|]. cbn. by rewrite Hc. Qed.

Lemma trim_id s : Forall (fun c => is_space c = false) s -> trim s = s.
Proof.
  intros H. unfold trim. rewrite (drop_spaces_id s H).
  rewrite drop_spaces_id; [apply rev_involutive|].
  apply List.Forall_forall. intros c Hc. apply in_rev in Hc.
  by apply (proj1 (List.Forall_forall _ _) H).
Qed.

Section SlugShape.
Context {E : Engine}.

(** X1. The three outcomes of the normaliser: [null] for a falsy input, a
    string for a non-empty string (on either path), and a TypeError for any
    other input (a number, [true], an array, an object), because the
    [catch] block calls [toLowerCase] on it again. *)
Theorem slugifyName_outcomes (input : value) :
  (truthy input = false -> slugifyName input = Return VNull)
  /\ (forall s, input = VStr s -> s <> [] ->
                exists r, slugifyName input = Return (VStr r))
  /\ (truthy input = true -> (forall s, input <> VStr s) ->
      slugifyName input = Throw TypeError).
Proof.
  split; [apply slugifyName_falsy|]. split.
  - intros s -> Hs. by apply slugifyName_string.
  - apply slugifyName_not_a_string.
Qed.

Lemma slugifyName_result s r :
  slugifyName (VStr s) = Return (VStr r) ->
  (exists nfkd, str_normalize_NFKD = Some nfkd
                /\ r = collapse_runs is_hyphen c_hyphen
                         (collapse_runs is_space_or_underscore c_hyphen
                            (remove_all (fun c => negb (is_slug_char c))
                               (trim (str_toLowerCase
                                        (remove_all is_combining_mark (nfkd s)))))))
  \/ (str_normalize_NFKD = None
      /\ r = collapse_runs is_hyphen c_hyphen
               (collapse_runs is_space_or_underscore c_hyphen (str_toLowerCase s))).
Proof.
  unfold slugifyName, slug_primary, slug_fallback.
  destruct s as [|c t]; [discriminate|]. cbn [truthy negb].
  destruct str_normalize_NFKD as [nfkd|]; cbn [ccatch cbind]; intros [= <-].
  - left. by exists nfkd.
  - by right.
Qed.

(** X2. Whatever the runtime's Unicode tables, a slug the normaliser
    returns contains no white space, no underscore and no two adjacent
    hyphens; on the [normalize] path every unit of it is a lower-case
    letter, a digit or a hyphen. *)
Theorem slugifyName_shape (s r : list N) :
  slugifyName (VStr s) = Return (VStr r) ->
  Forall (fun c => is_space_or_underscore c = false) r
  /\ no_double_hyphen r = true
  /\ (str_normalize_NFKD <> None -> Forall (fun c => is_slug_unit c = true) r).
Proof.
  intros H. destruct (slugifyName_result s r H) as [(nfkd & Hn & ->)|[Hn ->]].
  - split; [|split].
    + apply collapse_from_units; [reflexivity|].
      apply List.Forall_forall. intros c Hc _. revert c Hc. apply List.Forall_forall.
      apply collapse_from_units; [reflexivity|].
      apply List.Forall_forall. by intros c _ Hc.
    + apply collapse_hyphens_shape.
    + intros _. apply collapse_from_units; [reflexivity|].
      apply List.Forall_forall. intros c Hc _. revert c Hc. apply List.Forall_forall.
      apply collapse_from_units; [reflexivity|].
      eapply Forall_impl; [apply remove_all_forall|].
      intros c Hc Hsep. apply negb_false_iff in Hc. by apply slug_char_not_separator.
  - split; [|split].
    + apply collapse_from_units; [reflexivity|].
      apply List.Forall_forall. intros c Hc _. revert c Hc. apply List.Forall_forall.
      apply collapse_from_units; [reflexivity|].
      apply List.Forall_forall. by intros c _ Hc.
    + apply collapse_hyphens_shape.
    + intros Hne. by destruct Hne.
Qed.

(** X3. A non-empty string of lower-case letters, digits and single
    hyphens is a fixed point of the normaliser on the [normalize] path,
    provided the runtime's NFKD and lower-casing leave that string alone
    (as they do for ASCII text). *)
Theorem slugifyName_fixes_slugs (nfkd : list N -> list N) (s : list N) :
  str_normalize_NFKD = Some nfkd ->
  nfkd s = s -> str_toLowerCase s = s ->
  s <> [] ->
  Forall (fun c => is_slug_unit c = true) s -> no_double_hyphen s = true ->
  slugifyName (VStr s) = Return (VStr s).
Proof.
  intros Hn Hd Hl Hne Hunits Hhy.
  unfold slugifyName, slug_primary. destruct s as [|c t]; [done|].
  cbn [truthy negb]. rewrite Hn. cbn [ccatch cbind]. rewrite Hd.
  rewrite (remove_all_id is_combining_mark).
  2:{ eapply Forall_impl; [exact Hunits|]. apply slug_unit_not_mark. }
  rewrite Hl. rewrite trim_id.
  2:{ eapply Forall_impl; [exact Hunits|]. apply slug_unit_not_space. }
  rewrite remove_all_id.
  2:{ eapply Forall_impl; [exact Hunits|]. intros x Hx.
      by rewrite (slug_unit_is_slug_char x Hx). }
  unfold collapse_runs. rewrite (collapse_from_id is_space_or_underscore).
  2:{ eapply Forall_impl; [exact Hunits|]. apply slug_unit_not_separator. }
  change (fun c0 : N => (c0 =? c_hyphen)%N) with is_hyphen.
  by rewrite (proj1 (collapse_hyphens_id _ Hhy)).
Qed.

End SlugShape.

Lemma slugifyName_outcomes_witness :
  @slugifyName Sample.degraded (VStr []) = Return VNull
  /\ (exists r, @slugifyName Sample.legacy (VStr (js "A b")) = Return (VStr r))
  /\ @slugifyName Sample.degraded (VArr [VStr (js "PLA")]) = Throw TypeError.
Proof.
  split; [|split].
  - apply (@slugifyName_outcomes Sample.degraded (VStr [])). reflexivity.
  - apply (proj1 (proj2 (@slugifyName_outcomes Sample.legacy (VStr (js "A b"))))
             (js "A b") eq_refl).
    discriminate.
  - apply (@slugifyName_outcomes Sample.degraded (VArr [VStr (js "PLA")]));
      [reflexivity | discriminate].
Defined.

Lemma slugifyName_shape_witness :
  Forall (fun c => is_space_or_underscore c = false) (js "-ab-1")
  /\ no_double_hyphen (js "-ab-1") = true
  /\ (@str_normalize_NFKD Sample.degraded <> None ->
      Forall (fun c => is_slug_unit c = true) (js "-ab-1")).
Proof.
  apply (@slugifyName_shape Sample.degraded (js " ! A__b --_ 1")). reflexivity.
Defined.

Lemma slugifyName_fixes_slugs_witness :
  @slugifyName Sample.degraded (VStr (js "prusament-pla-2")) = Return (VStr (js "prusament-pla-2")).
Proof.
  apply (@slugifyName_fixes_slugs Sample.degraded Sample.nfkd_latin1);
    try reflexivity; [discriminate|].
  repeat (apply List.Forall_cons; [reflexivity|]). apply List.Forall_nil.
Defined.

(** ** Degraded parser: the shape of what it returns *)

Definition null_or_string (v : value) : Prop := v = VNull \/ exists s, v = VStr s.

Lemma obj_set_key_in k v props k' :
  In k' (List.map fst (obj_set k v props)) <-> k' = k \/ In k' (List.map fst props).
Proof.
  induction props as [|[k0 v0] rest IH]; cbn [obj_set List.map fst In].
  - split; [intros [<-|[]]; by left | intros [->|[]]; by left].
  - destruct (str_eqb k0 k) eqn:H0; cbn [List.map fst In].
    + apply str_eqb_eq in H0. subst k0. split; [tauto | intros [->|H]; tauto].
    + rewrite IH. tauto.
Qed.

Lemma obj_set_NoDup k v props :
  List.NoDup (List.map fst props) -> List.NoDup (List.map fst (obj_set k v props)).
Proof.
  induction props as [|[k0 v0] rest IH]; cbn [obj_set List.map fst]; intros Hnd.
  - apply List.NoDup_cons; [intros [] | apply List.NoDup_nil].
  - apply List.NoDup_cons_iff in Hnd as [Hk0 Hrest].
    destruct (str_eqb k0 k) eqn:H0; cbn [List.map fst].
    + by apply List.NoDup_cons.
    + apply List.NoDup_cons; [|by apply IH].
      rewrite obj_set_key_in. intros [->|H]; [|done].
      unfold str_eqb in H0. by rewrite bool_decide_eq_true_2 in H0.
Qed.

Lemma obj_set_values (Q : value -> Prop) k v props :
  Q v -> Forall (fun kv => Q (snd kv)) props ->
  Forall (fun kv => Q (snd kv)) (obj_set k v props).
Proof.
  intros Hv. induction 1 as [|[k0 v0] rest H0 Hrest IH]; cbn [obj_set].
  - apply List.Forall_cons; [exact Hv | apply List.Forall_nil].
  - destruct (str_eqb k0 k); apply List.Forall_cons; auto.
Qed.

(** The invariant of the parsing loop. *)
Definition flat_object (props : list (list N * value)) : Prop :=
  List.NoDup (List.map fst props)
  /\ Forall (fun kv => null_or_string (snd kv)) props.

(** The line assigns [null] to the key [__proto__]. *)
Definition nulls_prototype (rawLine : list N) : bool :=
  let line := trim rawLine in
  negb (starts_with (js "#") line)
  && match cut_at_colon line with
     | Some (k, v) =>
         str_eqb (trim k) (js "__proto__")
         && (str_eqb (trim v) (js "null") || str_eqb (trim v) (js "~"))
     | None => false
     end.

Lemma assign_key_flat key val st :
  null_or_string val -> flat_object (snd st) -> flat_object (snd (assign_key key val st)).
Proof.
  intros Hval [Hnd Hv]. destruct st as [bare obj]. unfold assign_key.
  destruct (str_eqb key (js "__proto__") && negb bare).
  - by destruct val.
  - split; [by apply obj_set_NoDup | by apply obj_set_values].
Qed.

Lemma parse_line_flat st rawLine :
  flat_object (snd st) -> flat_object (snd (parse_line st rawLine)).
Proof.
  intros Hflat. unfold parse_line.
  destruct (trim rawLine) as [|c t]; [exact Hflat|].
  destruct (starts_with (js "#") (c :: t)); [exact Hflat|].
  destruct (cut_at_colon (c :: t)) as [[k v]|]; [|exact Hflat].
  apply assign_key_flat; [|exact Hflat].
  destruct (_ || _); [by left|]. destruct (is_quoted _); right; eauto.
Qed.

Lemma parseYaml_fallback_is_flat_helper content :
  exists props, parseYaml_fallback content = VObj props /\ flat_object props.
Proof.
  unfold parseYaml_fallback, parse_state. eexists. split; [reflexivity|].
  assert (Hgen : forall lines st,
             flat_object (snd st) -> flat_object (snd (fold_left parse_line lines st))).
  { induction lines as [|l ls IH]; intros st Hst; [exact Hst|].
    cbn [fold_left]. by apply IH, parse_line_flat. }
  apply Hgen. split; [apply List.NoDup_nil | constructor].
Qed.

(** The prototype stays in place, and no own [__proto__] key arises, over
    a line that does not assign [null] to [__proto__]. *)
Lemma parse_line_keeps_prototype st rawLine :
  nulls_prototype rawLine = false ->
  fst st = false /\ ~ In (js "__proto__") (List.map fst (snd st)) ->
  fst (parse_line st rawLine) = false
  /\ ~ In (js "__proto__") (List.map fst (snd (parse_line st rawLine))).
Proof.
  unfold nulls_prototype, parse_line. intros Hline Hst.
  destruct (trim rawLine) as [|c t]; [exact Hst|].
  destruct (starts_with (js "#") (c :: t)); [exact Hst|].
  destruct (cut_at_colon (c :: t)) as [[k v]|]; [|exact Hst].
  cbn [negb andb] in Hline. cbv zeta.
  destruct st as [bare obj]. destruct Hst as [Hbare Hkeys]. cbn [fst snd] in *. subst bare.
  unfold assign_key. destruct (str_eqb (trim k) (js "__proto__")) eqn:Hk; cbn [andb negb].
  - cbn [andb] in Hline. rewrite Hline. by destruct (is_quoted (trim v)).
  - cbn [fst snd]. split; [reflexivity|]. rewrite obj_set_key_in. intros [H|H]; [|done].
    unfold str_eqb in Hk. by rewrite bool_decide_eq_true_2 in Hk.
Qed.

(** X4. The degraded parser returns, for every text, an object whose keys
    are pairwise distinct and whose values are all [null] or strings (no
    number, boolean, array or nested object). The object has no own
    [__proto__] key unless some line of the text assigns [null] to
    [__proto__]: such a line removes the prototype, after which
    [__proto__] is an ordinary key. *)
Theorem parseYaml_fallback_is_flat (content : list N) :
  exists props,
    parseYaml_fallback content = VObj props
    /\ flat_object props
    /\ (existsb nulls_prototype (split_lines content) = false ->
        ~ In (js "__proto__") (List.map fst props)).
Proof.
  destruct (parseYaml_fallback_is_flat_helper content) as (props & Hprops & Hflat).
  exists props. split; [exact Hprops|]. split; [exact Hflat|].
  unfold parseYaml_fallback, parse_state in Hprops. injection Hprops as <-.
  assert (Hgen : forall lines st,
             existsb nulls_prototype lines = false ->
             fst st = false /\ ~ In (js "__proto__") (List.map fst (snd st)) ->
             ~ In (js "__proto__") (List.map fst (snd (fold_left parse_line lines st)))).
  { induction lines as [|l ls IH]; intros st Hlines Hst; [by destruct Hst|].
    cbn [existsb] in Hlines. apply orb_false_iff in Hlines as [Hl Hls].
    cbn [fold_left]. apply IH; [exact Hls|]. by apply parse_line_keeps_prototype. }
  intros Hlines. apply Hgen; [exact Hlines|]. split; [reflexivity | intros []].
Qed.

(** A text with a plain [__proto__] line gives no such key; after a line
    [__proto__: null] a second [__proto__] line gives an own key. *)
Lemma parseYaml_fallback_is_flat_witness :
  ~ In (js "__proto__")
      (List.map fst (snd (parse_state (js "name: A" ++ [c_newline] ++ js "__proto__: x")))).
Proof.
  destruct (parseYaml_fallback_is_flat (js "name: A" ++ [c_newline] ++ js "__proto__: x"))
    as (props & Hprops & _ & Hnone).
  injection Hprops as <-. apply Hnone. reflexivity.
Defined.

Example own_prototype_key :
  parseYaml_fallback (js "__proto__: null" ++ [c_newline] ++ js "__proto__: x")
  = VObj [(js "__proto__", VStr (js "x"))]
  /\ fst (parse_state (js "__proto__: null" ++ [c_newline] ++ js "__proto__: x")) = true.
Proof. split; reflexivity. Qed.

Lemma assign_all_origin k v src dst :
  assoc_get k (assign_all src dst) = Some v ->
  In (k, v) src \/ assoc_get k dst = Some v.
Proof.
  unfold assign_all. revert dst.
  induction src as [|[k0 v0] rest IH]; intros dst; cbn [fold_left fst snd]; [by right|].
  intros H. destruct (IH _ H) as [Hin|Hd]; [left; by right|].
  rewrite assoc_get_obj_set in Hd. destruct (str_eqb k0 k) eqn:H0; [|by right].
  apply str_eqb_eq in H0. injection Hd as <-. subst k0. left. by left.
Qed.

Lemma to_String_null_or_string v : null_or_string v -> exists u, to_String v = Return u.
Proof. intros [->|[s ->]]; cbn; eauto. Qed.

Section DegradedMode.
Context {E : Engine}.

Lemma parseYaml_degraded content :
  yaml_import = None -> parseYaml content = parseYaml_fallback content.
Proof. intros H. unfold parseYaml, parseYaml_library. by rewrite H. Qed.

Lemma flat_document_field file props k :
  Forall (fun kv => null_or_string (snd kv)) props ->
  k <> js "__file" ->
  get_prop (with_source_file file (VObj props)) k = VUndef
  \/ null_or_string (get_prop (with_source_file file (VObj props)) k).
Proof.
  intros Hv Hk. unfold with_source_file, get_prop. cbn [spread_props].
  destruct (assoc_get k (assign_all props _)) as [v|] eqn:Hget; [|by left].
  right. cbn [default]. apply assign_all_origin in Hget as [Hin|Hd].
  - by apply (proj1 (List.Forall_forall _ _) Hv (k, v)).
  - cbn [assoc_get] in Hd. destruct (str_eqb (js "__file") k) eqn:H0; [|discriminate].
    apply str_eqb_eq in H0. congruence.
Qed.

(** X5. Without the [yaml] package matching never raises: every document
    a scan produces has a [name] that is absent, [null] or a string and a
    [uuid] with a string form, so [matchesId] returns a boolean on it for
    every identifier. *)
Theorem degraded_scan_never_raises (fs : gmap (list (list N)) node)
  (dir : list (list N)) (opts : ReadOptions) (d : value) (id : option (list N)) :
  yaml_import = None ->
  In d (scan fs dir opts) ->
  safe_to_match d /\ exists b, matchesId d id = Return b.
Proof.
  intros Hlib Hd.
  destruct (scan_documents fs dir opts d Hd) as (file & content & _ & _ & _ & ->).
  rewrite (parseYaml_degraded content Hlib).
  destruct (parseYaml_fallback_is_flat_helper content) as (props & -> & Hflat).
  assert (Hsafe : safe_to_match (with_source_file file (VObj props))).
  { destruct Hflat as (_ & Hv). split.
    - unfold name_is_text.
      destruct (flat_document_field file props (js "name") Hv ltac:(discriminate))
        as [->|[->|[s ->]]]; [by left | by left | right; eauto].
    - destruct (flat_document_field file props (js "uuid") Hv ltac:(discriminate))
        as [->|H]; [cbn; eauto | by apply to_String_null_or_string]. }
  split; [exact Hsafe|].
  destruct id as [[|c t]|]; [by exists false | | by exists false].
  destruct Hsafe as [Hname [u Hu]].
  destruct (slugifyName_text _ Hname) as [ns Hns].
  rewrite (matchesId_unfold (with_source_file file (VObj props)) (c :: t) ns
             ltac:(discriminate) eq_refl Hns).
  rewrite Hu. cbn [cbind].
  repeat match goal with |- context [if ?b then _ else _] => destruct b end; eauto.
Qed.

End DegradedMode.

Lemma degraded_scan_never_raises_witness :
  safe_to_match (VObj [(js "__file", VStr (js "ghost.yaml"))])
  /\ exists b, @matchesId Sample.degraded (VObj [(js "__file", VStr (js "ghost.yaml"))])
                 (Some (js "ghost")) = Return b.
Proof.
  apply (@degraded_scan_never_raises Sample.degraded (w_fs Sample.world) brands_dir
           no_options); [reflexivity|].
  evaluate_scan. right. right. left. reflexivity.
Defined.

(** ** Readers leave the file system alone *)

(** A computation that changes neither the file system nor the working
    directory, whatever it returns or raises. *)
Definition keeps_fs {A} (m : M A) : Prop :=
  forall w r w', m w = (r, w') -> w_fs w' = w_fs w /\ w_cwd w' = w_cwd w.

Lemma keeps_ret {A} (a : A) : keeps_fs (ret a).
Proof. intros w r w' [= _ <-]. by split. Qed.

Lemma keeps_throw {A} e : keeps_fs (@throw A e).
Proof. intros w r w' [= _ <-]. by split. Qed.

Lemma keeps_lift {A} (c : completion A) : keeps_fs (lift c).
Proof. intros w r w' [= _ <-]. by split. Qed.

Lemma keeps_bind {A B} (m : M A) (k : A -> M B) :
  keeps_fs m -> (forall a, keeps_fs (k a)) -> keeps_fs (bind m k).
Proof.
  intros Hm Hk w r w' H. unfold bind in H.
  destruct (m w) as [[a|e] w1] eqn:Hmw; destruct (Hm _ _ _ Hmw) as [H1 H2].
  - destruct (Hk a _ _ _ H) as [H3 H4]. split; congruence.
  - injection H as _ <-. by split.
Qed.

Lemma keeps_try_catch {A} (m : M A) h :
  keeps_fs m -> (forall e, keeps_fs (h e)) -> keeps_fs (try_catch m h).
Proof.
  intros Hm Hh w r w' H. unfold try_catch in H.
  destruct (m w) as [[a|e] w1] eqn:Hmw; destruct (Hm _ _ _ Hmw) as [H1 H2].
  - injection H as _ <-. by split.
  - destruct (Hh e _ _ _ H) as [H3 H4]. split; congruence.
Qed.

Lemma keeps_process_cwd : keeps_fs process_cwd.
Proof. intros w r w' [= _ <-]. by split. Qed.

Lemma keeps_console_warn msg : keeps_fs (console_warn msg).
Proof. intros w r w' [= _ <-]. by split. Qed.

Lemma keeps_fs_node p : keeps_fs (fs_node p).
Proof.
  intros w r w' H. unfold fs_node in H.
  destruct (w_fs w !! p); injection H as _ <-; by split.
Qed.

Ltac keeps_step :=
  first
    [ apply keeps_ret | apply keeps_throw | apply keeps_lift
    | apply keeps_process_cwd | apply keeps_console_warn | apply keeps_fs_node
    | assumption
    | apply keeps_bind; [|intros ?]
    | apply keeps_try_catch; [|intros ?]
    | match goal with
      | |- keeps_fs (match ?x with _ => _ end) => destruct x
      | |- keeps_fs (if ?b then _ else _) => destruct b
      | |- keeps_fs (let _ := _ in _) => cbv zeta
      end ].

Ltac keeps := repeat keeps_step.

Lemma keeps_fs_stat p : keeps_fs (fs_stat_isDirectory p).
Proof. unfold fs_stat_isDirectory. keeps. Qed.

Lemma keeps_fs_access p : keeps_fs (fs_access p).
Proof. unfold fs_access. keeps. Qed.

Lemma keeps_fs_readFile p : keeps_fs (fs_readFile p).
Proof. unfold fs_readFile. keeps. Qed.

Lemma keeps_fs_readdir p : keeps_fs (fs_readdir p).
Proof. unfold fs_readdir. keeps. Qed.

Lemma keeps_first_directory cands : keeps_fs (first_directory cands).
Proof.
  induction cands as [|p rest IH]; cbn [first_directory]; keeps.
Qed.

Lemma keeps_findEntityDir entity : keeps_fs (findEntityDir entity false).
Proof. unfold findEntityDir. keeps; try apply keeps_first_directory. Qed.

Lemma keeps_findEntityFile dir id : keeps_fs (findEntityFile dir id).
Proof. unfold findEntityFile. keeps. Qed.

Section ReadersKeepFs.
Context {E : Engine}.

Lemma keeps_load_files dir opts files results : keeps_fs (load_files dir opts files results).
Proof.
  revert results. induction files as [|f rest IH]; intros results; cbn [load_files].
  - keeps.
  - apply keeps_bind; [|intros ?; apply IH]. keeps.
Qed.

Ltac keeps_more :=
  keeps;
  try first [apply keeps_load_files | apply keeps_first_directory
            | apply keeps_findEntityDir | apply keeps_findEntityFile].

Lemma keeps_getEntityFiles dir opts : keeps_fs (getEntityFiles dir opts).
Proof.
  unfold getEntityFiles. keeps_more; try apply keeps_load_files.
Qed.

Lemma keeps_read_direct dir id : keeps_fs (read_direct dir id).
Proof.
  unfold read_direct. keeps_more; try apply keeps_findEntityFile.
Qed.

Lemma keeps_readSingleEntity entity id : keeps_fs (readSingleEntity entity id).
Proof.
  unfold readSingleEntity. keeps_more;
    try first [apply keeps_findEntityDir | apply keeps_read_direct
              | apply keeps_getEntityFiles].
Qed.

Lemma keeps_findBrandDir brandId entityDirName :
  keeps_fs (findBrandDir brandId entityDirName false).
Proof.
  unfold findBrandDir. keeps_more;
    try first [apply keeps_findEntityDir | apply keeps_readSingleEntity].
Qed.

Lemma keeps_read_brand_dirs root opts entries results :
  keeps_fs (read_brand_dirs root opts entries results).
Proof.
  revert results. induction entries as [|e rest IH]; intros results;
    cbn [read_brand_dirs]; keeps_more;
    try first [apply keeps_getEntityFiles | apply IH].
Qed.

Lemma keeps_count_yaml_files dir : keeps_fs (count_yaml_files dir).
Proof. unfold count_yaml_files. keeps_more. Qed.

(** X6. No read operation of the module changes the file system or the
    working directory, whether it returns a value, an error descriptor or
    raises: the readers of one record and of collections, flat and nested,
    the counters, the lookup-table reader, and brand-directory resolution
    without [createIfMissing]. *)
Theorem readers_keep_file_system :
  (forall entity opts, keeps_fs (readAllEntities entity opts))
  /\ (forall entity id, keeps_fs (readSingleEntity entity id))
  /\ (forall entity, keeps_fs (countEntities entity))
  /\ (forall brandId entityDirName, keeps_fs (findBrandDir brandId entityDirName false))
  /\ (forall entityDirName brandId opts,
        keeps_fs (readNestedEntitiesByBrand entityDirName brandId opts))
  /\ (forall entityDirName opts, keeps_fs (readAllNestedAcrossBrands entityDirName opts))
  /\ (forall entityDirName brandId id,
        keeps_fs (readSingleNestedByBrand entityDirName brandId id))
  /\ (forall entityDirName brandId,
        keeps_fs (countNestedEntitiesByBrand entityDirName brandId))
  /\ (forall tableName, keeps_fs (readLookupTable tableName)).
Proof.
  split; [|split; [|split; [|split; [|split; [|split; [|split; [|split]]]]]]].
  - intros. unfold readAllEntities. keeps_more;
      try first [apply keeps_findEntityDir | apply keeps_getEntityFiles].
  - apply keeps_readSingleEntity.
  - intros. unfold countEntities. keeps_more;
      try first [apply keeps_findEntityDir | apply keeps_count_yaml_files].
  - apply keeps_findBrandDir.
  - intros. unfold readNestedEntitiesByBrand, findBrandDirForNestedEntity. keeps_more;
      try first [apply keeps_findBrandDir | apply keeps_getEntityFiles].
  - intros. unfold readAllNestedAcrossBrands. keeps_more;
      try first [apply keeps_findEntityDir | apply keeps_read_brand_dirs].
  - intros. unfold readSingleNestedByBrand, findBrandDirForNestedEntity. keeps_more;
      try first [apply keeps_findBrandDir | apply keeps_read_direct
                | apply keeps_getEntityFiles].
  - intros. unfold countNestedEntitiesByBrand, findBrandDirForNestedEntity. keeps_more;
      try first [apply keeps_findBrandDir | apply keeps_count_yaml_files].
  - intros. unfold readLookupTable. keeps_more.
Qed.

End ReadersKeepFs.

(** ** Counting and listing *)

Section Counting.
Context {E : Engine}.

Lemma count_yaml_files_run dir w :
  count_yaml_files dir w = (Return (length (List.filter has_yaml_ext (listing (w_fs w) dir))), w).
Proof.
  unfold count_yaml_files, listing.
  destruct (fs_readdir_run dir w) as (r & Hr & Hc).
  unfold try_catch, bind. rewrite Hr.
  destruct (w_fs w !! dir) as [[? ? ?|wr es]|].
  - destruct Hc as [e ->]. reflexivity.
  - subst r. reflexivity.
  - destruct Hc as [e ->]. reflexivity.
Qed.

Lemma yaml_files_no_options fs dir :
  yaml_files fs dir no_options = List.filter has_yaml_ext (listing fs dir).
Proof.
  unfold yaml_files. apply filter_ext. intros f. cbn. apply andb_true_r.
Qed.

(** Without a content filter each candidate file yields a document or a
    warning, never both and never neither. *)
Lemma scan_partition fs dir files :
  length (omap (scan_file fs dir no_options) files)
  + length (scan_warnings fs dir files)
  = length files.
Proof.
  unfold scan_warnings. rewrite length_map.
  induction files as [|f rest IH]; [reflexivity|].
  cbn [omap list_omap List.filter]. unfold scan_file at 1. cbn [validate no_options].
  destruct (read_ok fs (path_join dir f)) as [c|].
  - rewrite bool_decide_eq_false_2 by done. cbn [length]. lia.
  - rewrite bool_decide_eq_true_2 by done. cbn [length]. lia.
Qed.

(** X7. For an entity type whose directory resolves, [countEntities]
    returns the number of directory entries with a YAML extension, and
    [readAllEntities] without options returns an array that, together with
    the warnings it prints, accounts for exactly that many entries: the
    count exceeds the number of documents by the number of entries that
    cannot be read (a sub-directory named [x.yaml], an unreadable file). *)
Theorem count_and_read_all_agree (w : World) (entity : list N) (dir : list (list N)) :
  findEntityDir entity false w = (Return (Some dir), w) ->
  exists (n : nat) (docs : list value) (warnings : list (list N)),
    countEntities entity w = (Return n, w)
    /\ readAllEntities entity no_options w = (Return (VArr docs), log warnings w)
    /\ n = length (List.filter has_yaml_ext (listing (w_fs w) dir))
    /\ length docs + length warnings = n.
Proof.
  intros Hdir.
  exists (length (List.filter has_yaml_ext (listing (w_fs w) dir))),
         (scan (w_fs w) dir no_options),
         (scan_warnings (w_fs w) dir (yaml_files (w_fs w) dir no_options)).
  split; [|split; [|split]].
  - unfold countEntities. rewrite (bind_run _ _ _ _ _ Hdir). apply count_yaml_files_run.
  - unfold readAllEntities. rewrite (bind_run _ _ _ _ _ Hdir).
    by rewrite (bind_run _ _ _ _ _ (getEntityFiles_run dir no_options w)).
  - reflexivity.
  - unfold scan. rewrite scan_partition. by rewrite yaml_files_no_options.
Qed.

(** With no directory for the entity type the count is zero and the
    listing is the 500 descriptor. *)
Lemma count_and_read_all_without_directory w entity :
  findEntityDir entity false w = (Return None, w) ->
  countEntities entity w = (Return 0, w)
  /\ readAllEntities entity no_options w
     = (Return (api_error (entity ++ js " directory not found") 500), w).
Proof.
  intros Hdir. unfold countEntities, readAllEntities.
  rewrite !(bind_run _ _ _ _ _ Hdir). by split.
Qed.

End Counting.

Lemma count_and_read_all_agree_witness :
  exists (n : nat) (docs : list value) (warnings : list (list N)),
    countEntities (js "brands") Sample.world = (Return n, Sample.world)
    /\ @readAllEntities Sample.degraded (js "brands") no_options Sample.world
       = (Return (VArr docs), log warnings Sample.world)
    /\ n = length (List.filter has_yaml_ext (listing (w_fs Sample.world) brands_dir))
    /\ length docs + length warnings = n.
Proof.
  apply (@count_and_read_all_agree Sample.degraded).
  apply findEntityDir_eval. by_evaluation.
Defined.

(** In the sample world: four entries, three documents, one warning. *)
Example count_exceeds_documents :
  fst (countEntities (js "brands") Sample.world) = Return 4
  /\ length (@scan Sample.degraded (w_fs Sample.world) brands_dir no_options) = 3.
Proof. split; by_evaluation. Qed.

(** ** Writing and deleting through the direct path *)

Lemma is_dir_insert_file (fs : gmap (list (list N)) node) fp rd wr old rd' wr' content p :
  fs !! fp = Some (File rd wr old) ->
  is_dir (<[fp := File rd' wr' content]> fs) p = is_dir fs p.
Proof.
  intros Hfp. unfold is_dir. destruct (decide (fp = p)) as [<-|Hne].
  - by rewrite lookup_insert_eq, Hfp.
  - by rewrite lookup_insert_ne.
Qed.

Lemma entity_dir_same_dirs w w' entity :
  w_cwd w' = w_cwd w -> (forall p, is_dir (w_fs w') p = is_dir (w_fs w) p) ->
  entity_dir w' entity = entity_dir w entity.
Proof.
  intros Hcwd Hdirs. unfold entity_dir. rewrite Hcwd.
  induction (entity_candidates (w_cwd w) entity) as [|c cs IH]; [reflexivity|].
  cbn [List.find]. by rewrite Hdirs, IH.
Qed.

Lemma probe_insert_existing (fs : gmap (list (list N)) node) fp n n' dir id :
  fs !! fp = Some n -> probe (<[fp := n']> fs) dir id = probe fs dir id.
Proof.
  intros Hfp.
  assert (Hsame : forall p, (<[fp := n']> fs !! p = None) <-> (fs !! p = None)).
  { intros p. destruct (decide (fp = p)) as [<-|Hne].
    - rewrite lookup_insert_eq, Hfp. split; discriminate.
    - by rewrite lookup_insert_ne. }
  unfold probe.
  destruct (<[fp:=n']> fs !! path_join dir (id ++ js ".yaml")) eqn:H1;
    destruct (fs !! path_join dir (id ++ js ".yaml")) eqn:H2; try reflexivity;
    try (apply Hsame in H1; congruence); try (apply Hsame in H2; congruence).
  destruct (<[fp:=n']> fs !! path_join dir (id ++ js ".yml")) eqn:H3;
    destruct (fs !! path_join dir (id ++ js ".yml")) eqn:H4; try reflexivity;
    try (apply Hsame in H3; congruence); try (apply Hsame in H4; congruence).
Qed.

Section DirectUpdates.
Context {E : Engine}.

Lemma updateEntityFile_direct dir id newValue w fp ext w' :
  probe (w_fs w) dir id = Some (fp, ext) ->
  apply_update fp newValue w = (Return tt, w') ->
  updateEntityFile dir id newValue w = (Return api_ok, w').
Proof.
  intros Hprobe Hupd. unfold updateEntityFile.
  rewrite (bind_run _ _ _ _ _ (findEntityFile_run dir id w)). rewrite Hprobe.
  unfold bind at 1. unfold try_catch, bind. rewrite Hupd. reflexivity.
Qed.

Lemma apply_update_writes fp newValue s w rd old :
  newValue <> VNull ->
  stringifyYaml newValue = Return s ->
  w_fs w !! fp = Some (File rd true old) ->
  apply_update fp newValue w
  = (Return tt, with_fs (<[fp := File rd true s]> (w_fs w)) w).
Proof.
  intros Hnn Hs Hfp.
  assert (Hgen : apply_update fp newValue
                 = (yamlStr <- lift (stringifyYaml newValue) ;; fs_writeFile fp yamlStr))
    by (destruct newValue; try reflexivity; done).
  rewrite Hgen. unfold bind, lift. rewrite Hs. unfold fs_writeFile. by rewrite Hfp.
Qed.

(** X8. Writing a non-null document to a record whose file exists and is
    writable succeeds through the direct path: the call returns
    [{ ok: true }], the file then holds the serialised document, no other
    path of the file system changes, and reading the record back returns
    the parse of that serialisation. *)
Theorem write_then_read_back (w : World) (entity id : list N) (newValue : value)
  (dir fp : list (list N)) (ext s old : list N) :
  findEntityDir entity false w = (Return (Some dir), w) ->
  findEntityFile dir id w = (Return (Some (fp, ext)), w) ->
  w_fs w !! fp = Some (File true true old) ->
  newValue <> VNull ->
  stringifyYaml newValue = Return s ->
  exists w',
    writeSingleEntity entity id newValue w = (Return api_ok, w')
    /\ w_fs w' !! fp = Some (File true true s)
    /\ (forall p, p <> fp -> w_fs w' !! p = w_fs w !! p)
    /\ readSingleEntity entity id w' = (Return (parseYaml s), w').
Proof.
  intros Hdir Hfile Hfp Hnn Hs.
  rewrite findEntityFile_run in Hfile. injection Hfile as Hprobe.
  exists (with_fs (<[fp := File true true s]> (w_fs w)) w).
  split; [|split; [|split]].
  - unfold writeSingleEntity. rewrite (bind_run _ _ _ _ _ Hdir).
    apply (updateEntityFile_direct dir id newValue w fp ext); [exact Hprobe|].
    by apply (apply_update_writes fp newValue s w true old).
  - cbn [with_fs w_fs]. apply lookup_insert_eq.
  - intros p Hp. cbn [with_fs w_fs]. by apply lookup_insert_ne.
  - set (w' := with_fs _ w).
    assert (Hdir' : findEntityDir entity false w' = (Return (Some dir), w')).
    { apply findEntityDir_eval. rewrite findEntityDir_run in Hdir.
      injection Hdir as Hdir. rewrite <- Hdir.
      apply entity_dir_same_dirs; [reflexivity|]. intros p.
      by apply (is_dir_insert_file (w_fs w) fp true true old). }
    rewrite (readSingleEntity_run entity id w' dir Hdir').
    unfold direct_content. cbn [w' with_fs w_fs].
    rewrite (probe_insert_existing (w_fs w) fp _ _ dir id Hfp), Hprobe.
    unfold read_ok. rewrite lookup_insert_eq. reflexivity.
Qed.

(** X9. Deleting a record whose file exists in a writable directory
    succeeds through the direct path: the call returns [{ ok: true }], the
    file is gone, its name is removed from the listing of its directory,
    and nothing else changes. *)
Theorem delete_removes_the_file (w : World) (entity id : list N)
  (dir fp : list (list N)) (ext content : list N) (rd wr : bool) (entries : list (list N)) :
  findEntityDir entity false w = (Return (Some dir), w) ->
  findEntityFile dir id w = (Return (Some (fp, ext)), w) ->
  w_fs w !! fp = Some (File rd wr content) ->
  w_fs w !! parent fp = Some (Dir true entries) ->
  exists w',
    deleteSingleEntity entity id w = (Return api_ok, w')
    /\ w_fs w' !! fp = None
    /\ w_fs w' !! parent fp
       = Some (Dir true (List.filter (fun e => negb (str_eqb e (basename fp))) entries))
    /\ (forall p, p <> fp -> p <> parent fp -> w_fs w' !! p = w_fs w !! p).
Proof.
  intros Hdir Hfile Hfp Hparent.
  rewrite findEntityFile_run in Hfile. injection Hfile as Hprobe.
  assert (Hne : parent fp <> fp) by (intros Heq; rewrite Heq in Hparent; congruence).
  exists (with_fs (alter (remove_entry (basename fp)) (parent fp) (delete fp (w_fs w))) w).
  split; [|split; [|split]].
  - unfold deleteSingleEntity. rewrite (bind_run _ _ _ _ _ Hdir).
    apply (updateEntityFile_direct dir id VNull w fp ext); [exact Hprobe|].
    cbn [apply_update]. unfold fs_unlink. by rewrite Hfp, Hparent.
  - cbn [with_fs w_fs]. rewrite lookup_alter_ne by done. apply lookup_delete_eq.
  - cbn [with_fs w_fs]. rewrite lookup_alter_eq, lookup_delete_ne by done.
    by rewrite Hparent.
  - intros p Hp Hpp. cbn [with_fs w_fs].
    rewrite lookup_alter_ne by done. by rewrite lookup_delete_ne.
Qed.

End DirectUpdates.

Definition odd_update : value := VObj [(js "name", VStr (js "Odd")); (js "slug", VStr (js "odd"))].

Lemma write_then_read_back_witness :
  exists w',
    @writeSingleEntity Sample.degraded (js "brands") (js "odd") odd_update Sample.world
    = (Return api_ok, w')
    /\ w_fs w' !! (brands_dir ++ [js "odd.yaml"])
       = Some (File true true (json_fallback odd_update ++ [c_newline]))
    /\ (forall p, p <> brands_dir ++ [js "odd.yaml"] -> w_fs w' !! p = w_fs Sample.world !! p)
    /\ @readSingleEntity Sample.degraded (js "brands") (js "odd") w'
       = (Return (@parseYaml Sample.degraded (json_fallback odd_update ++ [c_newline])), w').
Proof.
  apply (@write_then_read_back Sample.degraded Sample.world (js "brands") (js "odd")
           odd_update brands_dir (brands_dir ++ [js "odd.yaml"]) (js ".yaml")
           (json_fallback odd_update ++ [c_newline])
           (js "name: Other Name" ++ Sample.nl ++ js "slug: not-odd" ++ Sample.nl
              ++ js "uuid: 42" ++ Sample.nl)).
  - apply findEntityDir_eval. by_evaluation.
  - apply findEntityFile_eval. by_evaluation.
  - by_evaluation.
  - discriminate.
  - by_evaluation.
Defined.

Lemma delete_removes_the_file_witness :
  exists w',
    @deleteSingleEntity Sample.degraded (js "brands") (js "odd") Sample.world
    = (Return api_ok, w')
    /\ w_fs w' !! (brands_dir ++ [js "odd.yaml"]) = None
    /\ w_fs w' !! brands_dir
       = Some (Dir true [js "prusa.yaml"; js "locked.yml"; js "real.yaml"]).
Proof.
  destruct (@delete_removes_the_file Sample.degraded Sample.world (js "brands") (js "odd")
              brands_dir (brands_dir ++ [js "odd.yaml"]) (js ".yaml")
              (js "name: Other Name" ++ Sample.nl ++ js "slug: not-odd" ++ Sample.nl
                 ++ js "uuid: 42" ++ Sample.nl)
              true true [js "prusa.yaml"; js "odd.yaml"; js "locked.yml"; js "real.yaml"])
    as (w' & Hdel & Hgone & Hlist & _).
  - apply findEntityDir_eval. by_evaluation.
  - apply findEntityFile_eval. by_evaluation.
  - by_evaluation.
  - by_evaluation.
  - exists w'. split; [exact Hdel|]. split; [exact Hgone|]. exact Hlist.
Defined.

(** ** File names and identifiers *)

Lemma starts_with_app pre rest : starts_with pre (pre ++ rest) = true.
Proof.
  induction pre as [|c t IH]; [reflexivity|]. cbn. by rewrite N.eqb_refl, IH.
Qed.

Lemma ends_with_app suf s : ends_with suf (s ++ suf) = true.
Proof. unfold ends_with. rewrite rev_app_distr. apply starts_with_app. Qed.

Lemma firstn_all_but_suffix (s suf : list N) n :
  length suf = n -> firstn (length (s ++ suf) - n) (s ++ suf) = s.
Proof.
  intros <-. rewrite length_app.
  replace (length s + length suf - length suf) with (length s) by lia.
  rewrite firstn_app, Nat.sub_diag, firstn_all. cbn. apply app_nil_r.
Qed.

(** The stem of [{id}.yaml] and of [{id}.yml] is [id], and both names pass
    the extension test of the scan. *)
Lemma stem_of_direct_name id :
  strip_yaml_ext (id ++ js ".yaml") = id /\ strip_yaml_ext (id ++ js ".yml") = id
  /\ has_yaml_ext (id ++ js ".yaml") = true /\ has_yaml_ext (id ++ js ".yml") = true.
Proof.
  assert (Hy : ends_with (js ".yaml") (List.map ascii_lower (id ++ js ".yaml")) = true).
  { rewrite map_app. apply ends_with_app. }
  assert (Hm : ends_with (js ".yml") (List.map ascii_lower (id ++ js ".yml")) = true).
  { rewrite map_app. apply ends_with_app. }
  assert (Hn : ends_with (js ".yaml") (List.map ascii_lower (id ++ js ".yml")) = false).
  { rewrite map_app. unfold ends_with. rewrite rev_app_distr. reflexivity. }
  unfold strip_yaml_ext, has_yaml_ext. rewrite Hy, Hn, Hm.
  repeat split; try reflexivity; by apply firstn_all_but_suffix.
Qed.

Section Identifiers.
Context {E : Engine}.

(** X10. The scan finds what the direct lookup finds: a document read
    from [{id}.yaml] or [{id}.yml], whose content has no own [__file] key
    and whose name is text, answers to the non-empty identifier [id]. *)
Theorem scanned_file_answers_to_its_stem (id ext : list N) (parsed : value) :
  ext = js ".yaml" \/ ext = js ".yml" ->
  id <> [] ->
  assoc_get (js "__file") (spread_props parsed) = None ->
  name_is_text (with_source_file (id ++ ext) parsed) ->
  has_yaml_ext (id ++ ext) = true
  /\ matchesId (with_source_file (id ++ ext) parsed) (Some id) = Return true.
Proof.
  intros Hext Hid Hown Hname.
  destruct (stem_of_direct_name id) as (Hs1 & Hs2 & Hh1 & Hh2).
  split; [by destruct Hext as [-> | ->]|].
  apply matchesId_true_iff; [exact Hname | reflexivity | exact Hid|].
  right. left. exists (id ++ ext). split.
  - unfold with_source_file, get_prop. by rewrite (assign_all_absent _ _ _ Hown).
  - by destruct Hext as [-> | ->].
Qed.

(** X11. The uuid is compared through [String(entity.uuid)]: a document
    without a [uuid] field answers to the identifier "undefined", and one
    whose [uuid] is [null] answers to "null" (the name being text). *)
Theorem missing_uuid_answers_to_undefined (d : value) :
  truthy d = true -> name_is_text d ->
  (get_prop d (js "uuid") = VUndef -> matchesId d (Some (js "undefined")) = Return true)
  /\ (get_prop d (js "uuid") = VNull -> matchesId d (Some (js "null")) = Return true).
Proof.
  intros Ht Hname. split; intros Hu.
  - apply matchesId_true_iff; [exact Hname | exact Ht | discriminate|].
    right. right. right. by rewrite Hu.
  - apply matchesId_true_iff; [exact Hname | exact Ht | discriminate|].
    right. right. right. by rewrite Hu.
Qed.

Lemma without_source_file_fields m :
  get_prop (without_source_file m) (js "__file") = VUndef
  /\ forall k, k <> js "__file" ->
               assoc_get k (obj_remove (js "__file") (spread_props m))
               = assoc_get k (spread_props m).
Proof.
  unfold without_source_file, get_prop, obj_remove.
  induction (spread_props m) as [|[k0 v0] rest [IH1 IH2]]; [by split|].
  cbn [List.filter fst]. destruct (str_eqb k0 (js "__file")) eqn:H0; cbn [negb].
  - split; [exact IH1|]. intros k Hk. cbn [assoc_get].
    apply str_eqb_eq in H0. subst k0.
    destruct (str_eqb (js "__file") k) eqn:H1; [|by apply IH2].
    apply str_eqb_eq in H1. congruence.
  - split.
    + cbn [assoc_get]. by rewrite H0.
    + intros k Hk. cbn [assoc_get]. destruct (str_eqb k0 k); [reflexivity | by apply IH2].
Qed.

(** X12. When no direct file serves the identifier, [readSingleEntity]
    returns the first document, in the order of the directory listing,
    that answers to it, even if later ones answer too; the result is that
    document without its [__file] field and with every other field as it
    was. *)
Theorem readSingleEntity_first_match_wins (w w1 : World) (entity id : list N)
  (dir : list (list N)) (before after : list value) (m : value) :
  findEntityDir entity false w = (Return (Some dir), w) ->
  findEntityFile dir id w = (Return None, w) ->
  getEntityFiles dir no_options w = (Return (before ++ m :: after), w1) ->
  Forall (fun d => matchesId d (Some id) = Return false) before ->
  matchesId m (Some id) = Return true ->
  readSingleEntity entity id w = (Return (without_source_file m), w1)
  /\ get_prop (without_source_file m) (js "__file") = VUndef
  /\ (forall k, k <> js "__file" ->
                get_prop (without_source_file m) k
                = default VUndef (assoc_get k (spread_props m))).
Proof.
  intros Hdir Hfile Hscan Hbefore Hm.
  rewrite findEntityFile_run in Hfile. injection Hfile as Hprobe.
  rewrite getEntityFiles_run in Hscan. injection Hscan as Hdocs <-.
  split; [|split].
  - rewrite (readSingleEntity_run entity id w dir Hdir).
    unfold direct_content. rewrite Hprobe, Hdocs.
    by rewrite (find_match_first before m after id Hbefore Hm).
  - apply without_source_file_fields.
  - intros k Hk. unfold without_source_file, get_prop.
    by rewrite (proj2 (without_source_file_fields m) k Hk).
Qed.

End Identifiers.

Definition listed_doc (file name : list N) : value :=
  VObj [(js "__file", VStr file); (js "name", VStr name)].

Lemma scanned_file_answers_to_its_stem_witness :
  has_yaml_ext (js "pla" ++ js ".yml") = true
  /\ @matchesId Sample.degraded
       (with_source_file (js "pla" ++ js ".yml") (VObj [(js "name", VStr (js "Other"))]))
       (Some (js "pla")) = Return true.
Proof.
  apply (@scanned_file_answers_to_its_stem Sample.degraded (js "pla") (js ".yml")
           (VObj [(js "name", VStr (js "Other"))])).
  - by right.
  - discriminate.
  - reflexivity.
  - right. exists (js "Other"). reflexivity.
Defined.

Lemma missing_uuid_answers_to_undefined_witness :
  @matchesId Sample.degraded (listed_doc (js "pla.yaml") (js "PLA")) (Some (js "undefined"))
  = Return true.
Proof.
  apply (@missing_uuid_answers_to_undefined Sample.degraded
           (listed_doc (js "pla.yaml") (js "PLA"))).
  - reflexivity.
  - right. exists (js "PLA"). reflexivity.
  - reflexivity.
Defined.

(** In the sample world no file is named after "not-odd"; the scan passes
    over [prusa.yaml] and serves [odd.yaml], whose slug is "not-odd". *)
Lemma readSingleEntity_first_match_wins_witness :
  fst (@readSingleEntity Sample.degraded (js "brands") (js "not-odd") Sample.world)
  = Return (VObj [(js "name", VStr (js "Other Name")); (js "slug", VStr (js "not-odd"));
                  (js "uuid", VStr (js "42"))]).
Proof.
  destruct (@readSingleEntity_first_match_wins Sample.degraded Sample.world
              (log (@scan_warnings (w_fs Sample.world) brands_dir
                      (yaml_files (w_fs Sample.world) brands_dir no_options))
                   Sample.world)
              (js "brands") (js "not-odd") brands_dir
              [VObj [(js "__file", VStr (js "prusa.yaml")); (js "name", VStr (js "Prusa"));
                     (js "slug", VStr (js "prusa")); (js "uuid", VStr (js "u-1"))]]
              [VObj [(js "__file", VStr (js "ghost.yaml"))]]
              (VObj [(js "__file", VStr (js "odd.yaml")); (js "name", VStr (js "Other Name"));
                     (js "slug", VStr (js "not-odd")); (js "uuid", VStr (js "42"))]))
    as (Hr & _ & _).
  - apply findEntityDir_eval. by_evaluation.
  - apply findEntityFile_eval. by_evaluation.
  - rewrite getEntityFiles_run. evaluate_scan. reflexivity.
  - apply List.Forall_cons; [reflexivity | apply List.Forall_nil].
  - reflexivity.
  - rewrite Hr. reflexivity.
Defined.

(** ** Choosing a slug no material uses *)

Lemma uint_digits_inj d d' : uint_digits d = uint_digits d' -> d = d'.
Proof.
  revert d'. induction d; destruct d'; cbn [uint_digits]; intros H;
    try discriminate H; try reflexivity;
    injection H as H; f_equal; by apply IHd.
Qed.

Lemma dec_N_inj n m : dec_N n = dec_N m -> n = m.
Proof.
  unfold dec_N. intros H. apply uint_digits_inj in H.
  by apply DecimalN.Unsigned.to_uint_inj.
Qed.

Lemma numbered_slug_inj base n m : numbered_slug base n = numbered_slug base m -> n = m.
Proof.
  unfold numbered_slug. intros H. apply app_inv_head in H.
  apply app_inv_head in H. by apply dec_N_inj.
Qed.

(** The strings among the elements of the set. *)
Definition strings_of (elements : list value) : list (list N) :=
  omap (fun v => match v with VStr s => Some s | _ => None end) elements.

Lemma strings_of_length elements : length (strings_of elements) <= length elements.
Proof.
  unfold strings_of. induction elements as [|v rest IH]; [reflexivity|].
  cbn [omap list_omap]. destruct v; cbn [length]; lia.
Qed.

Lemma set_has_string elements s :
  set_has elements (VStr s) = true -> In s (strings_of elements).
Proof.
  unfold set_has, strings_of. rewrite existsb_exists. intros (x & Hx & Heq).
  destruct x; try discriminate Heq. cbn in Heq. apply str_eqb_eq in Heq. subst.
  apply list_elem_of_In, list_elem_of_omap. exists (VStr s0).
  split; [by apply list_elem_of_In | reflexivity].
Qed.

Lemma unique_slug_loop_exhausted fuel existing baseSlug base slug counter :
  to_String baseSlug = Return base ->
  unique_slug_loop fuel existing baseSlug slug counter = None ->
  (1 <= fuel -> set_has existing slug = true)
  /\ forall i, i + 1 < fuel ->
               set_has existing (VStr (numbered_slug base (counter + N.of_nat i))) = true.
Proof.
  intros Hbase. revert slug counter.
  induction fuel as [|fuel IH]; intros slug counter Hnone.
  - split; intros; lia.
  - cbn [unique_slug_loop] in Hnone.
    destruct (set_has existing slug) eqn:Hhas; [|discriminate Hnone].
    rewrite Hbase in Hnone. destruct (IH _ _ Hnone) as [Hfirst Hrest].
    split; [done|]. intros [|j] Hi.
    + rewrite N.add_0_r. apply Hfirst. lia.
    + replace (counter + N.of_nat (S j))%N with (counter + 1 + N.of_nat j)%N by lia.
      apply Hrest. lia.
Qed.

Lemma unique_slug_loop_result fuel existing baseSlug slug counter r :
  unique_slug_loop fuel existing baseSlug slug counter = Some (Return r) ->
  set_has existing r = false
  /\ (r = slug /\ set_has existing slug = false
      \/ set_has existing slug = true
         /\ exists base n,
             to_String baseSlug = Return base /\ (counter <= n)%N
             /\ r = VStr (numbered_slug base n)
             /\ forall m, (counter <= m < n)%N ->
                          set_has existing (VStr (numbered_slug base m)) = true).
Proof.
  revert slug counter. induction fuel as [|fuel IH]; intros slug counter H;
    [discriminate H|].
  cbn [unique_slug_loop] in H.
  destruct (set_has existing slug) eqn:Hhas.
  - destruct (to_String baseSlug) as [base|e] eqn:Hbase; [|discriminate H].
    destruct (IH _ _ H) as [Hfree [[-> Hno]|(Hin & base' & n & Hb & Hn & -> & Hall)]].
    + split; [exact Hno|]. right. split; [reflexivity|].
      exists base, counter. repeat split; try done; try lia.
    + injection Hb as <-. split; [exact Hfree|]. right. split; [reflexivity|].
      exists base, n. repeat split; try done; try lia.
      intros m Hm. destruct (N.eq_dec m counter) as [->|Hne]; [exact Hin|].
      apply Hall. lia.
  - injection H as <-. split; [exact Hhas|]. by left.
Qed.

Lemma unique_slug_loop_raises fuel existing baseSlug slug counter e :
  unique_slug_loop fuel existing baseSlug slug counter = Some (Throw e) ->
  to_String baseSlug = Throw e.
Proof.
  revert slug counter. induction fuel as [|fuel IH]; intros slug counter H;
    [discriminate H|].
  cbn [unique_slug_loop] in H.
  destruct (set_has existing slug); [|discriminate H].
  destruct (to_String baseSlug) as [base|e'] eqn:Hbase; [by apply IH in H|].
  by injection H as ->.
Qed.

(** X13. The loop that picks the slug of a new material ends, whatever
    the set of existing slugs: with a base that is free it returns the base;
    otherwise it returns [base-n] for the least [n >= 2] whose [base-n] is
    free; the slug it returns is never in the set. It raises only when the
    base is taken and has no string form. *)
Theorem unique_slug_is_fresh (existing : list value) (baseSlug : value) :
  exists c, unique_slug existing baseSlug = Some c
    /\ match c with
       | Return slug =>
           set_has existing slug = false
           /\ (set_has existing baseSlug = false -> slug = baseSlug)
           /\ (set_has existing baseSlug = true ->
               exists base n,
                 to_String baseSlug = Return base /\ (2 <= n)%N
                 /\ slug = VStr (numbered_slug base n)
                 /\ forall m, (2 <= m < n)%N ->
                              set_has existing (VStr (numbered_slug base m)) = true)
       | Throw e => set_has existing baseSlug = true /\ to_String baseSlug = Throw e
       end.
Proof.
  unfold unique_slug.
  destruct (unique_slug_loop (length existing + 2) existing baseSlug baseSlug 2)
    as [[slug|e]|] eqn:Hloop.
  - eexists. split; [reflexivity|].
    destruct (unique_slug_loop_result _ _ _ _ _ _ Hloop) as [Hfree [[-> Hno]|[Hin Hex]]].
    + split; [exact Hno|]. split; [done | congruence].
    + split; [exact Hfree|]. split; [congruence | by intros _].
  - eexists. split; [reflexivity|].
    pose proof (unique_slug_loop_raises _ _ _ _ _ _ Hloop) as Hraise. split; [|exact Hraise].
    replace (length existing + 2) with (S (length existing + 1)) in Hloop by lia.
    cbn [unique_slug_loop] in Hloop.
    destruct (set_has existing baseSlug); [reflexivity | discriminate Hloop].
  - exfalso.
    destruct (to_String baseSlug) as [base|e] eqn:Hbase.
    + destruct (unique_slug_loop_exhausted _ _ _ base _ _ Hbase Hloop) as [_ Hall].
      set (cands := List.map (fun i => numbered_slug base (2 + N.of_nat i))
                      (seq 0 (length existing + 1))).
      assert (Hnd : List.NoDup cands).
      { apply Finite.Injective_map_NoDup; [|apply seq_NoDup].
        intros i j Hij. apply numbered_slug_inj in Hij. lia. }
      assert (Hincl : incl cands (strings_of existing)).
      { intros s Hs. apply in_map_iff in Hs as (i & <- & Hi). apply in_seq in Hi.
        apply set_has_string, Hall. lia. }
      pose proof (NoDup_incl_length Hnd Hincl) as Hlen.
      unfold cands in Hlen. rewrite length_map, length_seq in Hlen.
      pose proof (strings_of_length existing). lia.
    + replace (length existing + 2) with (S (length existing + 1)) in Hloop by lia.
      cbn [unique_slug_loop] in Hloop. rewrite Hbase in Hloop.
      destruct (set_has existing baseSlug); discriminate Hloop.
Qed.

Example unique_slug_with_two_taken :
  unique_slug [VStr (js "pla"); VNum 7; VStr (js "pla-2"); VStr (js "pla-4")]
    (VStr (js "pla"))
  = Some (Return (VStr (js "pla-3"))).
Proof. reflexivity. Qed.

(** ** The route's brand lookup against the matcher *)

Section RouteLookup.
Context {E : Engine}.

Lemma slugifyName_returns_on_text v r :
  slugifyName v = Return r -> truthy v = false \/ exists s, v = VStr s.
Proof.
  intros H. destruct (truthy v) eqn:Ht; [|by left]. right.
  destruct v; try (rewrite slugifyName_not_a_string in H; [discriminate H|done|done]).
  eauto.
Qed.

(** X14. Every brand the material-creation route accepts with its inline
    predicate is accepted by [matchesId] for the same non-empty
    identifier, so the directory resolution that follows the lookup can
    find the same brand. (The converse fails: the route compares [uuid]
    with [===], the matcher through [String].) *)
Theorem route_match_implies_matchesId (b : value) (brandId : list N) :
  truthy b = true -> brandId <> [] ->
  route_brand_matches b brandId = Return true ->
  matchesId b (Some brandId) = Return true.
Proof.
  intros Ht Hid H. unfold route_brand_matches in H.
  destruct (slugifyName (get_prop b (js "name"))) as [ns|e] eqn:Hns; [|discriminate H].
  cbn [cbind] in H. injection H as H.
  apply matchesId_true_iff; [by apply (slugifyName_returns_on_text _ ns) | exact Ht | exact Hid|].
  unfold matches_any. rewrite Hns.
  apply orb_true_iff in H as [H|H]; [apply orb_true_iff in H as [H|H];
                                      [apply orb_true_iff in H as [H|H]|]|].
  - right. right. right. apply strict_eq_str_true in H. by rewrite H.
  - left. by apply strict_eq_str_true.
  - right. left. by apply stem_matches.
  - right. right. left. apply strict_eq_str_true in H. by rewrite H.
Qed.

End RouteLookup.

Lemma route_match_implies_matchesId_witness :
  @matchesId Sample.degraded
    (VObj [(js "__file", VStr (js "prusa.yaml")); (js "uuid", VStr (js "u-1"))])
    (Some (js "u-1")) = Return true.
Proof.
  apply (@route_match_implies_matchesId Sample.degraded); [reflexivity | discriminate|].
  reflexivity.
Defined.

(** A brand whose uuid is the number 42: the matcher finds it for "42",
    the route does not. *)
Example route_misses_numeric_uuid :
  @matchesId Sample.degraded uuid_doc (Some (js "42")) = Return true
  /\ @route_brand_matches Sample.degraded uuid_doc (js "42") = Return false.
Proof. split; reflexivity. Qed.

(** ** Identifiers that leave the directory *)

Lemma path_join_parent (dir : list (list N)) (d x : list N) :
  path_join (dir ++ [d]) (js "../" ++ x) = path_join dir x.
Proof.
  unfold path_join. cbn [js List.map list_ascii_of_string app].
  change (N_of_ascii "."%char) with 46%N. change (N_of_ascii "/"%char) with 47%N.
  cbn [split_on N.eqb Pos.eqb].
  destruct (split_on 47 x) as [|cur rest] eqn:Hx.
  - destruct x; cbn in Hx; [discriminate|].
    destruct (n =? 47)%N; [discriminate|]. destruct (split_on 47 x); discriminate.
  - assert (Hup : norm_push (dir ++ [d]) [46%N; 46%N] = dir).
    { unfold norm_push.
      replace (str_eqb [46%N; 46%N] []) with false by reflexivity.
      replace (str_eqb [46%N; 46%N] (js ".")) with false by reflexivity.
      replace (str_eqb [46%N; 46%N] (js "..")) with true by reflexivity.
      cbn [orb]. apply removelast_last. }
    cbn [fold_left]. by rewrite Hup.
Qed.

Section Traversal.
Context {E : Engine}.

(** X15. The direct lookup joins the identifier to the directory without
    confining it: an identifier that begins with [../] is resolved against
    the parent of the entity directory, and [readSingleEntity] returns the
    content of a file that lies outside the directory of the entity type. *)
Theorem identifier_escapes_directory (w : World) (entity x : list N)
  (dir : list (list N)) (d content : list N) (wr : bool) :
  findEntityDir entity false w = (Return (Some (dir ++ [d])), w) ->
  w_fs w !! path_join dir (x ++ js ".yaml") = Some (File true wr content) ->
  findEntityFile (dir ++ [d]) (js "../" ++ x) w
  = (Return (Some (path_join dir (x ++ js ".yaml"), js ".yaml")), w)
  /\ readSingleEntity entity (js "../" ++ x) w = (Return (parseYaml content), w).
Proof.
  intros Hdir Hfile.
  assert (Hprobe : probe (w_fs w) (dir ++ [d]) (js "../" ++ x)
                   = Some (path_join dir (x ++ js ".yaml"), js ".yaml")).
  { unfold probe. rewrite <- !app_assoc, !path_join_parent. by rewrite Hfile. }
  split.
  - by apply findEntityFile_eval.
  - rewrite (readSingleEntity_run entity _ w _ Hdir).
    unfold direct_content. rewrite Hprobe. unfold read_ok. by rewrite Hfile.
Qed.

End Traversal.

Lemma identifier_escapes_directory_witness :
  @readSingleEntity Sample.degraded (js "brands") (js "../" ++ js "materials/prusa/pla")
    Sample.world
  = (Return (@parseYaml Sample.degraded (js "name: PLA" ++ Sample.nl)), Sample.world).
Proof.
  apply (@identifier_escapes_directory Sample.degraded Sample.world (js "brands")
           (js "materials/prusa/pla") (Sample.srv [js "data"]) (js "brands")
           (js "name: PLA" ++ Sample.nl) true).
  - apply findEntityDir_eval. by_evaluation.
  - by_evaluation.
Defined.

(** ** Updating through the scan *)

Section ScanUpdates.
Context {E : Engine}.



End ScanUpdates.

Definition prusa_doc : value :=
  VObj [(js "__file", VStr (js "prusa.yaml")); (js "name", VStr (js "Prusa"));
        (js "slug", VStr (js "prusa")); (js "uuid", VStr (js "u-1"))].



Definition scanned_world : World :=
  log (@scan_warnings (w_fs Sample.world) brands_dir
         (yaml_files (w_fs Sample.world) brands_dir no_options))
      Sample.world.


(** ** Directory resolution *)

Definition data_candidates (cwd : path) : list (list (list N)) :=
  [path_resolve cwd [js "data"]; path_resolve cwd [js ".."; js "data"]].

Lemma findDataDir_run w :
  findDataDir w = (Return (List.find (is_dir (w_fs w)) (data_candidates (w_cwd w))), w).
Proof.
  unfold findDataDir, bind at 1, process_cwd at 1. apply first_directory_run.
Qed.

Lemma findEntityDir_found entity b w d :
  entity_dir w entity = Some d -> findEntityDir entity b w = (Return (Some d), w).
Proof.
  intros Hd. unfold findEntityDir, bind at 1, process_cwd at 1.
  rewrite (bind_run _ _ _ _ _ (first_directory_run _ w)).
  fold (entity_candidates (w_cwd w) entity). fold (entity_dir w entity).
  by rewrite Hd.
Qed.

Lemma find_all_false {A} (p : A -> bool) l :
  Forall (fun c => p c = false) l -> List.find p l = None.
Proof. induction 1 as [|c cs Hc _ IH]; [reflexivity|]. cbn. by rewrite Hc. Qed.

(** X17. [findEntityDir] returns only what exists: without
    [createIfMissing] its result is one of the four candidates and is a
    directory; the candidate [./data/{entity}] wins whenever it is a
    directory, with or without [createIfMissing], and nothing is created
    then; and with [createIfMissing] but neither [./data] nor [../data]
    present, it returns [null] and creates nothing. *)
Theorem findEntityDir_resolution (w : World) (entity : list N) :
  (forall d, findEntityDir entity false w = (Return (Some d), w) ->
             In d (entity_candidates (w_cwd w) entity) /\ is_dir (w_fs w) d = true)
  /\ (forall b, is_dir (w_fs w) (path_resolve (w_cwd w) [js "data"; entity]) = true ->
                findEntityDir entity b w
                = (Return (Some (path_resolve (w_cwd w) [js "data"; entity])), w))
  /\ (entity_dir w entity = None ->
      Forall (fun c => is_dir (w_fs w) c = false) (data_candidates (w_cwd w)) ->
      findEntityDir entity true w = (Return None, w)).
Proof.
  split; [|split].
  - intros d H. rewrite findEntityDir_run in H. injection H as H.
    unfold entity_dir in H. by apply find_some in H.
  - intros b Hd. apply findEntityDir_found. unfold entity_dir, entity_candidates.
    cbn [List.find]. by rewrite Hd.
  - intros Hnone Hdata. unfold findEntityDir, bind at 1, process_cwd at 1.
    rewrite (bind_run _ _ _ _ _ (first_directory_run _ w)).
    fold (entity_candidates (w_cwd w) entity). fold (entity_dir w entity).
    rewrite Hnone. rewrite (bind_run _ _ _ _ _ (findDataDir_run w)).
    replace (List.find (is_dir (w_fs w)) (data_candidates (w_cwd w))) with (@None (list (list N)));
      [reflexivity|].
    symmetry. by apply find_all_false.
Qed.

Section BrandDirectories.
Context {E : Engine}.

(** The slug [findBrandDir] derives from a brand document. *)
Definition canonical_slug (brand : value) (s : list N) : Prop :=
  (truthy (get_prop brand (js "slug")) = true /\ get_prop brand (js "slug") = VStr s)
  \/ (truthy (get_prop brand (js "slug")) = false
      /\ slugifyName (get_prop brand (js "name")) = Return (VStr s)).

(** X18. Resolution of the directory of a brand, without
    [createIfMissing]. A sub-directory named exactly like the given
    identifier wins, and the brands are then not consulted at all. Failing
    that, the brand is looked up; if it is found (an object without an
    [error] key) and has a non-empty canonical slug (its [slug], else the
    slug of its [name]) that names a sub-directory, that sub-directory is
    returned; if the lookup yields the not-found descriptor, the result is
    [null]. *)
Theorem findBrandDir_resolution (w : World) (entityDirName brandId : list N)
  (root : list (list N)) :
  findEntityDir entityDirName false w = (Return (Some root), w) ->
  (is_dir (w_fs w) (path_join root brandId) = true ->
   findBrandDir brandId entityDirName false w = (Return (Some (path_join root brandId)), w))
  /\ (is_dir (w_fs w) (path_join root brandId) = false ->
      forall w1 props s,
        readSingleEntity (js "brands") brandId w = (Return (VObj props), w1) ->
        assoc_get (js "error") props = None ->
        canonical_slug (VObj props) s -> s <> [] ->
        is_dir (w_fs w) (path_join root s) = true ->
        findBrandDir brandId entityDirName false w = (Return (Some (path_join root s)), w1))
  /\ (is_dir (w_fs w) (path_join root brandId) = false ->
      forall w1 msg code,
        readSingleEntity (js "brands") brandId w = (Return (api_error msg code), w1) ->
        findBrandDir brandId entityDirName false w = (Return None, w1)).
Proof.
  intros Hroot. split; [|split].
  - intros Hdir. unfold findBrandDir. rewrite (bind_run _ _ _ _ _ Hroot).
    cbv zeta. rewrite (bind_run _ _ _ _ _ (fs_stat_guarded _ w)). by rewrite Hdir.
  - intros Hdir w1 props s Hbrand Herr Hslug Hs Hsdir.
    assert (Hfs : w_fs w1 = w_fs w) by apply (keeps_readSingleEntity _ _ _ _ _ Hbrand).
    unfold findBrandDir. rewrite (bind_run _ _ _ _ _ Hroot).
    cbv zeta. rewrite (bind_run _ _ _ _ _ (fs_stat_guarded _ w)). rewrite Hdir.
    rewrite (bind_run _ _ _ _ _ Hbrand).
    cbn [truthy]. unfold bind at 2, lift at 1. cbn [has_error_key]. rewrite Herr.
    rewrite bool_decide_eq_false_2 by (by intros [? ?]).
    unfold bind at 1, ret at 1. cbn [negb].
    assert (Htr : truthy (VStr s) = true) by (destruct s; done).
    destruct Hslug as [[Ht Hv]|[Ht Hv]]; rewrite Ht.
    + unfold bind at 2, ret at 1. rewrite Hv, Htr.
      unfold bind at 2, lift at 1. cbn [path_join_value].
      unfold bind at 1.
      rewrite (bind_run _ _ _ _ _ (fs_stat_guarded _ w1)). rewrite Hfs, Hsdir.
      reflexivity.
    + unfold bind at 2, lift at 1. rewrite Hv, Htr.
      unfold bind at 2, lift at 1. cbn [path_join_value].
      unfold bind at 1.
      rewrite (bind_run _ _ _ _ _ (fs_stat_guarded _ w1)). rewrite Hfs, Hsdir.
      reflexivity.
  - intros Hdir w1 msg code Hbrand.
    unfold findBrandDir. rewrite (bind_run _ _ _ _ _ Hroot).
    cbv zeta. rewrite (bind_run _ _ _ _ _ (fs_stat_guarded _ w)). rewrite Hdir.
    rewrite (bind_run _ _ _ _ _ Hbrand). reflexivity.
Qed.

End BrandDirectories.

Lemma readSingleEntity_scan_eval {E : Engine} entity id w dir m :
  findEntityDir entity false w = (Return (Some dir), w) ->
  direct_content (w_fs w) dir id = None ->
  find_match (scan (w_fs w) dir no_options) id = Return (Some m) ->
  readSingleEntity entity id w
  = (Return (without_source_file m),
     log (scan_warnings (w_fs w) dir (yaml_files (w_fs w) dir no_options)) w).
Proof.
  intros Hdir Hdirect Hfind. rewrite (readSingleEntity_run entity id w dir Hdir).
  by rewrite Hdirect, Hfind.
Qed.

Definition materials_dir : list (list N) := Sample.srv [js "data"; js "materials"].

(** The brand is asked for by its uuid: no directory [materials/u-1]
    exists, the brand document is found by the scan, and the directory
    named after its slug is returned. *)
Lemma findBrandDir_resolution_witness :
  @findBrandDir Sample.degraded (js "stale-dir") (js "materials") false Sample.world
  = (Return (Some (materials_dir ++ [js "stale-dir"])), Sample.world)
  /\ @findBrandDir Sample.degraded (js "u-1") (js "materials") false Sample.world
     = (Return (Some (materials_dir ++ [js "prusa"])), scanned_world).
Proof.
  destruct (@findBrandDir_resolution Sample.degraded Sample.world (js "materials")
              (js "stale-dir") materials_dir) as (Hliteral & _ & _);
    [apply findEntityDir_eval; by_evaluation|].
  destruct (@findBrandDir_resolution Sample.degraded Sample.world (js "materials")
              (js "u-1") materials_dir) as (_ & Hslug & _);
    [apply findEntityDir_eval; by_evaluation|].
  split.
  - apply Hliteral. by_evaluation.
  - apply (Hslug ltac:(by_evaluation) scanned_world
             [(js "name", VStr (js "Prusa")); (js "slug", VStr (js "prusa"));
              (js "uuid", VStr (js "u-1"))] (js "prusa")).
    + apply (@readSingleEntity_scan_eval Sample.degraded _ _ _ brands_dir prusa_doc).
      * apply findEntityDir_eval. by_evaluation.
      * by_evaluation.
      * evaluate_scan. reflexivity.
    + reflexivity.
    + left. split; reflexivity.
    + discriminate.
    + by_evaluation.
Defined.

Lemma prefixes_snoc (d : list (list N)) (e : list N) :
  prefixes (d ++ [e]) = prefixes d ++ [d ++ [e]].
Proof.
  induction d as [|seg rest IH]; [reflexivity|].
  cbn [prefixes app]. rewrite IH, map_app. reflexivity.
Qed.

Lemma mkdir_one_existing q w : is_dir (w_fs w) q = true -> mkdir_one q w = (Return tt, w).
Proof.
  unfold is_dir, mkdir_one. destruct (w_fs w !! q) as [[? ? ?|? ?]|]; done.
Qed.

Lemma mkdir_over_existing (qs : list (list (list N))) (k : M unit) w :
  Forall (fun q => is_dir (w_fs w) q = true) qs ->
  fold_right (fun q k => mkdir_one q ;;; k) k qs w = k w.
Proof.
  induction 1 as [|q rest Hq _ IH]; [reflexivity|].
  cbn [fold_right]. by rewrite (bind_run _ _ _ _ _ (mkdir_one_existing q w Hq)).
Qed.

(** X19. Creation on demand. When no candidate directory exists for the
    entity type, [./data] or [../data] exists and is writable, and the
    entity name is a plain directory name not yet present there,
    [findEntityDir] with [createIfMissing] creates [{data}/{entity}] as an
    empty directory, lists it in the data directory, changes nothing else
    and returns its path. *)
Theorem findEntityDir_creates_directory (w : World) (entity : list N)
  (d : list (list N)) (entries : list (list N)) :
  entity_dir w entity = None ->
  List.find (is_dir (w_fs w)) (data_candidates (w_cwd w)) = Some d ->
  path_join d entity = d ++ [entity] ->
  Forall (fun q => is_dir (w_fs w) q = true) (prefixes d) ->
  w_fs w !! d = Some (Dir true entries) ->
  w_fs w !! (d ++ [entity]) = None ->
  exists w',
    findEntityDir entity true w = (Return (Some (d ++ [entity])), w')
    /\ w_fs w' !! (d ++ [entity]) = Some (Dir true [])
    /\ w_fs w' !! d = Some (Dir true (entries ++ [entity]))
    /\ (forall p, p <> d -> p <> d ++ [entity] -> w_fs w' !! p = w_fs w !! p).
Proof.
  intros Hnone Hdata Hplain Hancestors Hd Hnew.
  assert (Hne : d <> d ++ [entity]).
  { intros Heq. apply (f_equal (@length (list N))) in Heq.
    rewrite length_app in Heq. cbn in Heq. lia. }
  set (fs' := <[d ++ [entity] := Dir true []]>
                (alter (add_entry entity) d (w_fs w))).
  exists (with_fs fs' w). split; [|split; [|split]].
  - unfold findEntityDir, bind at 1, process_cwd at 1.
    rewrite (bind_run _ _ _ _ _ (first_directory_run _ w)).
    fold (entity_candidates (w_cwd w) entity). fold (entity_dir w entity).
    rewrite Hnone. rewrite (bind_run _ _ _ _ _ (findDataDir_run w)). rewrite Hdata.
    cbv zeta. rewrite Hplain.
    assert (Hmk : fs_mkdir_recursive (d ++ [entity]) w = (Return tt, with_fs fs' w)).
    { unfold fs_mkdir_recursive. rewrite prefixes_snoc, fold_right_app.
      rewrite (mkdir_over_existing _ _ w Hancestors). cbn [fold_right].
      unfold bind, mkdir_one. rewrite Hnew. unfold fs'.
      remember (d ++ [entity]) as p eqn:Hp.
      destruct p as [|x xs]; [by destruct d|]. rewrite Hp.
      rewrite (removelast_last d entity : parent (d ++ [entity]) = d).
      rewrite (last_last d entity [] : basename (d ++ [entity]) = entity).
      by rewrite Hd. }
    by rewrite (bind_run _ _ _ _ _ Hmk).
  - cbn [with_fs w_fs]. apply lookup_insert_eq.
  - cbn [with_fs w_fs]. unfold fs'. rewrite lookup_insert_ne by done.
    by rewrite lookup_alter_eq, Hd.
  - intros p Hp1 Hp2. cbn [with_fs w_fs]. unfold fs'.
    rewrite lookup_insert_ne by done. by rewrite lookup_alter_ne.
Qed.

Lemma findEntityDir_creates_directory_witness :
  exists w',
    findEntityDir (js "material-containers") true Sample.world
    = (Return (Some (Sample.srv [js "data"; js "material-containers"])), w')
    /\ w_fs w' !! Sample.srv [js "data"; js "material-containers"] = Some (Dir true [])
    /\ w_fs w' !! Sample.srv [js "data"]
       = Some (Dir true [js "brands"; js "materials"; js "material-containers"]).
Proof.
  destruct (findEntityDir_creates_directory Sample.world (js "material-containers")
              (Sample.srv [js "data"]) [js "brands"; js "materials"])
    as (w' & Hrun & Hnew & Hlist & _).
  - by_evaluation.
  - by_evaluation.
  - by_evaluation.
  - repeat (apply List.Forall_cons; [by_evaluation|]). apply List.Forall_nil.
  - by_evaluation.
  - by_evaluation.
  - exists w'. split; [exact Hrun|]. split; [exact Hnew | exact Hlist].
Defined.

Lemma findEntityDir_resolution_witness :
  findEntityDir (js "brands") true Sample.world = (Return (Some brands_dir), Sample.world)
  /\ In brands_dir (entity_candidates (w_cwd Sample.world) (js "brands"))
  /\ is_dir (w_fs Sample.world) brands_dir = true.
Proof.
  destruct (findEntityDir_resolution Sample.world (js "brands")) as (Hexists & _ & _).
  split; [apply findEntityDir_found; by_evaluation|].
  apply Hexists. apply findEntityDir_eval. by_evaluation.
Defined.

Lemma unique_slug_is_fresh_witness :
  exists c, unique_slug [VStr (js "pla"); VStr (js "pla-2")] (VStr (js "pla")) = Some c
    /\ match c with
       | Return slug => set_has [VStr (js "pla"); VStr (js "pla-2")] slug = false
       | Throw _ => True
       end.
Proof.
  destruct (unique_slug_is_fresh [VStr (js "pla"); VStr (js "pla-2")] (VStr (js "pla")))
    as (c & Hc & Hprop).
  exists c. split; [exact Hc|]. destruct c; [apply Hprop | exact I].
Defined.

(** ** Lookup tables without the library *)

Section DegradedLookup.
Context {E : Engine}.

(** X20. Without the [yaml] package no lookup table can be served: for
    every allow-listed table whose file can be read the result is the 500
    descriptor, because the degraded parser only ever returns an object;
    an allow-listed table whose file cannot be read gives the 404
    descriptor. *)
Theorem lookup_tables_need_the_library (w : World) (tableName : list N) :
  yaml_import = None ->
  In tableName NEW_ENUMS ->
  readLookupTable tableName w
  = (Return (match read_ok (w_fs w) (lookup_path (w_cwd w) tableName) with
             | Some _ => lookup_invalid
             | None => lookup_not_found
             end), w).
Proof.
  intros Hlib Hin.
  destruct (read_ok (w_fs w) (lookup_path (w_cwd w) tableName)) as [content|] eqn:Hread.
  - rewrite (readLookupTable_run w tableName content Hin Hread).
    rewrite (parseYaml_degraded content Hlib). reflexivity.
  - by apply readLookupTable_unreadable.
Qed.

End DegradedLookup.

Lemma lookup_tables_need_the_library_witness :
  @readLookupTable Sample.degraded (js "countries") Sample.world
  = (Return lookup_invalid, Sample.world).
Proof.
  rewrite (@lookup_tables_need_the_library Sample.degraded Sample.world (js "countries")
             eq_refl).
  - replace (read_ok (w_fs Sample.world) (lookup_path (w_cwd Sample.world) (js "countries")))
      with (Some (js "- DE" ++ Sample.nl ++ js "- CZ" ++ Sample.nl)) by by_evaluation.
    reflexivity.
  - vm_compute. tauto.
Defined.

(** ** The slug of a new material against the existing ones *)

Lemma set_has_false_all elements v :
  set_has elements v = false -> Forall (fun x => same_value_zero v x = false) elements.
Proof.
  unfold set_has. induction elements as [|x rest IH]; cbn [existsb]; [constructor|].
  intros H. apply orb_false_iff in H as [Hx Hrest]. constructor; auto.
Qed.

(** X21. The slug chosen for a new material differs from the slug of
    every existing material that the cross-brand read returned. When that
    read did not return an array (it returned an error descriptor), nothing
    is compared and the base slug is used as it is. *)
Theorem new_material_slug_is_unused (allMaterials baseSlug slug : value) :
  unique_slug (collect_slugs allMaterials) baseSlug = Some (Return slug) ->
  (forall materials m,
      allMaterials = VArr materials -> In m materials ->
      truthy (get_prop m (js "slug")) = true ->
      same_value_zero slug (get_prop m (js "slug")) = false)
  /\ ((forall materials, allMaterials <> VArr materials) -> slug = baseSlug).
Proof.
  intros H. unfold unique_slug in H.
  destruct (unique_slug_loop_result _ _ _ _ _ _ H) as [Hfree Hshape].
  split.
  - intros materials m -> Hin Ht.
    apply set_has_false_all in Hfree.
    apply (proj1 (List.Forall_forall _ _) Hfree).
    cbn [collect_slugs]. apply filter_In. split; [|exact Ht].
    apply in_map_iff. by exists m.
  - intros Hnot. destruct allMaterials; try (cbn in H; by injection H).
    by destruct (Hnot items).
Qed.

Lemma new_material_slug_is_unused_witness :
  same_value_zero (VStr (js "pla-2"))
    (get_prop (VObj [(js "slug", VStr (js "pla"))]) (js "slug")) = false.
Proof.
  apply (proj1 (new_material_slug_is_unused
                  (VArr [VObj [(js "slug", VStr (js "pla"))]; VObj [(js "name", VStr (js "x"))]])
                  (VStr (js "pla")) (VStr (js "pla-2")) eq_refl)
           [VObj [(js "slug", VStr (js "pla"))]; VObj [(js "name", VStr (js "x"))]]
           (VObj [(js "slug", VStr (js "pla"))]) eq_refl).
  - by left.
  - reflexivity.
Defined.

(** ** Degraded mode: a written document read back

    Without the library [stringifyYaml] writes a comment line followed by
    indented JSON, and [parseYaml] reads a text line by line. The scan below
    follows one line of a text: it records how the line began and refuses a
    colon on a line that began with anything but a double quote or a hash
    sign. *)

Inductive line_state : Type := AtStart | InQuoted | InComment | InOther.

Definition line_step (st : line_state) (c : N) : option line_state :=
  if (c =? c_newline)%N then Some AtStart
  else match st with
       | AtStart =>
           if is_space c then Some AtStart
           else if (c =? 34)%N then Some InQuoted
           else if (c =? 35)%N then Some InComment
           else if (c =? 58)%N then None
           else Some InOther
       | InQuoted => Some InQuoted
       | InComment => Some InComment
       | InOther => if (c =? 58)%N then None else Some InOther
       end.

Fixpoint line_scan (st : line_state) (s : list N) : option line_state :=
  match s with
  | [] => Some st
  | c :: t =>
      match line_step st c with
      | Some st' => line_scan st' t
      | None => None
      end
  end.

Definition scans (st : line_state) (s : list N) : Prop :=
  exists st', line_scan st s = Some st'.

(** Neither a line break nor a colon. *)
Definition plain (c : N) : Prop := c <> c_newline /\ c <> 58%N.

Definition spaces (s : list N) : Prop := Forall (fun c => c = 32%N) s.

(** A line the degraded parser skips or stores under a key that begins
    with a double quote. *)
Definition good_line (l : list N) : Prop :=
  match drop_spaces l with
  | [] => True
  | c :: t => c = 34%N \/ c = 35%N \/ ~ In 58%N (c :: t)
  end.

Definition good_first (st : line_state) (l : list N) : Prop :=
  match st with
  | AtStart => good_line l
  | InOther => ~ In 58%N l
  | InQuoted | InComment => True
  end.

Definition quoted_key (kv : list N * value) : Prop := exists t, fst kv = 34%N :: t.

Definition keys_quoted (v : value) : Prop :=
  exists props, v = VObj props /\ Forall quoted_key props.

Section ValueInduction.
Variable P : value -> Prop.
Hypothesis Hundef : P VUndef.
Hypothesis Hnull : P VNull.
Hypothesis Hbool : forall b, P (VBool b).
Hypothesis Hnum : forall n, P (VNum n).
Hypothesis Hstr : forall s, P (VStr s).
Hypothesis Harr : forall items, Forall P items -> P (VArr items).
Hypothesis Hobj : forall props, Forall (fun kv => P (snd kv)) props -> P (VObj props).

Fixpoint value_nested_ind (v : value) : P v :=
  match v with
  | VUndef => Hundef
  | VNull => Hnull
  | VBool b => Hbool b
  | VNum n => Hnum n
  | VStr s => Hstr s
  | VArr items =>
      Harr items
        ((fix go (l : list value) : Forall P l :=
            match l with
            | [] => List.Forall_nil P
            | x :: r => @List.Forall_cons _ P x r (value_nested_ind x) (go r)
            end) items)
  | VObj props =>
      Hobj props
        ((fix go (l : list (list N * value)) : Forall (fun kv => P (snd kv)) l :=
            match l with
            | [] => List.Forall_nil _
            | kv :: r =>
                @List.Forall_cons _ (fun kv => P (snd kv)) kv r
                  (value_nested_ind (snd kv)) (go r)
            end) props)
  end.

End ValueInduction.

Lemma line_scan_app st a b :
  line_scan st (a ++ b)
  = match line_scan st a with Some st' => line_scan st' b | None => None end.
Proof.
  revert st. induction a as [|c a IH]; intros st; cbn [app line_scan]; [done|].
  destruct (line_step st c); [apply IH | done].
Qed.

Lemma scans_app st a b st' : line_scan st a = Some st' -> scans st' b -> scans st (a ++ b).
Proof. intros Ha [st2 Hb]. exists st2. rewrite line_scan_app, Ha. exact Hb. Qed.

Lemma line_step_plain st c : plain c -> exists st', line_step st c = Some st'.
Proof.
  intros [Hn Hc]. unfold line_step.
  rewrite (proj2 (N.eqb_neq _ _) Hn), (proj2 (N.eqb_neq _ _) Hc).
  destruct st; eauto.
  destruct (is_space c); eauto. destruct (c =? 34)%N; eauto. destruct (c =? 35)%N; eauto.
Qed.

Lemma line_scan_plain st s : Forall plain s -> scans st s.
Proof.
  revert st. induction s as [|c s IH]; intros st H; [by exists st|].
  inversion H as [|? ? Hc Hrest]; subst.
  destruct (line_step_plain st c Hc) as [st1 H1].
  destruct (IH st1 Hrest) as [st2 H2]. exists st2. cbn [line_scan]. by rewrite H1.
Qed.

Lemma line_scan_inside st s :
  st = InQuoted \/ st = InComment ->
  Forall (fun c => c <> c_newline) s -> line_scan st s = Some st.
Proof.
  intros Hst. induction 1 as [|c s Hc Hs IH]; [done|].
  cbn [line_scan]. unfold line_step. rewrite (proj2 (N.eqb_neq _ _) Hc).
  by destruct Hst as [-> | ->].
Qed.

Lemma line_scan_spaces s : spaces s -> line_scan AtStart s = Some AtStart.
Proof. induction 1 as [|c s -> Hs IH]; [done|]. exact IH. Qed.

Lemma scans_spaces s t : spaces s -> scans AtStart t -> scans AtStart (s ++ t).
Proof. intros Hs Ht. eapply scans_app; [by apply line_scan_spaces | exact Ht]. Qed.

Lemma scans_after_newline st s : scans AtStart s -> scans st (c_newline :: s).
Proof. intros H. by destruct st. Qed.

Lemma scans_after_comma st s : scans AtStart s -> scans st (js "," ++ [c_newline] ++ s).
Proof. intros H. by destruct st. Qed.

Lemma hex_digit_no_newline n : hex_digit n <> c_newline.
Proof. unfold hex_digit, c_newline. destruct (n <? 10)%N; lia. Qed.

Lemma json_escape_unit_no_newline c :
  Forall (fun x => x <> c_newline) (json_escape_unit c).
Proof.
  unfold json_escape_unit.
  destruct (c =? 8)%N; [by repeat constructor|].
  destruct (c =? 9)%N; [by repeat constructor|].
  destruct (c =? 10)%N eqn:H10; [by repeat constructor|].
  destruct (c =? 12)%N; [by repeat constructor|].
  destruct (c =? 13)%N; [by repeat constructor|].
  destruct (c =? 34)%N; [by repeat constructor|].
  destruct (c =? 92)%N; [by repeat constructor|].
  assert (Hesc : Forall (fun x => x <> c_newline) (unicode_escape c)).
  { unfold unicode_escape. apply Forall_app. split; [by repeat constructor|].
    repeat (apply List.Forall_cons; [apply hex_digit_no_newline|]). apply List.Forall_nil. }
  destruct (c <? 32)%N; [exact Hesc|].
  destruct (_ || _); [exact Hesc|].
  apply List.Forall_cons; [|apply List.Forall_nil]. by apply N.eqb_neq.
Qed.

Lemma json_quote_units_pair c d t :
  json_quote_units (c :: d :: t)
  = if is_high_surrogate c && is_low_surrogate d
    then c :: d :: json_quote_units t
    else json_escape_unit c ++ json_quote_units (d :: t).
Proof. reflexivity. Qed.

Lemma json_quote_units_no_newline s :
  Forall (fun x => x <> c_newline) (json_quote_units s).
Proof.
  remember (length s) as n eqn:Hn. revert s Hn.
  induction n as [n IH] using lt_wf_ind. intros s Hn.
  destruct s as [|c [|d t]].
  - apply List.Forall_nil.
  - apply json_escape_unit_no_newline.
  - rewrite json_quote_units_pair.
    destruct (is_high_surrogate c && is_low_surrogate d) eqn:Hsur.
    + apply andb_true_iff in Hsur as [Hc Hd].
      apply List.Forall_cons; [intros ->; by vm_compute in Hc|].
      apply List.Forall_cons; [intros ->; by vm_compute in Hd|].
      apply (IH (length t)); [subst n; cbn [length]; lia | reflexivity].
    + apply Forall_app. split; [apply json_escape_unit_no_newline|].
      apply (IH (length (d :: t))); [subst n; cbn [length]; lia | reflexivity].
Qed.

Lemma json_quote_scans st s : st <> InOther -> scans st (json_quote s).
Proof.
  intros Hst. unfold json_quote.
  assert (Hin : Forall (fun x => x <> c_newline) (json_quote_units s ++ [34%N])).
  { apply Forall_app. split; [apply json_quote_units_no_newline | by repeat constructor]. }
  destruct st; [| | |done].
  - exists InQuoted. apply (line_scan_inside InQuoted); [by left | exact Hin].
  - exists InQuoted. apply (line_scan_inside InQuoted); [by left|].
    by apply List.Forall_cons.
  - exists InComment. apply (line_scan_inside InComment); [by right|].
    by apply List.Forall_cons.
Qed.

Lemma uint_digits_plain d : Forall plain (uint_digits d).
Proof.
  induction d; cbn [uint_digits]; [apply List.Forall_nil|..];
    (apply List.Forall_cons; [by split | assumption]).
Qed.

Lemma dec_Z_plain n : Forall plain (dec_Z n).
Proof.
  destruct n; cbn [dec_Z]; unfold dec_N; try apply uint_digits_plain.
  apply List.Forall_cons; [by split | apply uint_digits_plain].
Qed.

Lemma json_join_scans indent parts :
  spaces indent -> Forall (scans AtStart) parts ->
  scans AtStart (join (json_sep indent) parts).
Proof.
  intros Hi. induction 1 as [|p rest Hp Hrest IH]; [by exists AtStart|].
  destruct rest as [|q rest']; [exact Hp|].
  change (join (json_sep indent) (p :: q :: rest'))
    with (p ++ json_sep indent ++ join (json_sep indent) (q :: rest')).
  destruct Hp as [st1 Hp]. eapply scans_app; [exact Hp|].
  unfold json_sep. rewrite <- !app_assoc.
  apply scans_after_comma. by apply scans_spaces.
Qed.

Lemma json_block_scans opening closing stepback parts st :
  (opening = 91%N /\ closing = 93%N) \/ (opening = 123%N /\ closing = 125%N) ->
  spaces stepback -> Forall (scans AtStart) parts ->
  scans st (json_block opening closing stepback parts).
Proof.
  intros Hoc Hsb Hparts. unfold json_block.
  destruct parts as [|p rest].
  - apply line_scan_plain. destruct Hoc as [[-> ->]|[-> ->]]; by repeat constructor.
  - assert (Hrest : scans AtStart
                      ((stepback ++ json_gap)
                       ++ join (json_sep (stepback ++ json_gap)) (p :: rest)
                       ++ [c_newline] ++ stepback ++ [closing])).
    { assert (Hind : spaces (stepback ++ json_gap)).
      { apply Forall_app. split; [exact Hsb | by repeat constructor]. }
      apply scans_spaces; [exact Hind|].
      destruct (json_join_scans _ _ Hind Hparts) as [st1 H1].
      eapply scans_app; [exact H1|].
      apply scans_after_newline, scans_spaces; [exact Hsb|].
      exists InOther. by destruct Hoc as [[_ ->]|[_ ->]]. }
    destruct Hoc as [[-> _]|[-> _]]; by destruct st.
Qed.

Lemma json_ser_scans v :
  forall stepback st s,
    spaces stepback -> st <> InOther -> json_ser stepback v = Some s -> scans st s.
Proof.
  induction v as [| |b|n|str|items IH|props IH] using value_nested_ind;
    intros stepback st s Hsb Hst; cbn [json_ser]; intros [= <-].
  - apply line_scan_plain. by repeat constructor.
  - apply line_scan_plain. destruct b; by repeat constructor.
  - apply line_scan_plain, dec_Z_plain.
  - by apply json_quote_scans.
  - apply json_block_scans; [by left | exact Hsb|].
    assert (Hind : spaces (stepback ++ json_gap)).
    { apply Forall_app. split; [exact Hsb | by repeat constructor]. }
    induction IH as [|x rest Hx Hrest IHrest]; cbn [List.map]; [apply List.Forall_nil|].
    apply List.Forall_cons; [|exact IHrest].
    destruct (json_ser (stepback ++ json_gap) x) as [sx|] eqn:Hser; cbn [default].
    + by apply (Hx _ AtStart _ Hind).
    + apply line_scan_plain. by repeat constructor.
  - apply json_block_scans; [by right | exact Hsb|].
    assert (Hind : spaces (stepback ++ json_gap)).
    { apply Forall_app. split; [exact Hsb | by repeat constructor]. }
    induction IH as [|[k x] rest Hx Hrest IHrest]; [apply List.Forall_nil|].
    cbn [snd] in Hx.
    destruct (json_ser (stepback ++ json_gap) x) as [sx|] eqn:Hser; [|exact IHrest].
    apply List.Forall_cons; [|exact IHrest].
    assert (Hq : line_scan AtStart (json_quote k) = Some InQuoted).
    { unfold json_quote. apply (line_scan_inside InQuoted); [by left|].
      apply Forall_app. split; [apply json_quote_units_no_newline | by repeat constructor]. }
    assert (Hsx : scans InQuoted sx) by (by apply (Hx _ InQuoted _ Hind)).
    eapply scans_app; [exact Hq|]. exact Hsx.
Qed.

Lemma json_fallback_scans obj : scans AtStart (json_fallback obj ++ [c_newline]).
Proof.
  unfold json_fallback. rewrite <- app_assoc.
  eapply (scans_app _ _ _ AtStart); [reflexivity|].
  assert (Hbody : scans AtStart (default (js "undefined") (JSON_stringify obj))).
  { unfold JSON_stringify. destruct (json_ser [] obj) as [s|] eqn:Hser; cbn [default].
    - apply (json_ser_scans obj [] AtStart s); [apply List.Forall_nil | done | exact Hser].
    - apply line_scan_plain. by repeat constructor. }
  destruct Hbody as [st1 H1]. eapply scans_app; [exact H1|].
  apply scans_after_newline. by exists AtStart.
Qed.

(** *** From the scan to the lines *)

Lemma scan_lines s :
  forall st st', line_scan st s = Some st' ->
    exists first rest,
      split_on c_newline s = first :: rest /\ good_first st first /\ Forall good_line rest.
Proof.
  induction s as [|c s IH]; intros st st' H.
  - exists [], []. split; [reflexivity|]. split; [|apply List.Forall_nil].
    destruct st; cbn; tauto.
  - cbn [line_scan] in H. destruct (line_step st c) as [st1|] eqn:Hstep; [|discriminate].
    destruct (IH _ _ H) as (first & rest & Hsplit & Hfirst & Hrest).
    cbn [split_on]. rewrite Hsplit. unfold line_step in Hstep.
    destruct (c =? c_newline)%N eqn:Hnl.
    + injection Hstep as <-. exists [], (first :: rest). split; [reflexivity|].
      split; [destruct st; cbn; tauto|]. by apply List.Forall_cons.
    + exists (c :: first), rest. split; [reflexivity|]. split; [|exact Hrest].
      destruct st; cbn [good_first]; [| done | done |].
      * unfold good_line. cbn [drop_spaces].
        destruct (is_space c) eqn:Hsp; [injection Hstep as <-; exact Hfirst|].
        destruct (c =? 34)%N eqn:H34; [left; by apply N.eqb_eq|].
        destruct (c =? 35)%N eqn:H35; [right; left; by apply N.eqb_eq|].
        destruct (c =? 58)%N eqn:H58; [discriminate|]. injection Hstep as <-.
        right. right. cbn [good_first] in Hfirst. apply N.eqb_neq in H58.
        intros [Heq|Hin]; [by symmetry in Heq | done].
      * destruct (c =? 58)%N eqn:H58; [discriminate|]. injection Hstep as <-.
        cbn [good_first] in Hfirst. apply N.eqb_neq in H58.
        intros [Heq|Hin]; [by symmetry in Heq | done].
Qed.

Lemma drop_spaces_head l c t : drop_spaces l = c :: t -> is_space c = false.
Proof.
  induction l as [|a l IH]; cbn [drop_spaces]; [discriminate|].
  destruct (is_space a) eqn:Ha; [exact IH|]. by intros [= <- <-].
Qed.

Lemma drop_spaces_app l b c t :
  drop_spaces l = c :: t -> drop_spaces (l ++ b) = c :: t ++ b.
Proof.
  induction l as [|a l IH]; cbn [drop_spaces app]; [discriminate|].
  destruct (is_space a); [exact IH|]. by intros [= <- <-].
Qed.

Lemma drop_spaces_snoc u c :
  is_space c = false ->
  exists pre u', u = pre ++ u' /\ drop_spaces (u ++ [c]) = u' ++ [c].
Proof.
  intros Hc. induction u as [|a u (pre & u' & Hu & Hd)].
  - exists [], []. split; [reflexivity|]. cbn [app drop_spaces]. by rewrite Hc.
  - cbn [app drop_spaces]. destruct (is_space a).
    + exists (a :: pre), u'. split; [by rewrite Hu | exact Hd].
    + by exists [], (a :: u).
Qed.

Lemma trim_head l c t :
  drop_spaces l = c :: t ->
  exists w suffix, trim l = c :: w /\ c :: t = (c :: w) ++ suffix.
Proof.
  intros Hd. pose proof (drop_spaces_head _ _ _ Hd) as Hc.
  unfold trim. rewrite Hd. cbn [rev].
  destruct (drop_spaces_snoc (rev t) c Hc) as (pre & u' & Hu & Hdrop).
  rewrite Hdrop. exists (rev u'), (rev pre).
  rewrite rev_app_distr. split; [reflexivity|].
  cbn [app]. f_equal. rewrite <- rev_app_distr, <- Hu. by rewrite rev_involutive.
Qed.

Lemma cut_at_colon_none l : ~ In 58%N l -> cut_at_colon l = None.
Proof.
  induction l as [|c l IH]; [done|]. intros Hno. cbn [cut_at_colon].
  destruct (c =? 58)%N eqn:Hc; [apply N.eqb_eq in Hc; destruct Hno; by left|].
  rewrite IH; [done|]. intros Hin. apply Hno. by right.
Qed.

Lemma obj_set_keys (Q : list N -> Prop) k v props :
  Q k -> Forall (fun kv => Q (fst kv)) props ->
  Forall (fun kv => Q (fst kv)) (obj_set k v props).
Proof.
  intros Hk. induction 1 as [|[k0 v0] rest H0 Hrest IH]; cbn [obj_set].
  - apply List.Forall_cons; [exact Hk | apply List.Forall_nil].
  - destruct (str_eqb k0 k); apply List.Forall_cons; auto.
Qed.

Lemma parse_line_good st l :
  good_line l -> Forall quoted_key (snd st) -> Forall quoted_key (snd (parse_line st l)).
Proof.
  unfold good_line. intros Hgood Hobj.
  destruct (drop_spaces l) as [|c t] eqn:Hd.
  - unfold parse_line, trim. rewrite Hd. exact Hobj.
  - destruct (trim_head _ _ _ Hd) as (w & suffix & Ht & Hsuffix).
    unfold parse_line. rewrite Ht. destruct Hgood as [->|[->|Hno]].
    + change (starts_with (js "#") (34%N :: w)) with false. cbv beta iota.
      change (cut_at_colon (34%N :: w))
        with (match cut_at_colon w with
              | Some (k, v) => Some (34%N :: k, v)
              | None => None
              end).
      destruct (cut_at_colon w) as [[k v]|]; [|exact Hobj].
      destruct (trim_head (34%N :: k) 34%N k eq_refl) as (w2 & ? & Hk & _).
      cbv zeta. rewrite Hk. destruct st as [bare obj]. unfold assign_key.
      destruct (str_eqb (34%N :: w2) (js "__proto__") && negb bare).
      * match goal with
        | |- context [match ?val with VNull => _ | _ => _ end] => by destruct val
        end.
      * apply (obj_set_keys (fun key => exists t, key = 34%N :: t)); [by exists w2 | exact Hobj].
    + change (starts_with (js "#") (35%N :: w)) with true. exact Hobj.
    + rewrite cut_at_colon_none.
      * by destruct (starts_with (js "#") (c :: w)).
      * intros Hin. apply Hno. rewrite Hsuffix. apply in_or_app. by left.
Qed.

Lemma good_line_prefix a b : good_line (a ++ b) -> good_line a.
Proof.
  unfold good_line. destruct (drop_spaces a) as [|c t] eqn:Hd; [done|].
  rewrite (drop_spaces_app a b c t Hd).
  intros [->|[->|Hno]]; [by left | right; by left |].
  right. right. intros Hin. apply Hno.
  change (In 58%N ((c :: t) ++ b)). apply in_or_app. by left.
Qed.

Lemma drop_trailing_cr_prefix l : exists suffix, l = drop_trailing_cr l ++ suffix.
Proof.
  unfold drop_trailing_cr. destruct (rev l) as [|c r] eqn:Hrev.
  - exists []. by rewrite app_nil_r.
  - assert (Hl : l = rev r ++ [c]).
    { rewrite <- (rev_involutive l), Hrev. reflexivity. }
    destruct (N.eq_dec c 13%N) as [->|Hc].
    + by exists [13%N].
    + exists []. rewrite app_nil_r.
      destruct c as [|p]; [reflexivity|].
      do 4 (try (destruct p as [p|p|]; try reflexivity)). by destruct Hc.
Qed.

Lemma split_lines_good content :
  Forall good_line (split_on c_newline content) -> Forall good_line (split_lines content).
Proof.
  intros H. unfold split_lines. apply Forall_rev in H.
  destruct (rev (split_on c_newline content)) as [|lastp before]; [apply List.Forall_nil|].
  inversion H as [|? ? Hlast Hbefore]; subst.
  apply Forall_rev. apply List.Forall_cons; [exact Hlast|].
  clear H. induction Hbefore as [|x rest Hx Hrest IH]; cbn [List.map]; [apply List.Forall_nil|].
  apply List.Forall_cons; [|exact IH].
  destruct (drop_trailing_cr_prefix x) as [suffix Hx'].
  apply (good_line_prefix _ suffix). by rewrite <- Hx'.
Qed.

Lemma scanned_text_keys content :
  scans AtStart content -> keys_quoted (parseYaml_fallback content).
Proof.
  intros [st H]. destruct (scan_lines _ _ _ H) as (first & rest & Hsplit & Hfirst & Hrest).
  assert (Hlines : Forall good_line (split_lines content)).
  { apply split_lines_good. rewrite Hsplit. by apply List.Forall_cons. }
  unfold parseYaml_fallback, parse_state. eexists. split; [reflexivity|].
  assert (Hgen : forall lines acc,
             Forall good_line lines -> Forall quoted_key (snd acc) ->
             Forall quoted_key (snd (fold_left parse_line lines acc))).
  { induction lines as [|l ls IH]; intros acc Hl Hacc; [exact Hacc|].
    inversion Hl; subst. cbn [fold_left]. apply IH; [done|]. by apply parse_line_good. }
  apply Hgen; [exact Hlines | apply List.Forall_nil].
Qed.

Section DegradedRoundTrip.
Context {E : Engine}.

(** X22. Without the [yaml] package a document that [stringifyYaml] wrote
    cannot be read back with its fields: serialising always succeeds, and
    every key of the object [parseYaml] returns for the written text begins
    with a double quote. So whatever the document was, reading a field such
    as [name], [slug] or [uuid] of the parsed text gives [undefined]. *)
Theorem degraded_write_loses_field_names (obj : value) :
  yaml_import = None ->
  exists text,
    stringifyYaml obj = Return text
    /\ keys_quoted (parseYaml text)
    /\ forall k, (forall t, k <> 34%N :: t) -> get_prop (parseYaml text) k = VUndef.
Proof.
  intros Hlib. exists (json_fallback obj ++ [c_newline]).
  assert (Hres : stringify_result obj = Return (VStr (json_fallback obj))).
  { unfold stringify_result. by rewrite Hlib. }
  split; [apply (stringifyYaml_degraded obj Hres)|].
  rewrite (parseYaml_degraded _ Hlib).
  pose proof (scanned_text_keys _ (json_fallback_scans obj)) as Hkeys.
  split; [exact Hkeys|].
  intros k Hk. destruct Hkeys as (props & -> & Hq). unfold get_prop.
  destruct (assoc_get k props) as [v|] eqn:Hget; [|reflexivity].
  apply assoc_get_in in Hget.
  destruct (proj1 (List.Forall_forall _ _) Hq _ Hget) as [t Ht].
  by destruct (Hk t).
Qed.

End DegradedRoundTrip.

Lemma degraded_write_loses_field_names_witness :
  exists text,
    @stringifyYaml Sample.degraded (VObj [(js "name", VStr (js "PLA"))]) = Return text
    /\ get_prop (@parseYaml Sample.degraded text) (js "name") = VUndef.
Proof.
  destruct (@degraded_write_loses_field_names Sample.degraded
              (VObj [(js "name", VStr (js "PLA"))]) eq_refl)
    as (text & Hwrite & _ & Hget).
  exists text. split; [exact Hwrite|].
  apply Hget. intros t H. vm_compute in H. discriminate H.
Defined.
